(** * ai-cv-optimizer: request resilience, response normalisation and export codecs

    A shallow embedding of
      - [src/lib/apiUtils.ts]       ([retryRequest], [isRetryableError]),
      - [src/pages/Index.tsx]       (the closure [handleOptimize] hands to [retryRequest]),
      - [src/lib/fileParser.ts]     (the four text extractors),
      - [src/lib/fileGenerator.ts]  ([generatePDF], [generateDOCX]),
      - [supabase/functions/optimize-cv/index.ts] (fence extraction and the
        [cv_optimizations] row),
    followed by the properties the design document states about them.

    Conventions.  A JavaScript string is the [string] of the bytes of its
    UTF-8 form (a string with an unpaired surrogate has none and is left out).
    White space is that of ECMAScript, [length] counts UTF-16 code units,
    and case folding is exact for the searches the code makes in a folded
    text, all of them for ASCII words.  JavaScript numbers that the code only
    adds, multiplies by constants and compares are exact: [Z] for milliseconds,
    attempt counters and HTTP statuses, [Q] for page coordinates and for parsed
    JSON numbers.  A promise is the value it settles to: [Resolved v] or
    [Rejected x]. *)

From Stdlib Require Import Bool List String Ascii ZArith QArith Lia.
From Stdlib Require Import DecimalString.
Import ListNotations.

Local Open Scope string_scope.
Local Open Scope Z_scope.

(* ------------------------------------------------------------------ *)
(** ** JavaScript strings *)

Module Js.

(** [String.prototype.toLowerCase], as far as a search for an ASCII word can
    tell.  The capitals A .. Z are folded, and so is the Kelvin sign U+212A
    (bytes E2 84 AA), whose lower case is the letter k.  Every other
    character is left as it is: its lower case holds no ASCII character, but
    for U+0130, which becomes i followed by the combining U+0307, so that
    only a word ending in i could tell; the code looks for none. *)
Definition lower_ascii (c : ascii) : ascii :=
  let n := nat_of_ascii c in
  if (Nat.leb 65 n && Nat.leb n 90)%bool then ascii_of_nat (n + 32) else c.

Definition kelvin (a b c : ascii) : bool :=
  (Nat.eqb (nat_of_ascii a) 226 && Nat.eqb (nat_of_ascii b) 132
   && Nat.eqb (nat_of_ascii c) 170)%bool.

Fixpoint toLowerCase (s : string) : string :=
  match s with
  | EmptyString => EmptyString
  | String a s1 =>
      match s1 with
      | String b (String c s3) =>
          if kelvin a b c then String "k" (toLowerCase s3)
          else String (lower_ascii a) (toLowerCase s1)
      | _ => String (lower_ascii a) (toLowerCase s1)
      end
  end.

(** The input behind a literal [p], if the input starts with it. *)
Fixpoint lit (p s : string) : option string :=
  match p with
  | EmptyString => Some s
  | String a p' =>
      match s with
      | String b s' => if Ascii.eqb a b then lit p' s' else None
      | EmptyString => None
      end
  end.

(** [s.startsWith(p)] *)
Definition startsWith (s p : string) : bool :=
  match lit p s with Some _ => true | None => false end.

(** [s.includes(sub)] *)
Fixpoint includes (s sub : string) : bool :=
  if startsWith s sub then true
  else match s with
       | EmptyString => false
       | String _ s' => includes s' sub
       end.

(** [s.endsWith(p)] *)
Fixpoint endsWith (s p : string) : bool :=
  if String.eqb s p then true
  else match s with
       | EmptyString => false
       | String _ s' => endsWith s' p
       end.

(** The white space of [\s] and of [trim]: the characters WhiteSpace and
    LineTerminator of ECMAScript, each by the bytes of its UTF-8 form.

      U+0009 .. U+000D, U+0020                      one byte
      U+00A0                                        C2 A0
      U+1680                                        E1 9A 80
      U+2000 .. U+200A, U+2028, U+2029, U+202F      E2 80 (80 .. 8A, A8, A9, AF)
      U+205F                                        E2 81 9F
      U+3000                                        E3 80 80
      U+FEFF                                        EF BB BF *)
Definition space1 (a : ascii) : bool :=
  let n := nat_of_ascii a in
  (Nat.leb 9 n && Nat.leb n 13 || Nat.eqb n 32)%bool.

Definition space2 (a b : ascii) : bool :=
  (Nat.eqb (nat_of_ascii a) 194 && Nat.eqb (nat_of_ascii b) 160)%bool.

Definition space3 (a b c : ascii) : bool :=
  let x := nat_of_ascii a in
  let y := nat_of_ascii b in
  let z := nat_of_ascii c in
  (Nat.eqb x 225 && Nat.eqb y 154 && Nat.eqb z 128
   || Nat.eqb x 226 && Nat.eqb y 128
      && (Nat.leb 128 z && Nat.leb z 138
          || Nat.eqb z 168 || Nat.eqb z 169 || Nat.eqb z 175)
   || Nat.eqb x 226 && Nat.eqb y 129 && Nat.eqb z 159
   || Nat.eqb x 227 && Nat.eqb y 128 && Nat.eqb z 128
   || Nat.eqb x 239 && Nat.eqb y 187 && Nat.eqb z 191)%bool.

(** The input behind one white space character, if the input starts with
    one. *)
Definition skip_space (s : string) : option string :=
  match s with
  | String a s1 =>
      if space1 a then Some s1 else
      match s1 with
      | String b s2 =>
          if space2 a b then Some s2 else
          match s2 with
          | String c s3 => if space3 a b c then Some s3 else None
          | EmptyString => None
          end
      | EmptyString => None
      end
  | EmptyString => None
  end.

(** [s.trimStart()]: the white space characters at the front go. *)
Fixpoint trimStart (s : string) : string :=
  match s with
  | String a s1 =>
      if space1 a then trimStart s1 else
      match s1 with
      | String b s2 =>
          if space2 a b then trimStart s2 else
          match s2 with
          | String c s3 => if space3 a b c then trimStart s3 else s
          | EmptyString => s
          end
      | EmptyString => s
      end
  | EmptyString => s
  end.

(** Nothing but white space characters. *)
Fixpoint all_space (s : string) : bool :=
  match s with
  | String a s1 =>
      if space1 a then all_space s1 else
      match s1 with
      | String b s2 =>
          if space2 a b then all_space s2 else
          match s2 with
          | String c s3 => if space3 a b c then all_space s3 else false
          | EmptyString => false
          end
      | EmptyString => false
      end
  | EmptyString => true
  end.

(** [s.trimEnd()]: the text up to where nothing but white space follows. *)
Fixpoint trimEnd (s : string) : string :=
  if all_space s then EmptyString
  else match s with
       | String c s' => String c (trimEnd s')
       | EmptyString => EmptyString
       end.

(** [s.trim()] *)
Definition trim (s : string) : string := trimEnd (trimStart s).

(** [s.length]: the UTF-16 code units of [s].  A byte that continues a
    character counts for nothing, the first byte of a character of four bytes
    (a surrogate pair) for two, every other byte for one. *)
Definition units (c : ascii) : nat :=
  let n := nat_of_ascii c in
  if Nat.ltb n 128 then 1%nat
  else if Nat.ltb n 192 then 0%nat
  else if Nat.ltb n 240 then 1%nat
  else 2%nat.

Fixpoint length (s : string) : nat :=
  match s with
  | EmptyString => O
  | String c s' => (units c + length s')%nat
  end.

(** [xs.join(sep)] *)
Fixpoint join (sep : string) (xs : list string) : string :=
  match xs with
  | [] => ""
  | [x] => x
  | x :: rest => x ++ sep ++ join sep rest
  end.

(** Truthiness of a string: every string but the empty one. *)
Definition truthy_string (s : string) : bool :=
  match s with EmptyString => false | _ => true end.

(** [a || b] on optional strings ([None] is [undefined]). *)
Definition or_string (a : option string) (b : string) : string :=
  match a with
  | Some s => if truthy_string s then s else b
  | None => b
  end.

(** The UTF-8 bytes of U+2022, the bullet of the export codecs. *)
Definition bullet : string :=
  String (ascii_of_nat 226) (String (ascii_of_nat 128) (String (ascii_of_nat 162) "")).

End Js.

(* ------------------------------------------------------------------ *)
(** ** Thrown values and settled promises *)

(** The properties of an error object that the code reads.  [is_Error] is
    [error instanceof Error]; an absent property is [None]. *)
Record ErrObj : Type := mkErr {
  is_Error       : bool;
  err_name       : option string;
  err_message    : option string;
  err_status     : option Z;
  err_statusCode : option Z
}.

(** What a [catch] clause or an [error: any] parameter can hold. *)
Inductive JsThrown : Type :=
| ThrownNull
| ThrownUndefined
| ThrownString (s : string)     (* a string primitive *)
| ThrownObject (o : ErrObj).    (* an object, [Error] instance or not *)

(** [new Error(msg)] *)
Definition new_Error (msg : string) : ErrObj :=
  mkErr true (Some "Error") (Some msg) None None.

(** [Error.prototype.toString] and [Object.prototype.toString]. *)
Definition ErrObj_toString (o : ErrObj) : string :=
  if is_Error o then
    let name := match err_name o with Some n => n | None => "Error" end in
    let msg := match err_message o with Some m => m | None => "" end in
    if Js.truthy_string name
    then (if Js.truthy_string msg then name ++ ": " ++ msg else name)
    else msg
  else "[object Object]".

(** [String(x)] *)
Definition String_of (x : JsThrown) : string :=
  match x with
  | ThrownNull => "null"
  | ThrownUndefined => "undefined"
  | ThrownString s => s
  | ThrownObject o => ErrObj_toString o
  end.

(** A settled promise. *)
Inductive Outcome (T : Type) : Type :=
| Resolved (v : T)
| Rejected (x : JsThrown).
Arguments Resolved {T} v.
Arguments Rejected {T} x.

(* ------------------------------------------------------------------ *)
(** ** src/lib/apiUtils.ts *)

Module ApiUtils.

(** Truthiness of [error]: [!error] holds of [null], [undefined] and [""]. *)
Definition truthy (error : JsThrown) : bool :=
  match error with
  | ThrownNull | ThrownUndefined => false
  | ThrownString s => Js.truthy_string s
  | ThrownObject _ => true
  end.

Definition prop_name (error : JsThrown) : option string :=
  match error with ThrownObject o => err_name o | _ => None end.

Definition prop_message (error : JsThrown) : option string :=
  match error with ThrownObject o => err_message o | _ => None end.

(** [error.status || error.statusCode]: the first of the two that is a
    non-zero number, [None] when the disjunction is falsy. *)
Definition status_or_statusCode (error : JsThrown) : option Z :=
  match error with
  | ThrownObject o =>
      match err_status o with
      | Some s => if s =? 0 then
                    match err_statusCode o with
                    | Some c => if c =? 0 then None else Some c
                    | None => None
                    end
                  else Some s
      | None =>
          match err_statusCode o with
          | Some c => if c =? 0 then None else Some c
          | None => None
          end
      end
  | _ => None
  end.

Definition retryableMessages : list string :=
  [ "timeout"; "network"; "connection"; "rate limit"; "server error";
    "service unavailable"; "temporarily unavailable" ].

(** [String(error.message || error).toLowerCase()] *)
Definition errorMessage (error : JsThrown) : string :=
  Js.toLowerCase (Js.or_string (prop_message error) (String_of error)).

Definition name_is (error : JsThrown) (n : string) : bool :=
  match prop_name error with Some m => String.eqb m n | None => false end.

Definition isRetryableError (error : JsThrown) : bool :=
  if negb (truthy error) then false
  else if (name_is error "NetworkError" || name_is error "TypeError")%bool then true
  else match status_or_statusCode error with
       | Some status =>
           ((status =? 429) || (status =? 408)
            || ((500 <=? status) && (status <? 600)))%bool
       | None =>
           existsb (fun msg => Js.includes (errorMessage error) msg) retryableMessages
       end.

(** *** [retryRequest]

    One run of [retryRequest] is observed through the sequence of its effects:
    the invocations of [fn], the calls of the optional [onRetry] observer and
    the awaited timers.  [fn] is a closure over the outside world; within one
    run it is the sequence of outcomes of its successive invocations,
    [fn 1], [fn 2], ... *)

Inductive Event : Type :=
| EvInvoke (i : Z)                          (* the i-th invocation of [fn] *)
| EvOnRetry (attempt : Z) (error : ErrObj)  (* [onRetry(attempt, lastError)] *)
| EvSleep (ms : Z).                         (* [await] of a [setTimeout] of [ms] *)

Record Run : Type := mkRun {
  invocations : Z;          (* how often [fn] has been invoked so far *)
  trace       : list Event  (* the effects so far, oldest first *)
}.

Definition start : Run := mkRun 0 [].

(** Computations that act on the run. *)
Definition Async (A : Type) : Type := Run -> A * Run.

Definition ret {A} (a : A) : Async A := fun r => (a, r).

Definition bind {A B} (m : Async A) (k : A -> Async B) : Async B :=
  fun r => let (a, r') := m r in k a r'.

Notation "x <- m ;; k" := (bind m (fun x => k))
  (at level 61, m at next level, right associativity).
Notation "m ;;; k" := (bind m (fun _ => k))
  (at level 61, right associativity).

Definition emit (e : Event) : Async unit :=
  fun r => (tt, mkRun (invocations r) (trace r ++ [e])).

Definition when (b : bool) (m : Async unit) : Async unit :=
  if b then m else ret tt.

(** [error instanceof Error ? error : new Error(String(error))] *)
Definition toError (error : JsThrown) : ErrObj :=
  match error with
  | ThrownObject o => if is_Error o then o else new_Error (String_of error)
  | _ => new_Error (String_of error)
  end.

Section RetryRequest.

Context {T : Type}.
Variable fn : Z -> Outcome T.
Variable maxRetries : Z.
Variable delay : Z.
(** Whether the optional [onRetry] was passed.  The observer is taken to
    return normally; each call of it is the event [EvOnRetry]. *)
Variable onRetry : bool.

(** [await fn()] *)
Definition await_fn : Async (Outcome T) :=
  fun r => let i := invocations r + 1 in
           (fn i, mkRun i (trace r ++ [EvInvoke i])).

(** [delay * Math.pow(2, attempt - 1)] *)
Definition waitTime (attempt : Z) : Z := delay * 2 ^ (attempt - 1).

(** The [for] loop from [attempt] on, and the [throw] behind it.  [fuel]
    bounds the number of iterations; [None] is an exhausted bound. *)
Fixpoint attempts (fuel : nat) (attempt : Z) (lastError : option ErrObj)
  : Async (option (Outcome T)) :=
  match fuel with
  | O => ret None
  | S fuel' =>
      if attempt <=? maxRetries then
        r <- await_fn ;;
        match r with
        | Resolved v => ret (Some (Resolved v))
        | Rejected error =>
            let lastError := toError error in
            when (onRetry && (attempt <? maxRetries))
                 (emit (EvOnRetry attempt lastError)) ;;;
            when (attempt <? maxRetries)
                 (emit (EvSleep (waitTime attempt))) ;;;
            attempts fuel' (attempt + 1) (Some lastError)
        end
      else
        ret (Some (Rejected (ThrownObject
               match lastError with
               | Some e => e
               | None => new_Error "Request failed after retries"
               end)))
  end.

Definition retryRequest : Async (option (Outcome T)) :=
  attempts (S (Z.to_nat maxRetries)) 1 None.

End RetryRequest.

(** Reading a trace. *)

Fixpoint sleeps (tr : list Event) : list Z :=
  match tr with
  | [] => []
  | EvSleep ms :: tr' => ms :: sleeps tr'
  | _ :: tr' => sleeps tr'
  end.

Definition total_wait (tr : list Event) : Z := fold_right Z.add 0 (sleeps tr).

(** The invocations of [fn], by their number. *)
Fixpoint invoked (tr : list Event) : list Z :=
  match tr with
  | [] => []
  | EvInvoke i :: tr' => i :: invoked tr'
  | _ :: tr' => invoked tr'
  end.

(** [first; first + 1; ...], [len] numbers. *)
Fixpoint Zseq (first : Z) (len : nat) : list Z :=
  match len with
  | O => []
  | S len' => first :: Zseq (first + 1) len'
  end.

(** What follows the [i]-th invocation of [fn] ... *)
Fixpoint after_invoke (i : Z) (tr : list Event) : list Event :=
  match tr with
  | [] => []
  | EvInvoke j :: tr' => if j =? i then tr' else after_invoke i tr'
  | _ :: tr' => after_invoke i tr'
  end.

(** ... up to the next invocation. *)
Fixpoint until_invoke (tr : list Event) : list Event :=
  match tr with
  | [] => []
  | EvInvoke _ :: _ => []
  | e :: tr' => e :: until_invoke tr'
  end.

(** The timers awaited between invocation [i] and invocation [i + 1]. *)
Definition waits_between (i : Z) (tr : list Event) : list Z :=
  sleeps (until_invoke (after_invoke i tr)).

(** The effects of an attempt that fails: the invocation, the observer and
    the timer (the last two only while attempts remain). *)

Definition rejected {T} (o : Outcome T) : bool :=
  match o with Rejected _ => true | Resolved _ => false end.

Definition thrown {T} (o : Outcome T) : JsThrown :=
  match o with Rejected x => x | Resolved _ => ThrownUndefined end.

Section FailedRounds.

Context {T : Type}.
Variable fn : Z -> Outcome T.
Variable maxRetries : Z.
Variable delay : Z.
Variable onRetry : bool.

Definition failed_round (attempt i : Z) : list Event :=
  [EvInvoke i]
  ++ (if (onRetry && (attempt <? maxRetries))%bool
      then [EvOnRetry attempt (toError (thrown (fn i)))] else [])
  ++ (if attempt <? maxRetries then [EvSleep (waitTime delay attempt)] else []).

(** [k] failed attempts in a row, the first being attempt [attempt] and
    invocation [i + 1]. *)
Fixpoint failed_rounds (k : nat) (attempt i : Z) : list Event :=
  match k with
  | O => []
  | S k' => failed_round attempt (i + 1) ++ failed_rounds k' (attempt + 1) (i + 1)
  end.

Definition last_after (k : nat) (lastError : option ErrObj) (i : Z)
  : option ErrObj :=
  match k with
  | O => lastError
  | S _ => Some (toError (thrown (fn (i + Z.of_nat k))))
  end.

End FailedRounds.

End ApiUtils.

(* ------------------------------------------------------------------ *)
(** ** src/pages/Index.tsx: the operation [handleOptimize] retries *)

Module Index.

(** What [supabase.functions.invoke] resolves to: [{ data, error }], [error]
    being [null] or an error object. *)
Record InvokeResult (D : Type) : Type := mkInvokeResult {
  data  : option D;
  error : option ErrObj
}.
Arguments mkInvokeResult {D} data error.
Arguments data {D} i.
Arguments error {D} i.

(** [new Error(e.message || "Optimization failed")] with [status] copied from
    [e].  ([context], which nothing modelled here reads, is left out.) *)
Definition retryError (e : ErrObj) : ErrObj :=
  mkErr true (Some "Error")
        (Some (Js.or_string (err_message e) "Optimization failed"))
        (err_status e) None.

(** The body of the arrow function passed to [retryRequest], after
    [supabase.functions.invoke] has resolved to [invokeResult]. *)
Definition optimizeAttempt {D} (invokeResult : InvokeResult D)
  : Outcome (InvokeResult D) :=
  match error invokeResult with
  | Some e =>
      (* Only retry if error is retryable *)
      if negb (ApiUtils.isRetryableError (ThrownObject e))
      then Rejected (ThrownObject e)
      else Rejected (ThrownObject (retryError e))
  | None => Resolved invokeResult
  end.

(** [retryRequest(async () => ..., 3, 1000, (attempt, error) => ...)], where
    [invoke i] is what the [i]-th call of the edge function resolves to. *)
Definition optimizeWithRetry {D} (invoke : Z -> InvokeResult D)
  : ApiUtils.Async (option (Outcome (InvokeResult D))) :=
  ApiUtils.retryRequest (fun i => optimizeAttempt (invoke i)) 3 1000 true.

End Index.

(* ------------------------------------------------------------------ *)
(** ** src/lib/fileParser.ts *)

Module FileParser.

Record ParseResult : Type := mkParseResult {
  text  : string;
  error : option string      (* [None]: the property is absent *)
}.

(** A page of a loaded PDF: [getTextContent()] settles to the [str] of its
    items. *)
Record PDFPageProxy : Type := mkPage {
  getTextContent : Outcome (list string)
}.

(** [pdfjsLib.getDocument(...).promise], when it resolves. *)
Record PDFDocumentProxy : Type := mkPdf {
  numPages : nat;
  getPage  : Z -> Outcome PDFPageProxy
}.

Definition ArrayBuffer : Type := string.

(** The browser's [File]: declared type, name, and what its two readers
    settle to. *)
Record File : Type := mkFile {
  file_type   : string;
  file_name   : string;
  arrayBuffer : Outcome ArrayBuffer;
  file_text   : Outcome string
}.

Definition bindO {A B} (m : Outcome A) (k : A -> Outcome B) : Outcome B :=
  match m with
  | Resolved v => k v
  | Rejected x => Rejected x
  end.

Notation "x <-- m ;; k" := (bindO m (fun x => k))
  (at level 61, m at next level, right associativity).

(** [try { body } catch (error) { handler }] *)
Definition try_catch {A} (body : Outcome A) (handler : JsThrown -> Outcome A)
  : Outcome A :=
  match body with
  | Resolved v => Resolved v
  | Rejected x => handler x
  end.

(** [error instanceof Error ? error.message : fallback].  An [Error] without
    an own [message] inherits the empty one of [Error.prototype]. *)
Definition message_or (x : JsThrown) (fallback : string) : string :=
  match x with
  | ThrownObject o =>
      if is_Error o
      then match err_message o with Some m => m | None => "" end
      else fallback
  | _ => fallback
  end.

Definition LF : string := String (ascii_of_nat 10) "".

Section Extractors.

(** The two decoding libraries. *)
Variable pdfjs_getDocument : ArrayBuffer -> Outcome PDFDocumentProxy.
Variable mammoth_extractRawText : ArrayBuffer -> Outcome string.

(** [for (let i = 1; i <= pdf.numPages; i++)], with [n] pages still to
    read from page [i] on. *)
Fixpoint read_pages (pdf : PDFDocumentProxy) (n : nat) (i : Z)
         (fullText : string) : Outcome string :=
  match n with
  | O => Resolved fullText
  | S n' =>
      page <-- getPage pdf i ;;
      items <-- getTextContent page ;;
      let pageText := Js.join " " items in
      read_pages pdf n' (i + 1) (fullText ++ pageText ++ LF)
  end.

Definition extractTextFromPDF (file : File) : Outcome ParseResult :=
  try_catch
    (buf <-- arrayBuffer file ;;
     pdf <-- pdfjs_getDocument buf ;;
     fullText <-- read_pages pdf (numPages pdf) 1 "" ;;
     Resolved (mkParseResult (Js.trim fullText) None))
    (fun error =>
       Resolved (mkParseResult "" (Some (message_or error "Failed to parse PDF")))).

Definition extractTextFromDOCX (file : File) : Outcome ParseResult :=
  try_catch
    (buf <-- arrayBuffer file ;;
     value <-- mammoth_extractRawText buf ;;
     Resolved (mkParseResult (Js.trim value) None))
    (fun error =>
       Resolved (mkParseResult "" (Some (message_or error "Failed to parse DOCX")))).

Definition extractTextFromTXT (file : File) : Outcome ParseResult :=
  try_catch
    (t <-- file_text file ;;
     Resolved (mkParseResult (Js.trim t) None))
    (fun error =>
       Resolved (mkParseResult "" (Some (message_or error "Failed to parse TXT")))).

Definition unsupported : string :=
  "Unsupported file type. Please upload PDF, DOCX, or TXT.".

Definition extractTextFromFile (file : File) : Outcome ParseResult :=
  let fileType := file_type file in
  let fileName := Js.toLowerCase (file_name file) in
  if (String.eqb fileType "application/pdf" || Js.endsWith fileName ".pdf")%bool
  then extractTextFromPDF file
  else if (String.eqb fileType
             "application/vnd.openxmlformats-officedocument.wordprocessingml.document"
           || String.eqb fileType "application/msword"
           || Js.endsWith fileName ".docx"
           || Js.endsWith fileName ".doc")%bool
  then extractTextFromDOCX file
  else if (String.eqb fileType "text/plain" || Js.endsWith fileName ".txt")%bool
  then extractTextFromTXT file
  else Resolved (mkParseResult "" (Some unsupported)).

End Extractors.

(** A failure, reported in the result for the value [x] that was thrown: no
    text, and as [error] the message of [x] when [x] is an [Error], the
    extractor's [fixed] text when it is anything else. *)
Definition reports (x : JsThrown) (fixed : string) (r : ParseResult) : Prop :=
  text r = ""
  /\ ((exists o, x = ThrownObject o /\ is_Error o = true
                 /\ error r = Some (match err_message o with
                                    | Some m => m
                                    | None => ""
                                    end))
      \/ ((forall o, x = ThrownObject o -> is_Error o = false)
          /\ error r = Some fixed)).

(** How the dispatcher tells the kinds of file apart: by the declared type
    or by the end of the lowercased name. *)
Definition named (file : File) (extension : string) : Prop :=
  Js.endsWith (Js.toLowerCase (file_name file)) extension = true.

Definition is_pdf (file : File) : Prop :=
  file_type file = "application/pdf" \/ named file ".pdf".

Definition is_docx (file : File) : Prop :=
  file_type file
    = "application/vnd.openxmlformats-officedocument.wordprocessingml.document"
  \/ file_type file = "application/msword"
  \/ named file ".docx"
  \/ named file ".doc".

Definition is_txt (file : File) : Prop :=
  file_type file = "text/plain" \/ named file ".txt".

(** What the claim asks of a result: a text without [error], or no text and
    a message that is not empty. *)
Definition text_or_nonempty_error (r : ParseResult) : Prop :=
  error r = None \/ (text r = "" /\ exists m, error r = Some m /\ m <> "").

End FileParser.

(* ------------------------------------------------------------------ *)
(** ** src/lib/fileGenerator.ts *)

Module FileGenerator.

Local Open Scope Q_scope.

Record Header : Type := mkHeader { name : string; contact : string }.

Record Experience : Type := mkExperience {
  title : string; company : string; period : string;
  highlights : list string
}.

Record Education : Type := mkEducation {
  degree : string; institution : string; year : string
}.

(** [CVData].  The record arrives as parsed JSON and every section is
    guarded by a truthiness test, so each field may be absent ([None]). *)
Record CVData : Type := mkCV {
  header     : option Header;
  summary    : option string;
  skills     : option (list string);
  experience : option (list Experience);
  education  : option (list Education);
  matchScore : option Q
}.

(** [x && x.length > 0] *)
Definition non_empty {A} (x : option (list A)) : bool :=
  match x with
  | Some (_ :: _) => true
  | _ => false
  end.

Definition items {A} (x : option (list A)) : list A :=
  match x with Some l => l | None => [] end.

(** *** The jsPDF document

    The document is what its method calls have made of it: the current font,
    the number of pages (drawing goes to the last one) and the text drawn,
    oldest first. *)

Record TextOp : Type := mkTextOp {
  op_text : string;
  op_x    : Q;
  op_y    : Q;
  op_page : nat;
  op_size : Q;
  op_bold : bool
}.

Record JsPDF : Type := mkDoc {
  fontSize : Q;
  fontBold : bool;
  pages    : nat;
  ops      : list TextOp
}.

(** [new jsPDF()]: one page, helvetica normal at 16 points. *)
Definition new_jsPDF : JsPDF := mkDoc 16 false 1 [].

(** The state of [generatePDF]: the document and the cursor [yPosition]. *)
Record St : Type := mkSt { doc : JsPDF; yPosition : Q }.

Definition Gen (A : Type) : Type := St -> A * St.

Definition ret {A} (a : A) : Gen A := fun s => (a, s).
Definition bind {A B} (m : Gen A) (k : A -> Gen B) : Gen B :=
  fun s => let (a, s') := m s in k a s'.

Notation "x <- m ;; k" := (bind m (fun x => k))
  (at level 61, m at next level, right associativity).
Notation "m ;;; k" := (bind m (fun _ => k))
  (at level 61, right associativity).

Definition on_doc (f : JsPDF -> JsPDF) : Gen unit :=
  fun s => (tt, mkSt (f (doc s)) (yPosition s)).

Definition setFontSize (size : Q) : Gen unit :=
  on_doc (fun d => mkDoc size (fontBold d) (pages d) (ops d)).

(** [doc.setFont("helvetica", isBold ? "bold" : "normal")] *)
Definition setFont (isBold : bool) : Gen unit :=
  on_doc (fun d => mkDoc (fontSize d) isBold (pages d) (ops d)).

Definition addPage : Gen unit :=
  on_doc (fun d => mkDoc (fontSize d) (fontBold d) (S (pages d)) (ops d)).

(** [doc.text(t, x, y)] *)
Definition text (t : string) (x y : Q) : Gen unit :=
  on_doc (fun d =>
    mkDoc (fontSize d) (fontBold d) (pages d)
          (ops d ++ [mkTextOp t x y (pages d) (fontSize d) (fontBold d)])).

Definition get_y : Gen Q := fun s => (yPosition s, s).
Definition set_y (y : Q) : Gen unit := fun s => (tt, mkSt (doc s) y).

(** [yPosition += dy] *)
Definition advance (dy : Q) : Gen unit := fun s => (tt, mkSt (doc s) (yPosition s + dy)).

Definition when (b : bool) (m : Gen unit) : Gen unit := if b then m else ret tt.

(** [xs.forEach(f)] *)
Fixpoint forEach {A} (xs : list A) (f : A -> Gen unit) : Gen unit :=
  match xs with
  | [] => ret tt
  | x :: rest => f x ;;; forEach rest f
  end.

(** [a > b] *)
Definition gtb (a b : Q) : bool := negb (Qle_bool a b).

Section GeneratePDF.

(** [doc.internal.pageSize] and the library's line breaker. *)
Variable pageWidth pageHeight : Q.
Variable splitTextToSize : string -> Q -> list string.

Definition margin : Q := 20.
Definition maxWidth : Q := pageWidth - 2 * margin.

(** Helper to add text with word wrap *)
Definition addText (t : string) (size : Q) (isBold : bool) : Gen unit :=
  setFontSize size ;;;
  setFont isBold ;;;
  let lines := splitTextToSize t maxWidth in
  forEach lines (fun line =>
    y <- get_y ;;
    when (gtb y (pageHeight - 30)) (addPage ;;; set_y margin) ;;;
    y <- get_y ;;
    text line margin y ;;;
    advance (size * (4 # 10))) ;;;
  advance 5.

Definition addHighlight (highlight : string) : Gen unit :=
  setFontSize 10 ;;;
  y <- get_y ;;
  text (Js.bullet ++ " ") (margin + 5) y ;;;
  let lines := splitTextToSize highlight (maxWidth - 10) in
  forEach lines (fun line =>
    y <- get_y ;;
    text line (margin + 10) y ;;;
    advance 5).

Definition addExperience (exp : Experience) : Gen unit :=
  addText (title exp ++ " | " ++ company exp) 12 true ;;;
  addText (period exp) 10 false ;;;
  forEach (highlights exp) addHighlight ;;;
  advance 5.

Definition addEducation (edu : Education) : Gen unit :=
  addText (degree edu) 12 true ;;;
  addText (institution edu ++ " " ++ Js.bullet ++ " " ++ year edu) 10 false ;;;
  advance 5.

Definition render (cvData : CVData) : Gen unit :=
  (* Header *)
  match header cvData with
  | Some h =>
      addText (name h) 20 true ;;;
      addText (contact h) 11 false ;;;
      advance 10
  | None => ret tt
  end ;;;
  (* Professional Summary *)
  match summary cvData with
  | Some s =>
      when (Js.truthy_string s)
        (addText "PROFESSIONAL SUMMARY" 14 true ;;;
         addText s 11 false ;;;
         advance 5)
  | None => ret tt
  end ;;;
  (* Skills *)
  when (non_empty (skills cvData))
    (addText "KEY SKILLS" 14 true ;;;
     let skillsText := Js.join (" " ++ Js.bullet ++ " ") (items (skills cvData)) in
     addText skillsText 11 false ;;;
     advance 5) ;;;
  (* Experience *)
  when (non_empty (experience cvData))
    (addText "PROFESSIONAL EXPERIENCE" 14 true ;;;
     forEach (items (experience cvData)) addExperience) ;;;
  (* Education *)
  when (non_empty (education cvData))
    (addText "EDUCATION" 14 true ;;;
     forEach (items (education cvData)) addEducation).

(** The document handed to [doc.save]. *)
Definition generatePDF (cvData : CVData) : JsPDF :=
  doc (snd (render cvData (mkSt new_jsPDF margin))).

End GeneratePDF.

(** *** The DOCX paragraphs *)

Inductive HeadingLevel : Type := HEADING_1.
Inductive AlignmentType : Type := CENTER.

Record TextRun : Type := mkRun {
  run_text    : string;
  run_bold    : bool;
  run_size    : option Z;
  run_italics : bool
}.

Record Paragraph : Type := mkParagraph {
  heading       : option HeadingLevel;
  children      : list TextRun;
  alignment     : option AlignmentType;
  indent_left   : option Z;
  spacing_after : Z
}.

Definition plain (runs : list TextRun) (after : Z) : Paragraph :=
  mkParagraph None runs None None after.

Definition section_heading (t : string) : Paragraph :=
  mkParagraph (Some HEADING_1) [mkRun t true (Some 28%Z) false] None None 200.

Definition docxExperience (exp : Experience) : list Paragraph :=
  [ plain [mkRun (title exp ++ " | " ++ company exp) true (Some 24%Z) false] 100;
    plain [mkRun (period exp) false (Some 20%Z) true] 200 ]
  ++ map (fun highlight =>
            mkParagraph None
              [ mkRun (Js.bullet ++ " ") true None false;
                mkRun highlight false (Some 22%Z) false ]
              None (Some 400%Z) 150)
         (highlights exp)
  ++ [ plain [] 300 ].

Definition docxEducation (edu : Education) : list Paragraph :=
  [ plain [mkRun (degree edu) true (Some 24%Z) false] 100;
    plain [mkRun (institution edu ++ " " ++ Js.bullet ++ " " ++ year edu)
                 false (Some 20%Z) false] 300 ].

(** The [children] of the single section of the document handed to
    [Packer.toBlob]. *)
Definition generateDOCX (cvData : CVData) : list Paragraph :=
  (* Header *)
  match header cvData with
  | Some h =>
      [ mkParagraph None [mkRun (name h) true (Some 32%Z) false] (Some CENTER) None 200;
        mkParagraph None [mkRun (contact h) false (Some 22%Z) false] (Some CENTER) None 400 ]
  | None => []
  end
  (* Professional Summary *)
  ++ match summary cvData with
     | Some s =>
         if Js.truthy_string s
         then [ section_heading "PROFESSIONAL SUMMARY";
                plain [mkRun s false (Some 22%Z) false] 400 ]
         else []
     | None => []
     end
  (* Skills *)
  ++ (if non_empty (skills cvData)
      then [ section_heading "KEY SKILLS";
             plain [mkRun (Js.join (" " ++ Js.bullet ++ " ") (items (skills cvData)))
                          false (Some 22%Z) false] 400 ]
      else [])
  (* Experience *)
  ++ (if non_empty (experience cvData)
      then section_heading "PROFESSIONAL EXPERIENCE"
           :: flat_map docxExperience (items (experience cvData))
      else [])
  (* Education *)
  ++ (if non_empty (education cvData)
      then section_heading "EDUCATION"
           :: flat_map docxEducation (items (education cvData))
      else []).

(** A heading of the PDF: a line drawn in the 14 point bold face that
    [generatePDF] keeps for section titles. *)
Definition pdf_heading (t : string) (op : TextOp) : bool :=
  (String.eqb (op_text op) t && Qeq_bool (op_size op) 14 && op_bold op)%bool.

(** No line drawn so far is a heading [t]. *)
Definition no_heading (t : string) (s : St) : Prop :=
  existsb (pdf_heading t) (ops (doc s)) = false.

(** A heading of the DOCX: a [HEADING_1] paragraph with that text. *)
Definition docx_heading (t : string) (p : Paragraph) : bool :=
  match heading p with
  | Some HEADING_1 => existsb (fun r => String.eqb (run_text r) t) (children p)
  | None => false
  end.

End FileGenerator.

(* ------------------------------------------------------------------ *)
(** ** supabase/functions/optimize-cv/index.ts *)

Module OptimizeCv.

(** *** The fence pattern

    [/```(?:json)?\s*([\s\S]*?)\s*```/], as the backtracking matcher runs it:
    every piece takes the rest of the input and a continuation for what
    follows it in the pattern, tries its preferred alternative first and falls
    back to the next one when the continuation fails. *)

Definition fence : string := "```".

(** A literal of the pattern. *)
Definition lit : string -> string -> option string := Js.lit.

Definition orelse {R} (a b : option R) : option R :=
  match a with Some r => Some r | None => b end.

(** [(?:p)?]: with [p] first, then without. *)
Definition optional {R} (p s : string) (k : string -> option R) : option R :=
  match lit p s with
  | Some s' => orelse (k s') (k s)
  | None => k s
  end.

(** [\s*], greedy: one more white space character first, then none. *)
Fixpoint spaces {R} (s : string) (k : string -> option R) : option R :=
  match s with
  | String a s1 =>
      if Js.space1 a then orelse (spaces s1 k) (k s) else
      match s1 with
      | String b s2 =>
          if Js.space2 a b then orelse (spaces s2 k) (k s) else
          match s2 with
          | String c s3 =>
              if Js.space3 a b c then orelse (spaces s3 k) (k s) else k s
          | EmptyString => k s
          end
      | EmptyString => k s
      end
  | EmptyString => k s
  end.

(** [([\s\S]*?)], lazy: stop here first, then take one more character.
    [taken] is what the group has captured so far. *)
Fixpoint lazy_any {R} (s taken : string) (k : string -> string -> option R)
  : option R :=
  match k taken s with
  | Some r => Some r
  | None =>
      match s with
      | String c s' => lazy_any s' (taken ++ String c "") k
      | EmptyString => None
      end
  end.

(** The pattern anchored at the start of [s]; the result is group 1. *)
Definition match_here (s : string) : option string :=
  match lit fence s with
  | Some s1 =>
      optional "json" s1 (fun s2 =>
      spaces s2 (fun s3 =>
      lazy_any s3 "" (fun group s4 =>
      spaces s4 (fun s5 =>
      match lit fence s5 with
      | Some _ => Some group
      | None => None
      end))))
  | None => None
  end.

(** [content.match(/.../)]: the leftmost position where the pattern matches;
    [jsonMatch[1]] of it. *)
Fixpoint fence_match (content : string) : option string :=
  match match_here content with
  | Some group => Some group
  | None =>
      match content with
      | String _ rest => fence_match rest
      | EmptyString => None
      end
  end.

(** Whether [s] is white space followed by a fence: what the pattern asks of
    the input behind group 1. *)
Definition closes (s : string) : bool := Js.startsWith (Js.trimStart s) fence.

(** Where the first fence of [s] starts. *)
Fixpoint find_fence (s : string) : option nat :=
  if Js.startsWith s fence then Some O
  else match s with
       | String _ s' => option_map S (find_fence s')
       | EmptyString => None
       end.

(** [jsonMatch ? jsonMatch[1] : optimizedContent] *)
Definition jsonString (optimizedContent : string) : string :=
  match fence_match optimizedContent with
  | Some group => group
  | None => optimizedContent
  end.

(** *** Parsed JSON *)

#[warnings="-register-all"]
Inductive Json : Type :=
| JNull
| JBool (b : bool)
| JNumber (q : Q)
| JString (s : string)
| JArray (elements : list Json)
| JObject (members : list (string * Json)).

(** Truthiness. *)
Definition truthy (v : Json) : bool :=
  match v with
  | JNull => false
  | JBool b => b
  | JNumber q => negb (Qeq_bool q 0)
  | JString s => Js.truthy_string s
  | JArray _ | JObject _ => true
  end.

Fixpoint lookup (key : string) (members : list (string * Json)) : option Json :=
  match members with
  | [] => None
  | (k, v) :: rest => if String.eqb k key then Some v else lookup key rest
  end.

(** [v.key] for a key that no array, string, number or boolean has of its
    own: [undefined] ([None]) unless [v] is an object with that member;
    a [TypeError] on [null]. *)
Definition get (v : Json) (key : string) : Outcome (option Json) :=
  match v with
  | JNull =>
      Rejected (ThrownObject
        (mkErr true (Some "TypeError")
               (Some ("Cannot read properties of null (reading '" ++ key ++ "')"))
               None None))
  | JObject members => Resolved (lookup key members)
  | _ => Resolved None
  end.

(** [v || null] *)
Definition or_null (v : option Json) : Json :=
  match v with
  | Some x => if truthy x then x else JNull
  | None => JNull
  end.

Definition parse_failure : JsThrown :=
  ThrownObject (new_Error "Failed to parse AI response").

Section Handler.

(** [JSON.parse]: the value, or [None] where it throws a [SyntaxError]. *)
Variable JSON_parse : string -> option Json.

(** Parse the JSON response from AI. *)
Definition parseCV (optimizedContent : string) : Outcome Json :=
  match JSON_parse (jsonString optimizedContent) with
  | Some parsedCV => Resolved parsedCV
  | None => Rejected parse_failure
  end.

End Handler.

(** *** The [cv_optimizations] row *)

Record Row : Type := mkRow {
  user_id           : string;
  job_description   : Json;
  job_role          : option Json;
  optimized_content : Json;
  match_score       : Json;
  template_name     : string
}.

(** The object literal passed to [insert]; evaluating it reads
    [parsedCV.matchScore]. *)
Definition row_of (userId : string) (jobDescription : Json)
           (jobRole : option Json) (parsedCV : Json) : Outcome Row :=
  match get parsedCV "matchScore" with
  | Resolved matchScore =>
      Resolved (mkRow userId jobDescription jobRole parsedCV
                      (or_null matchScore) "modern")
  | Rejected x => Rejected x
  end.

(** Save to database if user is authenticated and we have the required keys:
    the row [insert] is called with, if it is called. *)
Definition inserted (userId : option string) (supabaseUrl supabaseKey : string)
           (jobDescription : Json) (jobRole : option Json) (parsedCV : Json)
  : option Row :=
  match userId with
  | Some uid =>
      if (Js.truthy_string uid && Js.truthy_string supabaseUrl
          && Js.truthy_string supabaseKey)%bool
      then match row_of uid jobDescription jobRole parsedCV with
           | Resolved row => Some row
           | Rejected _ => None     (* caught and logged *)
           end
      else None
  | None => None
  end.

End OptimizeCv.

(* ------------------------------------------------------------------ *)
(** ** The retryability rule, in words *)

Module Rule.

(** What the rule reads of an error: its name, its message, and "a non-zero
    status (or, failing that, a non-zero statusCode)". *)
Definition name_of (error : JsThrown) : option string :=
  match error with
  | ThrownObject o => err_name o
  | _ => None
  end.

Definition message_of (error : JsThrown) : option string :=
  match error with
  | ThrownObject o => err_message o
  | _ => None
  end.

Definition nonzero (code : option Z) : option Z :=
  match code with
  | Some c => if c =? 0 then None else Some c
  | None => None
  end.

Definition code_of (error : JsThrown) : option Z :=
  match error with
  | ThrownObject o =>
      match nonzero (err_status o) with
      | Some c => Some c
      | None => nonzero (err_statusCode o)
      end
  | _ => None
  end.

Definition vocabulary : list string :=
  [ "timeout"; "network"; "connection"; "rate limit"; "server error";
    "service unavailable"; "temporarily unavailable" ].

(** "its kind indicates a network-level failure" *)
Definition network_kind (error : JsThrown) : Prop :=
  name_of error = Some "NetworkError" \/ name_of error = Some "TypeError".

(** "its lowercased message contains one of a fixed vocabulary" *)
Definition message_matches (error : JsThrown) : Prop :=
  exists message word,
    message_of error = Some message
    /\ In word vocabulary
    /\ Js.includes (Js.toLowerCase message) word = true.

(** The rule as the design document words it: any of the three, the status
    range being [[500,599)]. *)
Definition retryable_as_specified (error : JsThrown) : Prop :=
  network_kind error
  \/ (exists status, code_of error = Some status
                     /\ (status = 429 \/ status = 408 \/ 500 <= status < 599))
  \/ message_matches error.

(** "the text String(error.message || error): the error's message when it has
    a non-empty one, otherwise the string form of the error itself" *)
Definition searched_text (error : JsThrown) : string :=
  match message_of error with
  | Some message =>
      match message with
      | EmptyString => String_of error
      | String _ _ => message
      end
  | None => String_of error
  end.

(** "that text, lowercased, contains one of the seven substrings" *)
Definition text_matches (error : JsThrown) : Prop :=
  exists word,
    In word vocabulary
    /\ Js.includes (Js.toLowerCase (searched_text error)) word = true.

(** The rule as [isRetryableError] applies it: the name first; then the
    status code alone, whenever there is one, over the range [[500,600)];
    the text only when there is no status code. *)
Definition retryable_as_amended (error : JsThrown) : Prop :=
  network_kind error
  \/ (exists status, code_of error = Some status
                     /\ (status = 429 \/ status = 408 \/ 500 <= status < 600))
  \/ (code_of error = None /\ text_matches error).

End Rule.

(* ------------------------------------------------------------------ *)
(** ** Sample inputs *)

Module Sample.

(** What [supabase.functions.invoke] reports for a non-2xx answer. *)
Definition http_error : ErrObj :=
  mkErr true (Some "FunctionsHttpError")
        (Some "Edge Function returned a non-2xx status code") None None.

Definition always_http_error (i : Z) : Index.InvokeResult unit :=
  Index.mkInvokeResult None (Some http_error).

Definition server_error : ErrObj :=
  mkErr true (Some "Error") (Some "Gemini API error: 500") (Some 500) None.

(** A 404 whose message speaks of a connection timeout. *)
Definition not_found_timeout : JsThrown :=
  ThrownObject (mkErr true (Some "Error") (Some "Connection timeout") (Some 404) None).

(** A 599 whose message has none of the vocabulary. *)
Definition status_599 : JsThrown :=
  ThrownObject (mkErr true (Some "Error") (Some "Upstream failure") (Some 599) None).

(** A 404 whose message has none of the vocabulary. *)
Definition not_found : JsThrown :=
  ThrownObject (mkErr true (Some "Error") (Some "Resource missing") (Some 404) None).

(** A stand-in for [JSON.parse] that takes any text in braces for an empty
    object and throws on everything else. *)
Definition parse_braces (s : string) : option OptimizeCv.Json :=
  if (Js.startsWith s "{" && Js.endsWith s "}")%bool
  then Some (OptimizeCv.JObject []) else None.

Definition bare_json : string := "{}".

(** A line breaker for blocks that fit the width: one line each. *)
Definition one_line (block : string) (width : Q) : list string := [block].

(** A resume without skills. *)
Definition cv_no_skills : FileGenerator.CVData :=
  FileGenerator.mkCV
    (Some (FileGenerator.mkHeader "Ada Lovelace" "ada@example.org"))
    (Some "Engineer.")
    (Some [])
    (Some [FileGenerator.mkExperience "Engineer" "Acme" "2020 - 2024" ["Shipped."]])
    (Some [FileGenerator.mkEducation "BSc" "MIT" "2019"])
    None.

(** A resume with one position of sixty highlights. *)
Definition cv_long : FileGenerator.CVData :=
  FileGenerator.mkCV
    (Some (FileGenerator.mkHeader "Ada Lovelace" "ada@example.org"))
    (Some "Engineer.")
    (Some ["Go"])
    (Some [FileGenerator.mkExperience "Engineer" "Acme" "2020 - 2024"
             (repeat "Shipped a feature." 60)])
    (Some [FileGenerator.mkEducation "BSc" "MIT" "2019"])
    None.

(** A text file that cannot be read: [file.text()] rejects with an [Error]
    that carries no message. *)
Definition unreadable : FileParser.File :=
  FileParser.mkFile "text/plain" "cv.txt"
    (Rejected (ThrownObject (new_Error "")))
    (Rejected (ThrownObject (new_Error ""))).

(** A text file that reads fine, and decoders that are never reached. *)
Definition readable : FileParser.File :=
  FileParser.mkFile "text/plain" "cv.txt" (Resolved "") (Resolved "  Ada Lovelace ").

Definition no_pdf (buf : FileParser.ArrayBuffer) : Outcome FileParser.PDFDocumentProxy :=
  Rejected (ThrownString "Invalid PDF structure.").

Definition no_docx (buf : FileParser.ArrayBuffer) : Outcome string :=
  Rejected (ThrownString "Not a zip file.").

(** A parsed resume that the model scored zero. *)
Definition scored_zero : OptimizeCv.Json :=
  OptimizeCv.JObject [("summary", OptimizeCv.JString "Engineer.");
                      ("matchScore", OptimizeCv.JNumber 0)].

(** The row that goes to [insert] for it. *)
Definition row_zero : OptimizeCv.Row :=
  OptimizeCv.mkRow "user-1" (OptimizeCv.JString "Backend engineer") None
                   scored_zero OptimizeCv.JNull "modern".

Definition scored_85 : OptimizeCv.Json :=
  OptimizeCv.JObject [("matchScore", OptimizeCv.JNumber 85)].

Definition row_85 : OptimizeCv.Row :=
  OptimizeCv.mkRow "user-1" (OptimizeCv.JString "Backend engineer") None
                   scored_85 (OptimizeCv.JNumber 85) "modern".

(** An operation that always fails, and one that succeeds the third time. *)
Definition always_failing (i : Z) : Outcome string :=
  Rejected (ThrownObject server_error).

Definition third_time_lucky (i : Z) : Outcome string :=
  if i <? 3 then Rejected (ThrownObject server_error) else Resolved "ok".

End Sample.

(* ------------------------------------------------------------------ *)
(** ** supabase/functions/optimize-cv/index.ts: its own [retryRequest] *)

Module EdgeRetry.

Import ApiUtils.

Section RetryRequest.

Context {T : Type}.
Variable fn : Z -> Outcome T.
Variable maxRetries : Z.
Variable delay : Z.

(** The loop of the edge function's copy of [retryRequest]: no observer, the
    same timers.  (What goes to the console is left out, as everywhere.) *)
Fixpoint attempts (fuel : nat) (attempt : Z) (lastError : option ErrObj)
  : Async (option (Outcome T)) :=
  match fuel with
  | O => ret None
  | S fuel' =>
      if attempt <=? maxRetries then
        r <- await_fn fn ;;
        match r with
        | Resolved v => ret (Some (Resolved v))
        | Rejected error =>
            let lastError := toError error in
            when (attempt <? maxRetries)
                 (emit (EvSleep (delay * 2 ^ (attempt - 1)))) ;;;
            attempts fuel' (attempt + 1) (Some lastError)
        end
      else
        ret (Some (Rejected (ThrownObject
               match lastError with
               | Some e => e
               | None => new_Error "Request failed after retries"
               end)))
  end.

Definition retryRequest : Async (option (Outcome T)) :=
  attempts (S (Z.to_nat maxRetries)) 1 None.

End RetryRequest.

End EdgeRetry.

(** More readings of a trace. *)
Module Trace.

Import ApiUtils.

(** The attempts the observer was told about. *)
Fixpoint notified (tr : list Event) : list Z :=
  match tr with
  | [] => []
  | EvOnRetry a _ :: tr' => a :: notified tr'
  | _ :: tr' => notified tr'
  end.

(** What an event may be in a run of at most [n] attempts: an invocation
    numbered in [1 .. n], or a notification for an attempt that is not the
    last, or a timer. *)
Definition event_within (n : Z) (e : Event) : Prop :=
  match e with
  | EvInvoke i => 1 <= i <= n
  | EvOnRetry a _ => 1 <= a < n
  | EvSleep _ => True
  end.

End Trace.

(* ------------------------------------------------------------------ *)
(** ** src/lib/apiUtils.ts: [parseErrorMessage] *)

Module ApiMessages.

Import ApiUtils.

(** A number in a template literal, for the integers. *)
Definition decimal (n : Z) : string := NilZero.string_of_int (Z.to_int n).

Definition edge_not_accessible : string :=
  "Edge Function not accessible. The function may not be deployed or environment variables may be missing. Check the browser console and ensure the function is deployed.".

Definition edge_not_found : string :=
  "Edge Function 'optimize-cv' not found. Please deploy it using: supabase functions deploy optimize-cv".

(** The [switch] on the status code. *)
Definition status_message (status : Z) : string :=
  if status =? 400 then "Invalid request. Please check your inputs."
  else if status =? 401 then "Authentication failed. Please sign in again."
  else if status =? 403 then "Access denied. You don't have permission for this action."
  else if status =? 404 then "Resource not found."
  else if status =? 429 then "Too many requests. Please wait a moment and try again."
  else if status =? 500 then "Server error. Please try again later."
  else if status =? 503 then "Service temporarily unavailable. Please try again later."
  else "Error " ++ decimal status ++ ": Please try again.".

(** The branch for an error with a (truthy) [message]. *)
Definition message_text (message : string) : string :=
  let errorMsg := Js.toLowerCase message in
  (* Edge Function specific errors *)
  if (Js.includes errorMsg "failed to send a request"
      || Js.includes errorMsg "edge function")%bool
  then edge_not_accessible
  else if (Js.includes errorMsg "function not found" || Js.includes errorMsg "404")%bool
  then edge_not_found
  else if (Js.includes errorMsg "unauthorized" || Js.includes errorMsg "401")%bool
  then "Authentication error. Please check your Supabase credentials in .env file"
  (* Rate limit errors *)
  else if (Js.includes errorMsg "rate limit" || Js.includes errorMsg "429")%bool
  then "Rate limit exceeded. Please wait a moment and try again."
  (* Network errors *)
  else if (Js.includes errorMsg "network" || Js.includes errorMsg "fetch"
           || Js.includes errorMsg "failed to fetch")%bool
  then "Network error. Please check your connection and try again."
  (* Timeout errors *)
  else if Js.includes errorMsg "timeout"
  then "Request timed out. Please try again."
  (* Payment/credit errors *)
  else if (Js.includes errorMsg "payment" || Js.includes errorMsg "402"
           || Js.includes errorMsg "credit")%bool
  then "API credits required. Please configure your AI provider API key."
  (* Return the error message if it's user-friendly *)
  else message.

Definition parseErrorMessage (error : JsThrown) : string :=
  if negb (truthy error) then "An unknown error occurred"
  else
    let by_status :=
      match status_or_statusCode error with
      | Some status => status_message status
      | None => "An unexpected error occurred. Please try again."
      end in
    match prop_message error with
    | Some message =>
        if Js.truthy_string message then message_text message else by_status
    | None => by_status
    end.

End ApiMessages.

(* ------------------------------------------------------------------ *)
(** ** src/components/ResumeUpload.tsx: [handleFileUpload] *)

Module ResumeUpload.

Inductive ToastKind : Type := Error | Success | Warning.

(** What [handleFileUpload] does, in order. *)
Inductive Effect : Type :=
| Toast (kind : ToastKind) (message : string)  (* [toast.error], [.success], [.warning] *)
| SetIsProcessing (b : bool)
| OnResumeTextChange (text : string)
| ConsoleError (error : JsThrown)              (* [console.error] of the [catch] clause *)
| ResetInput.                                  (* [e.target.value = ""] *)

(** The chosen file: what the extractors read of it, and its [size]. *)
Record Upload : Type := mkUpload {
  file : FileParser.File;
  size : Z
}.

(** 10MB *)
Definition maxSize : Z := 10 * 1024 * 1024.

(** A string's [length] in a template literal. *)
Definition length_text (s : string) : string :=
  ApiMessages.decimal (Z.of_nat (Js.length s)).

Section HandleFileUpload.

Variable pdfjs_getDocument : FileParser.ArrayBuffer -> Outcome FileParser.PDFDocumentProxy.
Variable mammoth_extractRawText : FileParser.ArrayBuffer -> Outcome string.

(** The [try] block and its [catch]. *)
Definition process (f : FileParser.File) : list Effect :=
  match FileParser.extractTextFromFile pdfjs_getDocument mammoth_extractRawText f with
  | Resolved result =>
      if Js.truthy_string (Js.or_string (FileParser.error result) "")
      then [Toast Error (Js.or_string (FileParser.error result) "")]
      else if Js.truthy_string (FileParser.text result)
      then [ OnResumeTextChange (FileParser.text result);
             Toast Success ("Resume extracted successfully! Found "
                            ++ length_text (FileParser.text result)
                            ++ " characters.") ]
      else [Toast Warning "No text could be extracted from this file."]
  | Rejected error =>
      [ConsoleError error;
       Toast Error
         match error with
         | ThrownObject o =>
             if is_Error o
             then "Failed to process file: "
                  ++ match err_message o with Some m => m | None => "" end
             else "Failed to process file"
         | _ => "Failed to process file"
         end]
  end.

(** [files] is [e.target.files?.[0]]. *)
Definition handleFileUpload (files : option Upload) : list Effect :=
  match files with
  | None => []
  | Some u =>
      if size u >? maxSize
      then [Toast Error "File size must be less than 10MB"]
      else [SetIsProcessing true]
           ++ process (file u)
           ++ [SetIsProcessing false; ResetInput]     (* finally *)
  end.

End HandleFileUpload.

End ResumeUpload.

(* ------------------------------------------------------------------ *)
(** ** Reading the pages of a PDF *)

Module Pages.

(** What reading page [i] of [pdf] settles to: the [str] of its items. *)
Definition read_page (pdf : FileParser.PDFDocumentProxy) (i : Z)
  : Outcome (list string) :=
  match FileParser.getPage pdf i with
  | Resolved page => FileParser.getTextContent page
  | Rejected x => Rejected x
  end.

(** The text of pages [first], [first + 1], ..., [count] of them: each
    page's items joined by spaces and closed by a line feed. *)
Fixpoint text_of (items : Z -> list string) (first : Z) (count : nat) : string :=
  match count with
  | O => ""
  | S count' =>
      Js.join " " (items first) ++ FileParser.LF ++ text_of items (first + 1) count'
  end.

End Pages.

(* ------------------------------------------------------------------ *)
(** ** Reading the two exports *)

Module Layout.

Import FileGenerator.

(** The texts drawn into the PDF so far, in drawing order. *)
Definition pdf_texts (s : St) : list string := map op_text (ops (doc s)).


(** A step that draws the texts [l], and nothing else. *)
Definition draws (m : Gen unit) (l : list string) : Prop :=
  forall s, pdf_texts (snd (m s)) = (pdf_texts s ++ l)%list.



(** A line that [addText] drew: it starts at the left margin. *)
Definition at_margin (op : TextOp) : bool := Qeq_bool (op_x op) margin.

(** Page numbers that never go back. *)
Fixpoint nondecreasing (l : list nat) : bool :=
  match l with
  | [] => true
  | a :: rest =>
      match rest with
      | [] => true
      | b :: _ => (Nat.leb a b && nondecreasing rest)%bool
      end
  end.

(** A step that keeps a property of the state of [generatePDF]. *)
Definition keeps {A} (I : FileGenerator.St -> Prop) (m : FileGenerator.Gen A) : Prop :=
  forall s, I s -> I (snd (m s)).

(** Every line at the left margin lies at or above [limit]. *)
Definition margin_lines_within (limit : Q) (s : FileGenerator.St) : Prop :=
  Forall (fun op => at_margin op = true -> (FileGenerator.op_y op <= limit)%Q)
         (FileGenerator.ops (FileGenerator.doc s)).

(** Every line is on a page of the document, and the pages of the lines
    never go back. *)
Definition in_order (pages : nat) (ops : list FileGenerator.TextOp) : Prop :=
  (1 <= pages)%nat
  /\ Forall (fun op => (1 <= FileGenerator.op_page op <= pages)%nat) ops
  /\ nondecreasing (map FileGenerator.op_page ops) = true.

Definition pages_in_order (s : FileGenerator.St) : Prop :=
  in_order (FileGenerator.pages (FileGenerator.doc s))
           (FileGenerator.ops (FileGenerator.doc s)).

End Layout.

(* ------------------------------------------------------------------ *)
(** ** The download names of [Dashboard] and [CVPreview] *)

Module Download.

(** [s.replace(/\s+/g, '-')]: every maximal run of white space characters
    becomes one hyphen.  [in_run] tells that the character before was white
    space. *)
Fixpoint replace_runs (in_run : bool) (s : string) : string :=
  let hyphen := fun rest : string => if in_run then rest else String "-" rest in
  match s with
  | EmptyString => EmptyString
  | String a s1 =>
      if Js.space1 a then hyphen (replace_runs true s1) else
      match s1 with
      | String b s2 =>
          if Js.space2 a b then hyphen (replace_runs true s2) else
          match s2 with
          | String c s3 =>
              if Js.space3 a b c then hyphen (replace_runs true s3)
              else String a (replace_runs false s1)
          | EmptyString => String a (replace_runs false s1)
          end
      | EmptyString => String a (replace_runs false s1)
      end
  end.

Definition hyphenate (s : string) : string := replace_runs false s.

Inductive Format : Type := pdf | docx.

Definition extension (format : Format) : string :=
  match format with pdf => "pdf" | docx => "docx" end.

(** [`optimized-cv-${jobRole.replace(/\s+/g, '-')}-${timestamp}.${format}`] *)
Definition filename (jobRole timestamp : string) (format : Format) : string :=
  "optimized-cv-" ++ hyphenate jobRole ++ "-" ++ timestamp ++ "." ++ extension format.

(** [Dashboard]: the label is [optimization.job_role || "CV"]. *)
Definition dashboard_filename (job_role : option string) (timestamp : string)
           (format : Format) : string :=
  filename (Js.or_string job_role "CV") timestamp format.

(** [CVPreview]: the label is [optimizedCV.header?.name || "CV"]. *)
Definition preview_filename (optimizedCV : FileGenerator.CVData)
           (timestamp : string) (format : Format) : string :=
  filename (Js.or_string (option_map FileGenerator.name
                                     (FileGenerator.header optimizedCV)) "CV")
           timestamp format.

(** No white space character anywhere in [s]. *)
Fixpoint no_space (s : string) : bool :=
  match s with
  | EmptyString => true
  | String _ s' =>
      match Js.skip_space s with
      | Some _ => false
      | None => no_space s'
      end
  end.

End Download.

(* ------------------------------------------------------------------ *)
(** ** supabase/migrations: [usage_tracking] and [increment_usage];
       src/pages/Index.tsx: [checkUsageLimit] and the trial limit *)

Module Usage.

(** A row of [usage_tracking].  [None] is [NULL]; [id] and [session_id] are
    [NOT NULL]. *)
Record Row : Type := mkRow {
  id           : string;
  session_id   : string;
  user_id      : option string;
  usage_count  : option Z;
  last_used_at : option Z;
  created_at   : option Z
}.

(** The table, in the order in which a scan meets its rows. *)
Definition Table : Type := list Row.

(** SQL's [a = b]: true only when neither side is [NULL]. *)
Definition sql_eq (a b : option string) : bool :=
  match a, b with
  | Some x, Some y => String.eqb x y
  | _, _ => false
  end.

(** [WHERE (session_id = p_session_id OR user_id = p_user_id)] *)
Definition matches (p_session_id p_user_id : option string) (r : Row) : bool :=
  (sql_eq (Some (session_id r)) p_session_id || sql_eq (user_id r) p_user_id)%bool.

(** [SELECT id INTO v_record_id ... LIMIT 1]: the first row met. *)
Definition select_id (p_session_id p_user_id : option string) (t : Table)
  : option string :=
  option_map id (find (matches p_session_id p_user_id) t).

(** What makes the statement fail (the call then changes nothing). *)
Inductive Failure : Type :=
| IntegerOutOfRange         (* [usage_count + 1] beyond [INTEGER] *)
| NotNullViolation          (* [session_id] *)
| UniqueViolation           (* [id], the primary key *)
| ForeignKeyViolation.      (* [user_id] not in [auth.users] *)

Inductive Result : Type :=
| Done (t : Table)
| Raised (f : Failure).

Definition int_max : Z := 2147483647.

(** [COALESCE(user_id, p_user_id)] *)
Definition coalesce (a b : option string) : option string :=
  match a with Some _ => a | None => b end.

Section IncrementUsage.

(** [auth.users], the value of [NOW()] and of [gen_random_uuid()] in this
    call. *)
Variable auth_users : string -> bool.
Variable now : Z.
Variable new_id : string.

Definition references_user (u : option string) : bool :=
  match u with Some x => auth_users x | None => true end.

(** The [SET] clause on one row. *)
Definition updated (p_user_id : option string) (r : Row) : Row :=
  mkRow (id r) (session_id r)
        (coalesce (user_id r) p_user_id)
        (option_map (fun c => c + 1) (usage_count r))
        (Some now)
        (created_at r).

(** What a row needs for the [UPDATE] to go through: a count that can grow,
    and, where [user_id] changes from [NULL] to [p_user_id], a user to refer
    to. *)
Definition update_check (p_user_id : option string) (r : Row) : option Failure :=
  let count_fits :=
    match usage_count r with
    | Some c => negb (int_max <=? c)
    | None => true
    end in
  let user_known :=
    match user_id r with
    | Some _ => true
    | None => references_user p_user_id
    end in
  if negb count_fits then Some IntegerOutOfRange
  else if negb user_known then Some ForeignKeyViolation
  else None.

(** [UPDATE ... WHERE id = v_record_id] *)
Fixpoint update_where (v_record_id : string) (p_user_id : option string) (t : Table)
  : Table + Failure :=
  match t with
  | [] => inl []
  | r :: rest =>
      if String.eqb (id r) v_record_id then
        match update_check p_user_id r with
        | Some f => inr f
        | None =>
            match update_where v_record_id p_user_id rest with
            | inl rest' => inl (updated p_user_id r :: rest')
            | inr f => inr f
            end
        end
      else
        match update_where v_record_id p_user_id rest with
        | inl rest' => inl (r :: rest')
        | inr f => inr f
        end
  end.

(** [INSERT INTO usage_tracking (session_id, user_id, usage_count,
    last_used_at) VALUES (p_session_id, p_user_id, 1, NOW())] *)
Definition insert (p_session_id p_user_id : option string) (t : Table) : Result :=
  match p_session_id with
  | None => Raised NotNullViolation
  | Some s =>
      if existsb (fun r => String.eqb (id r) new_id) t then Raised UniqueViolation
      else if existsb (fun r => String.eqb (session_id r) s) t then Raised UniqueViolation
      else if references_user p_user_id
      then Done (t ++ [mkRow new_id s p_user_id (Some 1) (Some now) (Some now)])%list
      else Raised ForeignKeyViolation
  end.

Definition increment_usage (p_session_id p_user_id : option string) (t : Table)
  : Result :=
  match select_id p_session_id p_user_id t with
  | Some v_record_id =>
      match update_where v_record_id p_user_id t with
      | inl t' => Done t'
      | inr f => Raised f
      end
  | None => insert p_session_id p_user_id t
  end.

End IncrementUsage.

(** *** [checkUsageLimit] *)

(** [.maybeSingle()]: the row when exactly one row matches, [null] when none
    does or several do. *)
Definition maybeSingle (rows : list Row) : option Row :=
  match rows with
  | [r] => Some r
  | _ => None
  end.

(** [data.usage_count || 0] *)
Definition count_or_zero (r : Row) : Z :=
  match usage_count r with
  | Some c => c
  | None => 0
  end.

(** What [checkUsageLimit] hands to [setUsageCount], the queries being
    answered from [t]: the count of the user's row if the visitor is signed
    in and has exactly one, else the count of the session's row, else 0. *)
Definition checkUsageLimit (sessionId : string) (user : option string) (t : Table) : Z :=
  let by_session :=
    match maybeSingle (filter (fun r => String.eqb (session_id r) sessionId) t) with
    | Some data => count_or_zero data
    | None => 0
    end in
  match user with
  | Some uid =>
      if Js.truthy_string uid then
        match maybeSingle (filter (fun r => sql_eq (user_id r) (Some uid)) t) with
        | Some userData => count_or_zero userData
        | None => by_session
        end
      else by_session
  | None => by_session
  end.

(** The trial limit of [handleOptimize]: [!user && usageCount >= 3]. *)
Definition trial_limit_reached (user : option string) (usageCount : Z) : bool :=
  match user with
  | Some _ => false
  | None => 3 <=? usageCount
  end.

(** Successive calls of [increment_usage] for an anonymous session, each
    with its own [NOW()] and [gen_random_uuid()]; a call that fails changes
    nothing. *)
Fixpoint increments (auth_users : string -> bool) (calls : list (Z * string))
         (sessionId : string) (t : Table) : Table :=
  match calls with
  | [] => t
  | (now, new_id) :: rest =>
      match increment_usage auth_users now new_id (Some sessionId) None t with
      | Done t' => increments auth_users rest sessionId t'
      | Raised _ => increments auth_users rest sessionId t
      end
  end.

(** The row of a session, if it has one. *)
Definition session_row (sessionId : string) (t : Table) : option Row :=
  find (fun r => String.eqb (session_id r) sessionId) t.

(** The keys of the table are what its constraints say: no two rows share an
    [id], none share a [session_id]. *)
Definition keys_unique (t : Table) : Prop :=
  NoDup (map id t) /\ NoDup (map session_id t).

(** Where a run of visits has brought a session: no row and nothing
    counted, or a row that holds the count. *)
Definition counted (sessionId : string) (t : Table) (c : Z) : Prop :=
  match session_row sessionId t with
  | Some r => usage_count r = Some c
  | None => c = 0
  end.

End Usage.

(* ------------------------------------------------------------------ *)
(** ** supabase/functions/optimize-cv/index.ts: the model call and the
       request handler *)

Module Edge.

Import OptimizeCv.

(** *** [optimizeCVWithAI]: the primary model, then the fallback *)

(** [error instanceof Error && error.message.includes("not found")] *)
Definition model_not_found (error : JsThrown) : bool :=
  match error with
  | ThrownObject o =>
      (is_Error o
       && Js.includes (match err_message o with Some m => m | None => "" end)
                      "not found")%bool
  | _ => false
  end.

(** The operation handed to [retryRequest]: [primary] is what the call with
    gemini-2.0-flash-exp settles to, [fallback] what the call with
    gemini-1.5-flash settles to if it is made. *)
Definition withFallback {A} (primary fallback : Outcome A) : Outcome A :=
  match primary with
  | Resolved v => Resolved v
  | Rejected error => if model_not_found error then fallback else Rejected error
  end.

(** How many calls of [callGemini] that operation makes. *)
Definition calls_made {A} (primary : Outcome A) : Z :=
  match primary with
  | Resolved _ => 1
  | Rejected error => if model_not_found error then 2 else 1
  end.

(** [optimizeCVWithAI], from the key check on; [primary i] and [fallback i]
    are the calls of the [i]-th attempt. *)
Definition optimizeCVWithAI {A} (geminiKey : option string)
           (primary fallback : Z -> Outcome A)
  : ApiUtils.Async (option (Outcome A)) :=
  if Js.truthy_string (Js.or_string geminiKey "")
  then EdgeRetry.retryRequest (fun i => withFallback (primary i) (fallback i)) 3 1000
  else ApiUtils.ret
         (Some (Rejected (ThrownObject (new_Error "Gemini API key not configured")))).

(** The calls of [callGemini] over a run. *)
Definition outbound_calls {A} (primary : Z -> Outcome A) (tr : list ApiUtils.Event) : Z :=
  fold_right Z.add 0 (map (fun i => calls_made (primary i)) (ApiUtils.invoked tr)).

(** *** Reading the provider's answer *)

(** [undefined] is [None]. *)
Definition Value : Type := option Json.

Definition truthy_value (v : Value) : bool :=
  match v with Some x => truthy x | None => false end.

(** [x.key] on a value that is neither [null] nor [undefined], for a key
    that only an object can have. *)
Definition own (x : Json) (key : string) : Value :=
  match x with
  | JObject members => lookup key members
  | _ => None
  end.

(** [x[0]] on a value that is neither [null] nor [undefined]. *)
Definition first (x : Json) : Value :=
  match x with
  | JArray (e :: _) => Some e
  | JString (String c _) => Some (JString (String c ""))
  | JObject members => lookup "0" members
  | _ => None
  end.

(** [v?.key] and [v?.[0]] *)
Definition opt_own (v : Value) (key : string) : Value :=
  match v with
  | None | Some JNull => None
  | Some x => own x key
  end.

Definition opt_first (v : Value) : Value :=
  match v with
  | None | Some JNull => None
  | Some x => first x
  end.

(** [x.length === 0] for a truthy [x]. *)
Definition length_is_zero (x : Json) : bool :=
  match x with
  | JArray l => match l with [] => true | _ => false end
  | JObject members =>
      match lookup "length" members with
      | Some (JNumber q) => Qeq_bool q 0
      | _ => false
      end
  | _ => false
  end.

Definition thrown (message : string) : JsThrown := ThrownObject (new_Error message).

Section Handler.

Variable JSON_parse : string -> option Json.
Variable JSON_stringify : Json -> string.
(** What [JSON.parse] throws on a text it does not accept. *)
Variable JSON_parse_error : string -> JsThrown.

(** [aiData.candidates?.[0]?.content?.parts?.[0]?.text], for [aiData] that
    is not [null]. *)
Definition content_of (aiData : Json) : Value :=
  opt_own (opt_first (opt_own (opt_own (opt_first (own aiData "candidates"))
                                       "content") "parts")) "text".

(** From the extracted content to the parsed CV, or to what is thrown. *)
Definition from_content (aiData : Json) : Outcome Json :=
  let optimizedContent := content_of aiData in
  if negb (truthy_value optimizedContent) then
    (* Check if there's an error in the response *)
    if truthy_value (own aiData "error") then
      Rejected (thrown ("Gemini API error: "
                        ++ match own aiData "error" with
                           | Some e => JSON_stringify e
                           | None => ""
                           end))
    (* Check if candidates array exists but is empty *)
    else if (truthy_value (own aiData "candidates")
             && match own aiData "candidates" with
                | Some c => length_is_zero c
                | None => false
                end)%bool then
      Rejected (thrown
        "Gemini returned no candidates. Check API key and model availability.")
    (* Check if content is blocked *)
    else if match opt_own (opt_first (own aiData "candidates")) "finishReason" with
            | Some (JString reason) => String.eqb reason "SAFETY"
            | _ => false
            end then
      Rejected (thrown
        "Content was blocked by Gemini safety filters. Try with different input.")
    else
      Rejected (thrown ("No content returned from Gemini AI. Response structure: "
                        ++ JSON_stringify aiData))
  else
    match optimizedContent with
    | Some (JString text) => parseCV JSON_parse text
    | _ => Rejected parse_failure   (* no [match] method to call *)
    end.

(** From the provider's answer [aiData] to the parsed CV of the 200
    response, or to what is thrown. *)
Definition parsedCV_of (aiData : Json) : Outcome Json :=
  match aiData with
  | JNull =>
      Rejected (ThrownObject
        (mkErr true (Some "TypeError")
               (Some "Cannot read properties of null (reading 'candidates')")
               None None))
  | _ => from_content aiData
  end.

(** *** The checks on the request *)

Record Request : Type := mkRequest {
  method      : string;
  contentType : option string;    (* [req.headers.get("content-type")] *)
  body_text   : Outcome string    (* [await req.text()] *)
}.

(** What the response carries: nothing, or [{ error, details }]. *)
Inductive Payload : Type :=
| NoBody
| ErrorBody (error : string) (details : option string).

Record Response : Type := mkResponse {
  status  : Z;
  payload : Payload
}.

(** Where the checks leave the handler. *)
Inductive Checked : Type :=
| Respond (r : Response)
| Throw (x : JsThrown)        (* on to the outer [catch] *)
| Proceed (resumeText jobDescription : Json) (jobRole : Value).

Definition invalid_json : string :=
  "Invalid JSON in request body. Please ensure the body contains valid JSON with resumeText and jobDescription fields.".

(** [parseError instanceof Error ? parseError.message : String(parseError)] *)
Definition details_of (parseError : JsThrown) : string :=
  match parseError with
  | ThrownObject o =>
      if is_Error o then match err_message o with Some m => m | None => "" end
      else String_of parseError
  | _ => String_of parseError
  end.

Definition check_fields (geminiKey : option string) (body : Json) : Checked :=
  match body with
  | JNull =>
      Throw (ThrownObject
        (mkErr true (Some "TypeError")
               (Some "Cannot destructure property 'resumeText' of 'body' as it is null.")
               None None))
  | _ =>
      let resumeText := own body "resumeText" in
      let jobDescription := own body "jobDescription" in
      let jobRole := own body "jobRole" in
      match resumeText, jobDescription with
      | Some rt, Some jd =>
          if (truthy rt && truthy jd)%bool then
            if Js.truthy_string (Js.or_string geminiKey "")
            then Proceed rt jd jobRole
            else Respond (mkResponse 500
                   (ErrorBody "Gemini API key not configured. Please set GEMINI_API_KEY as a secret in Supabase" None))
          else Respond (mkResponse 400
                 (ErrorBody "Resume text and job description are required" None))
      | _, _ => Respond (mkResponse 400
                  (ErrorBody "Resume text and job description are required" None))
      end
  end.

Definition check_request (geminiKey : option string) (req : Request) : Checked :=
  if String.eqb (method req) "OPTIONS" then Respond (mkResponse 200 NoBody)
  else
    match contentType req with
    | Some ct =>
        if (Js.truthy_string ct && Js.includes ct "application/json")%bool then
          match body_text req with
          | Resolved text =>
              if (negb (Js.truthy_string text)
                  || Nat.eqb (String.length (Js.trim text)) 0)%bool
              then Respond (mkResponse 400
                     (ErrorBody "Request body is empty. Please provide resumeText and jobDescription." None))
              else match JSON_parse text with
                   | Some body => check_fields geminiKey body
                   | None =>
                       Respond (mkResponse 400
                         (ErrorBody invalid_json
                                    (Some (details_of (JSON_parse_error text)))))
                   end
          | Rejected parseError =>
              Respond (mkResponse 400
                (ErrorBody invalid_json (Some (details_of parseError))))
          end
        else Respond (mkResponse 400
               (ErrorBody "Content-Type must be application/json" None))
    | None => Respond (mkResponse 400
                (ErrorBody "Content-Type must be application/json" None))
    end.

End Handler.

End Edge.

(* ------------------------------------------------------------------ *)
(** ** Contents with fences *)

Module Fences.

Import OptimizeCv.

(** Two fences in [content], one behind the other. *)
Definition two_fences (content : string) : Prop :=
  exists a b c, content = a ++ fence ++ b ++ fence ++ c.

(** [content] reads: a fence, [json] or nothing, white space, [group], white
    space, a fence, with anything before and behind. *)
Definition fenced (content group : string) : Prop :=
  exists before tag ws1 ws2 behind,
    content = before ++ fence ++ tag ++ ws1 ++ group ++ ws2 ++ fence ++ behind
    /\ (tag = "" \/ tag = "json")
    /\ Js.all_space ws1 = true
    /\ Js.all_space ws2 = true.

End Fences.

(** More sample inputs. *)
Module Cases.

(** An operation that fails until its fourth invocation. *)
Definition fourth_time_lucky (i : Z) : Outcome string :=
  if i <? 4 then Rejected (ThrownObject Sample.server_error) else Resolved "done".

(** A retryable failure without a message, as the edge function client
    reports a 503. *)
Definition unavailable : ErrObj :=
  mkErr true (Some "FunctionsHttpError") None (Some 503) None.

Definition timed_out : ErrObj :=
  mkErr true (Some "Error") (Some "Upstream TIMEOUT after 30s") None None.

(** An edge function call that succeeds. *)
Definition invoke_ok (i : Z) : Index.InvokeResult string :=
  Index.mkInvokeResult (Some "optimized") None.

(** A text file of 2 MB, and the same file at 11 MB. *)
Definition small_upload : ResumeUpload.Upload :=
  ResumeUpload.mkUpload Sample.readable (2 * 1024 * 1024).

Definition big_upload : ResumeUpload.Upload :=
  ResumeUpload.mkUpload Sample.readable (11 * 1024 * 1024).

(** A loaded PDF of two pages, and one whose second page cannot be read. *)
Definition two_pages : FileParser.PDFDocumentProxy :=
  FileParser.mkPdf 2 (fun i =>
    if i =? 1 then Resolved (FileParser.mkPage (Resolved ["Ada"; "Lovelace"]))
    else Resolved (FileParser.mkPage (Resolved ["Engineer"]))).

Definition broken_second_page : FileParser.PDFDocumentProxy :=
  FileParser.mkPdf 3 (fun i =>
    if i =? 2 then Rejected (ThrownObject (new_Error "Invalid page request"))
    else Resolved (FileParser.mkPage (Resolved ["Ada"]))).

Definition pdf_file : FileParser.File :=
  FileParser.mkFile "application/pdf" "cv.pdf" (Resolved "%PDF-1.7")
                    (Resolved "%PDF-1.7").

(** Three visits of one anonymous session, and the table they start from. *)
Definition other_session : Usage.Row :=
  Usage.mkRow "id-0" "session_other" (Some "user-7") (Some 5) (Some 100) (Some 90).

Definition visits : list (Z * string) :=
  [(200, "id-1"); (210, "id-2"); (220, "id-3")].


(** The primary model out of quota on every call; a fallback that would
    answer. *)
Definition quota_exceeded : Z -> Outcome OptimizeCv.Json :=
  fun _ => Rejected (ThrownObject (new_Error
    "Gemini API quota exceeded. Please check your Google Cloud billing and quota limits. For more information: https://ai.google.dev/pricing")).

Definition fallback_answers : Z -> Outcome OptimizeCv.Json :=
  fun _ => Resolved (OptimizeCv.JObject []).


(** A reply with prose around the fenced JSON. *)
Definition fenced_reply : string :=
  "Here is the CV: ```json  { }  ``` as requested".


(** U+00A0, the no-break space, and U+2028, the line separator. *)
Definition nbsp : string :=
  String (ascii_of_nat 194) (String (ascii_of_nat 160) "").

Definition line_separator : string :=
  String (ascii_of_nat 226) (String (ascii_of_nat 128) (String (ascii_of_nat 168) "")).


(** U+212A, the Kelvin sign, and U+1F600, a character of two UTF-16 code
    units. *)
Definition kelvin_sign : string :=
  String (ascii_of_nat 226) (String (ascii_of_nat 132) (String (ascii_of_nat 170) "")).

Definition emoji : string :=
  String (ascii_of_nat 240) (String (ascii_of_nat 159)
    (String (ascii_of_nat 152) (String (ascii_of_nat 128) ""))).

(** A text file of one accented word between no-break spaces. *)
Definition accented_upload : ResumeUpload.Upload :=
  ResumeUpload.mkUpload
    (FileParser.mkFile "text/plain" "cv.txt" (Resolved "")
       (Resolved (nbsp ++ "r" ++ String (ascii_of_nat 195) (String (ascii_of_nat 169) "")
                  ++ "sum" ++ String (ascii_of_nat 195) (String (ascii_of_nat 169) "")
                  ++ " " ++ emoji ++ line_separator)))
    64.

(** An [Error] with a telling name and no message. *)
Definition timeout_named : ErrObj :=
  mkErr true (Some "TimeoutError") (Some "") None None.




Definition third_time_lucky_strings (i : Z) : Outcome string :=
  if i <? 3 then Rejected (ThrownString "boom") else Resolved "ok".


(** A JSON object with a triple backtick inside a string value, a reply that
    wraps it in a fence, and the object cut at the inner backticks. *)
Definition quote : string := String (ascii_of_nat 34) "".

Definition json_with_fence : string :=
  "{" ++ quote ++ "summary" ++ quote ++ ": " ++ quote
  ++ "Use ``` for code" ++ quote ++ "}".

Definition reply_with_inner_fence : string :=
  "Here you go: ```json " ++ json_with_fence ++ " ``` Done.".

Definition json_cut_short : string :=
  "{" ++ quote ++ "summary" ++ quote ++ ": " ++ quote ++ "Use".


(** A file of a kind the dispatcher does not know. *)
Definition spreadsheet : FileParser.File :=
  FileParser.mkFile "text/csv" "cv.csv" (Resolved "a,b") (Resolved "a,b").

(** A [JSON.parse] that reads the text null only, and a request with that
    body. *)
Definition parse_null (text : string) : option OptimizeCv.Json :=
  if String.eqb text "null" then Some OptimizeCv.JNull else None.

Definition no_parse_error (text : string) : JsThrown :=
  ThrownObject (mkErr true (Some "SyntaxError")
                  (Some "Unexpected token") None None).

Definition null_request : Edge.Request :=
  Edge.mkRequest "POST" (Some "application/json; charset=utf-8") (Resolved "null").

End Cases.

(* ================================================================== *)
(** * Properties *)

(* ------------------------------------------------------------------ *)
(** ** White space *)

Section WhiteSpace.

Lemma append_nil_r (s : string) : s ++ "" = s.
Proof. induction s; cbn; congruence. Qed.

Lemma append_assoc (s t u : string) : s ++ (t ++ u) = (s ++ t) ++ u.
Proof. induction s; cbn; congruence. Qed.

Lemma length_append (s t : string) :
  String.length (s ++ t) = (String.length s + String.length t)%nat.
Proof. induction s; cbn; congruence. Qed.

(** The recursive functions on white space, one character at a time. *)
Lemma trimStart_eq s :
  Js.trimStart s = match Js.skip_space s with
                   | Some s' => Js.trimStart s'
                   | None => s
                   end.
Proof.
  destruct s as [|a [|b [|c s]]]; cbn [Js.skip_space]; try reflexivity.
  - cbn [Js.trimStart]. now destruct (Js.space1 a).
  - change (Js.trimStart (String a (String b "")))
      with (if Js.space1 a then Js.trimStart (String b "")
            else if Js.space2 a b then Js.trimStart "" else String a (String b "")).
    destruct (Js.space1 a); [reflexivity|]. now destruct (Js.space2 a b).
  - change (Js.trimStart (String a (String b (String c s))))
      with (if Js.space1 a then Js.trimStart (String b (String c s))
            else if Js.space2 a b then Js.trimStart (String c s)
            else if Js.space3 a b c then Js.trimStart s
            else String a (String b (String c s))).
    destruct (Js.space1 a); [reflexivity|].
    destruct (Js.space2 a b); [reflexivity|]. now destruct (Js.space3 a b c).
Qed.

Lemma all_space_eq s :
  Js.all_space s = match s with
                   | EmptyString => true
                   | String _ _ =>
                       match Js.skip_space s with
                       | Some s' => Js.all_space s'
                       | None => false
                       end
                   end.
Proof.
  destruct s as [|a [|b [|c s]]]; cbn [Js.skip_space]; try reflexivity.
  - cbn [Js.all_space]. now destruct (Js.space1 a).
  - change (Js.all_space (String a (String b "")))
      with (if Js.space1 a then Js.all_space (String b "")
            else if Js.space2 a b then Js.all_space "" else false).
    destruct (Js.space1 a); [reflexivity|]. now destruct (Js.space2 a b).
  - change (Js.all_space (String a (String b (String c s))))
      with (if Js.space1 a then Js.all_space (String b (String c s))
            else if Js.space2 a b then Js.all_space (String c s)
            else if Js.space3 a b c then Js.all_space s
            else false).
    destruct (Js.space1 a); [reflexivity|].
    destruct (Js.space2 a b); [reflexivity|]. now destruct (Js.space3 a b c).
Qed.

Lemma trimEnd_eq s :
  Js.trimEnd s = if Js.all_space s then ""
                 else match s with
                      | String c s' => String c (Js.trimEnd s')
                      | EmptyString => ""
                      end.
Proof. destruct s; reflexivity. Qed.

(** One white space character is one, two or three bytes. *)
Lemma skip_space_split s s' :
  Js.skip_space s = Some s' ->
  exists w, s = w ++ s' /\ Js.skip_space w = Some "" /\ w <> "".
Proof.
  destruct s as [|a [|b [|c s]]]; cbn [Js.skip_space]; try discriminate.
  - destruct (Js.space1 a) eqn:H1; [|discriminate]. intros E. injection E as <-.
    exists (String a ""). cbn. rewrite H1. repeat split. discriminate.
  - destruct (Js.space1 a) eqn:H1.
    + intros E. injection E as <-. exists (String a ""). cbn. rewrite H1.
      repeat split. discriminate.
    + destruct (Js.space2 a b) eqn:H2; [|discriminate]. intros E. injection E as <-.
      exists (String a (String b "")). cbn. rewrite H1, H2. repeat split. discriminate.
  - destruct (Js.space1 a) eqn:H1.
    + intros E. injection E as <-. exists (String a ""). cbn. rewrite H1.
      repeat split. discriminate.
    + destruct (Js.space2 a b) eqn:H2.
      * intros E. injection E as <-. exists (String a (String b "")). cbn.
        rewrite H1, H2. repeat split. discriminate.
      * destruct (Js.space3 a b c) eqn:H3; [|discriminate]. intros E. injection E as <-.
        exists (String a (String b (String c ""))). cbn. rewrite H1, H2, H3.
        repeat split. discriminate.
Qed.

Lemma skip_space_length s s' :
  Js.skip_space s = Some s' -> (String.length s' < String.length s)%nat.
Proof.
  intros H. apply skip_space_split in H as (w & -> & _ & Hw).
  rewrite length_append. destruct w; [contradiction|]. cbn. lia.
Qed.

(** What follows a white space character does not matter to it. *)
Lemma skip_space_app w w' s :
  Js.skip_space w = Some w' -> Js.skip_space (w ++ s) = Some (w' ++ s).
Proof.
  destruct w as [|a [|b [|c w]]]; cbn [Js.skip_space append]; try discriminate.
  - destruct (Js.space1 a); [|discriminate]. intros E. now injection E as <-.
  - destruct (Js.space1 a); [intros E; now injection E as <-|].
    destruct (Js.space2 a b); [|discriminate]. intros E. now injection E as <-.
  - destruct (Js.space1 a); [intros E; now injection E as <-|].
    destruct (Js.space2 a b); [intros E; now injection E as <-|].
    destruct (Js.space3 a b c); [|discriminate]. intros E. now injection E as <-.
Qed.

(** Induction over a text, its white space taken a character at a time. *)
Lemma space_ind (P : string -> Prop) :
  (forall s, Js.skip_space s = None -> P s) ->
  (forall s s', Js.skip_space s = Some s' -> P s' -> P s) ->
  forall s, P s.
Proof.
  intros Hnone Hsome s.
  remember (String.length s) as n eqn:Hn. revert s Hn.
  induction n as [n IH] using lt_wf_ind. intros s ->.
  destruct (Js.skip_space s) as [s'|] eqn:Hs; [|now apply Hnone].
  apply (Hsome s s' Hs). apply (IH (String.length s')); [|reflexivity].
  now apply skip_space_length.
Qed.

(** The first byte of a white space character is an ASCII white space or no
    ASCII byte at all; the bytes behind it are no ASCII bytes. *)
Lemma space2_bytes a b :
  Js.space2 a b = true ->
  (128 <= nat_of_ascii a)%nat /\ (128 <= nat_of_ascii b < 192)%nat.
Proof.
  unfold Js.space2. intros H. apply andb_prop in H as [Ha Hb].
  apply Nat.eqb_eq in Ha, Hb. lia.
Qed.

Lemma space3_bytes a b c :
  Js.space3 a b c = true ->
  (128 <= nat_of_ascii a)%nat /\ (128 <= nat_of_ascii b < 192)%nat
  /\ (128 <= nat_of_ascii c < 192)%nat.
Proof.
  unfold Js.space3. cbv zeta. intros H.
  repeat (apply orb_prop in H as [H|H]);
    repeat match goal with
           | H : (_ && _)%bool = true |- _ => apply andb_prop in H as [? ?]
           | H : (_ || _)%bool = true |- _ => apply orb_prop in H as [?|?]
           | H : Nat.eqb _ _ = true |- _ => apply Nat.eqb_eq in H
           | H : Nat.leb _ _ = true |- _ => apply Nat.leb_le in H
           end; lia.
Qed.

Lemma space1_ascii a : Js.space1 a = true -> (nat_of_ascii a <= 32)%nat.
Proof.
  unfold Js.space1. cbv zeta. intros H.
  apply orb_prop in H as [H|H].
  - apply andb_prop in H as [_ H]. apply Nat.leb_le in H. lia.
  - apply Nat.eqb_eq in H. lia.
Qed.

Lemma skip_space_first a s s' :
  Js.skip_space (String a s) = Some s' ->
  Js.space1 a = true \/ (128 <= nat_of_ascii a)%nat.
Proof.
  cbn [Js.skip_space]. destruct (Js.space1 a); [now left|]. right.
  destruct s as [|b [|c s]]; try discriminate.
  - destruct (Js.space2 a b) eqn:H2; [|discriminate]. now apply space2_bytes in H2.
  - destruct (Js.space2 a b) eqn:H2; [now apply space2_bytes in H2|].
    destruct (Js.space3 a b c) eqn:H3; [|discriminate]. now apply space3_bytes in H3.
Qed.

(** A printable ASCII character starts no white space. *)
Lemma skip_space_ascii a s :
  (32 < nat_of_ascii a < 128)%nat -> Js.skip_space (String a s) = None.
Proof.
  intros Ha. destruct (Js.skip_space (String a s)) as [s'|] eqn:H; [|reflexivity].
  apply skip_space_first in H as [H|H]; [apply space1_ascii in H|]; lia.
Qed.

(** Neither does a byte that continues a character. *)
Lemma skip_space_continuation a s :
  (128 <= nat_of_ascii a < 192)%nat -> Js.skip_space (String a s) = None.
Proof.
  intros Ha. cbn [Js.skip_space].
  destruct (Js.space1 a) eqn:H1; [apply space1_ascii in H1; lia|].
  destruct s as [|b [|c s]]; try reflexivity.
  - destruct (Js.space2 a b) eqn:H2; [|reflexivity].
    unfold Js.space2 in H2. apply andb_prop in H2 as [H2 _].
    apply Nat.eqb_eq in H2. lia.
  - destruct (Js.space2 a b) eqn:H2.
    + unfold Js.space2 in H2. apply andb_prop in H2 as [H2 _].
      apply Nat.eqb_eq in H2. lia.
    + destruct (Js.space3 a b c) eqn:H3; [|reflexivity].
      unfold Js.space3 in H3. cbv zeta in H3.
      repeat (apply orb_prop in H3 as [H3|H3]);
        repeat match goal with
               | H : (_ && _)%bool = true |- _ => apply andb_prop in H as [? ?]
               | H : Nat.eqb _ _ = true |- _ => apply Nat.eqb_eq in H
               end; lia.
Qed.

(** [trimStart] and what it leaves. *)
Lemma trimStart_none s : Js.skip_space s = None -> Js.trimStart s = s.
Proof. intros H. now rewrite trimStart_eq, H. Qed.

Lemma trimStart_some s s' :
  Js.skip_space s = Some s' -> Js.trimStart s = Js.trimStart s'.
Proof. intros H. now rewrite trimStart_eq, H. Qed.

Lemma trimStart_fixed s : Js.trimStart (Js.trimStart s) = Js.trimStart s.
Proof.
  induction s as [s Hs | s s' Hs IH] using space_ind.
  - now rewrite !(trimStart_none s Hs).
  - now rewrite (trimStart_some s s' Hs).
Qed.

Lemma trimStart_skip s : Js.skip_space (Js.trimStart s) = None.
Proof.
  induction s as [s Hs | s s' Hs IH] using space_ind.
  - now rewrite (trimStart_none s Hs).
  - now rewrite (trimStart_some s s' Hs).
Qed.

Lemma trimStart_fixed_skip s : Js.trimStart s = s -> Js.skip_space s = None.
Proof. intros H. rewrite <- H. apply trimStart_skip. Qed.

Lemma all_space_some s s' :
  Js.skip_space s = Some s' -> Js.all_space s = Js.all_space s'.
Proof.
  intros H. rewrite all_space_eq, H. destruct s; [discriminate H | reflexivity].
Qed.

Lemma all_space_none s :
  Js.skip_space s = None -> Js.all_space s = true -> s = "".
Proof.
  intros H. rewrite all_space_eq, H. destruct s; [reflexivity | discriminate].
Qed.

Lemma all_space_cases ws :
  Js.all_space ws = true ->
  ws = "" \/ exists ws', Js.skip_space ws = Some ws' /\ Js.all_space ws' = true.
Proof.
  intros H. destruct (Js.skip_space ws) as [ws'|] eqn:Hs.
  - right. exists ws'. split; [reflexivity|]. now rewrite <- (all_space_some ws ws' Hs).
  - left. now apply all_space_none.
Qed.

Lemma trimStart_spaces ws s :
  Js.all_space ws = true -> Js.trimStart (ws ++ s) = Js.trimStart s.
Proof.
  induction ws as [ws Hs | ws ws' Hs IH] using space_ind; intros H.
  - now rewrite (all_space_none ws Hs H).
  - rewrite (trimStart_some (ws ++ s) (ws' ++ s)) by now apply skip_space_app.
    apply IH. now rewrite <- (all_space_some ws ws' Hs).
Qed.

Lemma trimStart_all_space s : Js.all_space s = true -> Js.trimStart s = "".
Proof.
  intros H. rewrite <- (append_nil_r s). now rewrite trimStart_spaces.
Qed.

(** What [trimStart] takes away is white space. *)
Lemma trimStart_split : forall s,
  exists ws, s = ws ++ Js.trimStart s /\ Js.all_space ws = true.
Proof.
  induction s as [s Hs | s s' Hs (ws & E & Hws)] using space_ind.
  - exists "". now rewrite (trimStart_none s Hs).
  - destruct (skip_space_split s s' Hs) as (w & Ew & Hw & _).
    exists (w ++ ws). rewrite (trimStart_some s s' Hs). split.
    + rewrite <- append_assoc, <- E. exact Ew.
    + rewrite (all_space_some (w ++ ws) ("" ++ ws)) by now apply skip_space_app.
      exact Hws.
Qed.

Lemma all_space_app ws1 ws2 :
  Js.all_space ws1 = true -> Js.all_space ws2 = true -> Js.all_space (ws1 ++ ws2) = true.
Proof.
  induction ws1 as [ws Hs | ws ws' Hs IH] using space_ind; intros H1 H2.
  - now rewrite (all_space_none ws Hs H1).
  - rewrite (all_space_some (ws ++ ws2) (ws' ++ ws2)) by now apply skip_space_app.
    apply IH; [|exact H2]. now rewrite <- (all_space_some ws ws' Hs).
Qed.

(** A text that starts with no white space keeps its front when something
    is put behind it, unless it is a byte or two short of a character. *)
Lemma trimStart_prefix g b :
  Js.trimStart (g ++ b) = g ++ b -> Js.trimStart g = g.
Proof.
  intros H. apply trimStart_fixed_skip in H.
  destruct (Js.skip_space g) as [g'|] eqn:Hg; [|now apply trimStart_none].
  apply (skip_space_app g g' b) in Hg. congruence.
Qed.

(** [trimEnd] and what it leaves. *)
Lemma trimEnd_all_space s : Js.all_space s = true -> Js.trimEnd s = "".
Proof. intros H. now rewrite trimEnd_eq, H. Qed.

Lemma trimEnd_fixed : forall g,
  (forall a b, g = a ++ b -> b <> "" -> Js.all_space b = false) ->
  Js.trimEnd g = g.
Proof.
  induction g as [|c g IH]; intros Hlast; [reflexivity|].
  rewrite trimEnd_eq, (Hlast "" (String c g) eq_refl) by discriminate.
  f_equal. apply IH. intros a b -> Hb. now apply (Hlast (String c a) b).
Qed.

(** [trimEnd] cuts where nothing but white space follows, and no earlier. *)
Lemma trimEnd_spec : forall s,
  exists ws,
    s = Js.trimEnd s ++ ws /\ Js.all_space ws = true
    /\ forall a b, Js.trimEnd s = a ++ b -> b <> "" -> Js.all_space (b ++ ws) = false.
Proof.
  induction s as [|c s (ws & E & Hws & Hmin)].
  - exists "". repeat split. intros [|] b H Hb; cbn in H; [now subst b | discriminate].
  - rewrite trimEnd_eq. destruct (Js.all_space (String c s)) eqn:Hall.
    + exists (String c s). repeat split; [exact Hall|].
      intros [|] b H Hb; cbn in H; [now subst b | discriminate].
    + exists ws. split; [cbn [append]; now f_equal|]. split; [exact Hws|].
      intros [|c' a] b H Hb; cbn [append] in H.
      * subst b. cbn [append]. now rewrite <- E.
      * injection H as _ H. now apply (Hmin a b).
Qed.

Lemma trimEnd_suffixes s a b :
  Js.trimEnd s = a ++ b -> b <> "" -> Js.all_space b = false.
Proof.
  intros E Hb. destruct (trimEnd_spec s) as (ws & _ & Hws & Hmin).
  destruct (Js.all_space b) eqn:Hall; [|reflexivity].
  rewrite <- (Hmin a b E Hb). symmetry. now apply all_space_app.
Qed.

Lemma trimEnd_idempotent s : Js.trimEnd (Js.trimEnd s) = Js.trimEnd s.
Proof. apply trimEnd_fixed. intros a b. apply trimEnd_suffixes. Qed.

Lemma trimStart_trimEnd s :
  Js.trimStart s = s -> Js.trimStart (Js.trimEnd s) = Js.trimEnd s.
Proof.
  intros H. destruct (trimEnd_spec s) as (ws & E & _).
  apply (trimStart_prefix (Js.trimEnd s) ws). now rewrite <- E.
Qed.

(** [trim] leaves a trimmed text as it is. *)
Lemma trim_idempotent s : Js.trim (Js.trim s) = Js.trim s.
Proof.
  unfold Js.trim.
  rewrite (trimStart_trimEnd (Js.trimStart s)) by apply trimStart_fixed.
  apply trimEnd_idempotent.
Qed.

(** A white space character in front of more text: either it lies within the
    front part, or the front part is a byte or two of it, none of them
    ASCII. *)
Lemma skip_space_straddle s t r :
  Js.skip_space (s ++ t) = Some r ->
  Js.skip_space s = None ->
  forall p c q, s = p ++ String c q -> (128 <= nat_of_ascii c)%nat.
Proof.
  destruct s as [|a [|b [|c0 s]]]; cbn [append Js.skip_space].
  - intros _ _ [|] c q H; discriminate H.
  - destruct (Js.space1 a) eqn:H1; [discriminate|]. intros Hr _ p c q E.
    assert (Ha : (128 <= nat_of_ascii a)%nat).
    { assert (Hf := skip_space_first a t r). cbn [Js.skip_space] in Hf.
      rewrite H1 in Hf. destruct (Hf Hr); [discriminate | assumption]. }
    destruct p as [|a' [|]]; cbn in E; try discriminate.
    now injection E as <- _.
  - destruct (Js.space1 a) eqn:H1; [discriminate|].
    destruct (Js.space2 a b) eqn:H2; [discriminate|].
    destruct t as [|c t]; [discriminate|].
    destruct (Js.space3 a b c) eqn:H3; [|discriminate].
    intros _ _ p c' q E. apply space3_bytes in H3 as (Ha & Hb & _).
    destruct p as [|a' [|b' [|]]]; cbn in E; try discriminate.
    + injection E as <- _. exact Ha.
    + injection E as _ <- _. lia.
  - destruct (Js.space1 a); [discriminate|].
    destruct (Js.space2 a b); [discriminate|].
    destruct (Js.space3 a b c0); discriminate.
Qed.

(** A printable ASCII character is not the first byte of white space. *)
Lemma skip_space_lit c p s s' :
  (32 < nat_of_ascii c < 128)%nat ->
  Js.skip_space s = Some s' -> Js.lit (String c p) s = None.
Proof.
  intros Hc Hs. destruct s as [|a s]; [reflexivity|]. cbn [Js.lit].
  destruct (Ascii.eqb_spec c a) as [<-|]; [|reflexivity].
  rewrite skip_space_ascii in Hs by exact Hc. discriminate Hs.
Qed.

End WhiteSpace.

(* ------------------------------------------------------------------ *)
(** ** The retry engine *)

Section RetryFacts.

Import ApiUtils.

Context {T : Type}.
Variable fn : Z -> Outcome T.
Variable maxRetries : Z.
Variable delay : Z.
Variable onRetry : bool.

Local Abbreviation attempts := (attempts fn maxRetries delay onRetry).
Local Abbreviation failed_round := (failed_round fn maxRetries delay onRetry).
Local Abbreviation failed_rounds := (failed_rounds fn maxRetries delay onRetry).

(** One failed attempt, unfolded. *)
Lemma attempts_step_rejected fuel attempt lastError run x :
  attempt <= maxRetries ->
  fn (invocations run + 1) = Rejected x ->
  attempts (S fuel) attempt lastError run =
  attempts fuel (attempt + 1) (Some (toError x))
    (mkRun (invocations run + 1)
           (trace run ++ failed_round attempt (invocations run + 1))).
Proof.
  intros Hle Hfn. cbn [ApiUtils.attempts].
  apply Z.leb_le in Hle. rewrite Hle.
  unfold bind at 1. unfold await_fn. rewrite Hfn.
  unfold failed_round. rewrite Hfn. cbn [thrown].
  unfold bind, when, emit, ret.
  destruct onRetry, (attempt <? maxRetries); cbn;
    rewrite <- ?app_assoc; cbn; try rewrite app_nil_r; reflexivity.
Qed.

(** [k] failed attempts in a row, unfolded. *)
Lemma attempts_failures (k : nat) :
  forall fuel attempt lastError run,
    (k <= fuel)%nat ->
    attempt + Z.of_nat k <= maxRetries + 1 ->
    (forall j, 0 < j <= Z.of_nat k -> rejected (fn (invocations run + j)) = true) ->
    attempts fuel attempt lastError run =
    attempts (fuel - k) (attempt + Z.of_nat k)
      (last_after fn k lastError (invocations run))
      (mkRun (invocations run + Z.of_nat k)
             (trace run ++ failed_rounds k attempt (invocations run))).
Proof.
  induction k as [|k IH]; intros fuel attempt lastError run Hfuel Hmax Hfail.
  - cbn. rewrite Nat.sub_0_r, !Z.add_0_r, app_nil_r. now destruct run.
  - destruct fuel as [|fuel]; [lia|].
    assert (Hone : rejected (fn (invocations run + 1)) = true) by (apply Hfail; lia).
    destruct (fn (invocations run + 1)) as [v|x] eqn:Hfn; [discriminate|].
    rewrite (attempts_step_rejected _ _ _ _ x) by (assumption || lia).
    rewrite IH; cbn [invocations trace].
    + replace (attempt + 1 + Z.of_nat k) with (attempt + Z.of_nat (S k)) by lia.
      replace (invocations run + 1 + Z.of_nat k)
        with (invocations run + Z.of_nat (S k)) by lia.
      cbn [ApiUtils.failed_rounds]. rewrite <- app_assoc.
      replace (S fuel - S k)%nat with (fuel - k)%nat by lia.
      f_equal. destruct k.
      * cbn [last_after]. change (Z.of_nat 1) with 1. now rewrite Hfn.
      * cbn [last_after].
        now replace (invocations run + 1 + Z.of_nat (S k))
          with (invocations run + Z.of_nat (S (S k))) by lia.
    + lia.
    + lia.
    + intros j Hj. replace (invocations run + 1 + j)
        with (invocations run + (j + 1)) by lia. apply Hfail. lia.
Qed.

(** The loop only ever adds to the trace. *)
Lemma attempts_extends fuel :
  forall attempt lastError run,
    exists more,
      trace (snd (attempts fuel attempt lastError run)) = (trace run ++ more)%list.
Proof.
  induction fuel as [|fuel IH]; intros attempt lastError run.
  - exists []. cbn. now rewrite app_nil_r.
  - cbn [ApiUtils.attempts]. destruct (attempt <=? maxRetries).
    + unfold bind at 1. unfold await_fn.
      destruct (fn (invocations run + 1)) as [v|x].
      * eexists. cbn. reflexivity.
      * unfold bind, when, emit, ret.
        destruct (onRetry && (attempt <? maxRetries))%bool, (attempt <? maxRetries);
          cbn;
          match goal with
          | |- context [ApiUtils.attempts _ _ _ _ fuel ?a ?l ?r] =>
              destruct (IH a l r) as [more Hmore]; rewrite Hmore; cbn;
              rewrite <- ?app_assoc; eexists; reflexivity
          end.
    + exists []. cbn. now rewrite app_nil_r.
Qed.

(** While attempts remain, the next thing the loop does is invoke [fn]. *)
Lemma attempts_invokes_next fuel attempt lastError run :
  attempt <= maxRetries ->
  exists more,
    trace (snd (attempts (S fuel) attempt lastError run)) =
    (trace run ++ EvInvoke (invocations run + 1) :: more)%list.
Proof.
  intros Hle. cbn [ApiUtils.attempts]. apply Z.leb_le in Hle. rewrite Hle.
  unfold bind at 1. unfold await_fn.
  destruct (fn (invocations run + 1)) as [v|x].
  - exists []. reflexivity.
  - unfold bind, when, emit, ret.
    destruct (onRetry && (attempt <? maxRetries))%bool, (attempt <? maxRetries);
      cbn;
      match goal with
      | |- context [ApiUtils.attempts _ _ _ _ fuel ?a ?l ?r] =>
          destruct (attempts_extends fuel a l r) as [more Hmore]; rewrite Hmore; cbn;
          rewrite <- ?app_assoc; cbn; eexists; reflexivity
      end.
Qed.

(** Reading the trace of failed rounds. *)

Lemma sleeps_app tr1 tr2 : sleeps (tr1 ++ tr2) = (sleeps tr1 ++ sleeps tr2)%list.
Proof. induction tr1 as [|[]]; cbn; congruence. Qed.

Lemma invoked_app tr1 tr2 : invoked (tr1 ++ tr2) = (invoked tr1 ++ invoked tr2)%list.
Proof. induction tr1 as [|[]]; cbn; congruence. Qed.

Lemma total_wait_app tr1 tr2 :
  total_wait (tr1 ++ tr2) = total_wait tr1 + total_wait tr2.
Proof.
  unfold total_wait. rewrite sleeps_app.
  induction (sleeps tr1); cbn; lia.
Qed.

Lemma invoked_failed_round attempt i : invoked (failed_round attempt i) = [i].
Proof.
  unfold ApiUtils.failed_round.
  destruct (onRetry && _)%bool, (attempt <? maxRetries); reflexivity.
Qed.

Lemma invoked_failed_rounds k :
  forall attempt i, invoked (failed_rounds k attempt i) = Zseq (i + 1) k.
Proof.
  induction k as [|k IH]; intros attempt i; cbn [ApiUtils.failed_rounds Zseq].
  - reflexivity.
  - now rewrite invoked_app, invoked_failed_round, IH.
Qed.

Lemma total_wait_failed_round attempt i :
  total_wait (failed_round attempt i) =
  if attempt <? maxRetries then waitTime delay attempt else 0.
Proof.
  unfold ApiUtils.failed_round, total_wait.
  destruct (onRetry && _)%bool, (attempt <? maxRetries); cbn; lia.
Qed.

(** Failed attempts [attempt .. maxRetries]: every one but the last is
    followed by its timer, and the timers double. *)
Lemma total_wait_failed_rounds k :
  forall attempt i,
    1 <= attempt ->
    attempt + Z.of_nat k = maxRetries ->
    total_wait (failed_rounds (S k) attempt i) =
    delay * (2 ^ (maxRetries - 1) - 2 ^ (attempt - 1)).
Proof.
  induction k as [|k IH]; intros attempt i Hpos Hlast.
  - cbn [ApiUtils.failed_rounds]. rewrite app_nil_r, total_wait_failed_round.
    replace (attempt <? maxRetries) with false by (symmetry; apply Z.ltb_ge; lia).
    replace attempt with maxRetries by lia. lia.
  - change (failed_rounds (S (S k)) attempt i)
      with (failed_round attempt (i + 1) ++ failed_rounds (S k) (attempt + 1) (i + 1))%list.
    rewrite total_wait_app, total_wait_failed_round, IH by lia.
    replace (attempt <? maxRetries) with true by (symmetry; apply Z.ltb_lt; lia).
    unfold waitTime.
    replace (attempt + 1 - 1) with (Z.succ (attempt - 1)) by lia.
    rewrite Z.pow_succ_r by lia. lia.
Qed.

Lemma after_invoke_failed_round_hit attempt i rest :
  after_invoke i (failed_round attempt i ++ rest) =
  (tl (failed_round attempt i) ++ rest)%list.
Proof. unfold ApiUtils.failed_round. cbn. now rewrite Z.eqb_refl. Qed.

Lemma after_invoke_failed_round_miss attempt i j rest :
  i <> j ->
  after_invoke j (failed_round attempt i ++ rest) = after_invoke j rest.
Proof.
  intros Hne. unfold ApiUtils.failed_round. cbn.
  replace (i =? j) with false by (symmetry; apply Z.eqb_neq; assumption).
  destruct (onRetry && _)%bool, (attempt <? maxRetries); reflexivity.
Qed.

Lemma sleeps_until_invoke_tl attempt i j rest :
  attempt < maxRetries ->
  sleeps (until_invoke (tl (failed_round attempt i) ++ EvInvoke j :: rest)) =
  [waitTime delay attempt].
Proof.
  intros Hlt. unfold ApiUtils.failed_round.
  replace (attempt <? maxRetries) with true by (symmetry; apply Z.ltb_lt; lia).
  destruct onRetry; reflexivity.
Qed.

(** The timer between the [j]-th of [k] failed attempts and the next
    invocation. *)
Lemma waits_between_failed_rounds k :
  forall attempt i j next rest,
    i < j <= i + Z.of_nat k ->
    attempt + (j - i - 1) < maxRetries ->
    waits_between j (failed_rounds k attempt i ++ EvInvoke next :: rest) =
    [waitTime delay (attempt + (j - i - 1))].
Proof.
  induction k as [|k IH]; intros attempt i j next rest Hj Hlt; [lia|].
  cbn [ApiUtils.failed_rounds]. unfold waits_between. rewrite <- app_assoc.
  destruct (Z.eq_dec (i + 1) j) as [<-|Hne].
  - rewrite after_invoke_failed_round_hit.
    replace (attempt + (i + 1 - i - 1)) with attempt in * by lia.
    destruct k as [|k].
    + cbn [ApiUtils.failed_rounds app]. now apply sleeps_until_invoke_tl.
    + cbn [ApiUtils.failed_rounds]. unfold ApiUtils.failed_round at 2.
      cbn [app]. now apply sleeps_until_invoke_tl.
  - rewrite after_invoke_failed_round_miss by assumption.
    fold (waits_between j (failed_rounds k (attempt + 1) (i + 1) ++ EvInvoke next :: rest)).
    rewrite IH by lia. f_equal. f_equal. lia.
Qed.

End RetryFacts.

Section RetryClaims.

Import ApiUtils.

Context {T : Type}.
Variable fn : Z -> Outcome T.
Variable delay : Z.
Variable onRetry : bool.

(** [retryRequest] returns: the bound on the iterations is never reached. *)
Lemma attempts_returns maxRetries fuel :
  forall attempt lastError run,
    (Z.to_nat (maxRetries + 1 - attempt) < fuel)%nat ->
    fst (attempts fn maxRetries delay onRetry fuel attempt lastError run) <> None.
Proof.
  induction fuel as [|fuel IH]; intros attempt lastError run Hfuel; [lia|].
  cbn [attempts]. destruct (attempt <=? maxRetries) eqn:Hle.
  - apply Z.leb_le in Hle. unfold bind at 1. unfold await_fn.
    destruct (fn (invocations run + 1)) as [v|x]; [discriminate|].
    unfold bind, when, emit, ret.
    destruct (onRetry && (attempt <? maxRetries))%bool, (attempt <? maxRetries);
      cbn; apply IH; lia.
  - discriminate.
Qed.

Lemma retryRequest_returns maxRetries run :
  fst (retryRequest fn maxRetries delay onRetry run) <> None.
Proof. unfold retryRequest. apply attempts_returns. lia. Qed.

(** The whole run of an operation that fails [n] times out of [n]. *)
Lemma retryRequest_all_fail n :
  1 <= n ->
  (forall j, 1 <= j <= n -> rejected (fn j) = true) ->
  retryRequest fn n delay onRetry start =
  (Some (Rejected (ThrownObject (toError (thrown (fn n))))),
   mkRun n (failed_rounds fn n delay onRetry (Z.to_nat n) 1 0)).
Proof.
  intros Hn Hfail. unfold retryRequest.
  rewrite (attempts_failures _ _ _ _ (Z.to_nat n)); cbn [invocations trace start].
  - replace (S (Z.to_nat n) - Z.to_nat n)%nat with 1%nat by lia.
    rewrite Z2Nat.id by lia. cbn [attempts].
    replace (1 + n <=? n) with false by (symmetry; apply Z.leb_gt; lia).
    unfold ret. destruct (Z.to_nat n) eqn:Hk; [lia|].
    cbn [last_after app]. rewrite <- Hk, Z2Nat.id by lia. reflexivity.
  - lia.
  - lia.
  - intros j Hj. apply Hfail. lia.
Qed.

(** The run up to the invocation that follows [k] failures, [k] below the
    number of attempts. *)
Lemma retryRequest_prefix n k :
  1 <= k < n ->
  (forall j, 1 <= j <= k -> rejected (fn j) = true) ->
  exists more,
    trace (snd (retryRequest fn n delay onRetry start)) =
    (failed_rounds fn n delay onRetry (Z.to_nat k) 1 0 ++ EvInvoke (k + 1) :: more)%list.
Proof.
  intros Hk Hfail. unfold retryRequest.
  rewrite (attempts_failures _ _ _ _ (Z.to_nat k)); cbn [invocations trace start].
  - replace (S (Z.to_nat n) - Z.to_nat k)%nat
      with (S (Z.to_nat n - Z.to_nat k))%nat by lia.
    rewrite Z2Nat.id by lia.
    match goal with
    | |- context [attempts _ _ _ _ (S ?f) ?a ?l ?r] =>
        destruct (attempts_invokes_next fn n delay onRetry f a l r) as [more Hmore];
        [lia | exists more; rewrite Hmore]
    end.
    cbn [invocations trace app]. reflexivity.
  - lia.
  - lia.
  - intros j Hj. apply Hfail. lia.
Qed.

End RetryClaims.


(** C5.  With base delay [d > 0] and [n >= 1] attempts: whenever attempts
    [1 .. k] have failed and attempts remain ([k < n]), exactly one timer is
    awaited between attempt [k] and attempt [k + 1], of [d * 2^(k-1)]
    milliseconds; and over a run in which all [n] attempts fail the timers add
    up to [d * (2^(n-1) - 1)]. *)
Theorem retryRequest_backoff
  {T} (fn : Z -> Outcome T) (n d : Z) (onRetry : bool) :
  0 < d ->
  1 <= n ->
  (forall k, 1 <= k < n ->
     (forall j, 1 <= j <= k -> ApiUtils.rejected (fn j) = true) ->
     ApiUtils.waits_between k
       (ApiUtils.trace (snd (ApiUtils.retryRequest fn n d onRetry ApiUtils.start)))
     = [d * 2 ^ (k - 1)])
  /\ ((forall j, 1 <= j <= n -> ApiUtils.rejected (fn j) = true) ->
      ApiUtils.total_wait
        (ApiUtils.trace (snd (ApiUtils.retryRequest fn n d onRetry ApiUtils.start)))
      = d * (2 ^ (n - 1) - 1)).
Proof.
  intros _ Hn. split.
  - intros k Hk Hfail.
    destruct (retryRequest_prefix fn d onRetry n k Hk Hfail) as [more ->].
    rewrite waits_between_failed_rounds by lia.
    unfold ApiUtils.waitTime. do 3 f_equal. lia.
  - intros Hfail. rewrite (retryRequest_all_fail fn d onRetry n Hn Hfail).
    cbn [snd ApiUtils.trace].
    replace (Z.to_nat n) with (S (Z.to_nat (n - 1))) by lia.
    rewrite total_wait_failed_rounds by lia.
    change (1 - 1) with 0. now rewrite Z.pow_0_r.
Qed.


(* ------------------------------------------------------------------ *)
(** ** The client optimization path *)

(** C1 (what the code does instead).  When the first call of the edge function
    comes back with an error that [isRetryableError] classifies as
    non-retryable, the closure rethrows it, and [retryRequest] treats it like
    any other failure: the observer is notified, a timer of 1000 ms is
    awaited and the edge function is invoked a second time.  The run is not
    abandoned after the first failed attempt. *)
Theorem optimize_retries_non_retryable
  {D} (invoke : Z -> Index.InvokeResult D) (e : ErrObj) :
  Index.error (invoke 1) = Some e ->
  ApiUtils.isRetryableError (ThrownObject e) = false ->
  exists more,
    ApiUtils.trace (snd (Index.optimizeWithRetry invoke ApiUtils.start)) =
    ([ ApiUtils.EvInvoke 1;
       ApiUtils.EvOnRetry 1 (ApiUtils.toError (ThrownObject e));
       ApiUtils.EvSleep 1000;
       ApiUtils.EvInvoke 2 ] ++ more)%list.
Proof.
  intros Herr Hnon. unfold Index.optimizeWithRetry.
  assert (Hfn : Index.optimizeAttempt (invoke 1) = Rejected (ThrownObject e)).
  { unfold Index.optimizeAttempt. now rewrite Herr, Hnon. }
  destruct (retryRequest_prefix
              (fun i => Index.optimizeAttempt (invoke i)) 1000 true 3 1) as [more Hmore].
  - lia.
  - intros j Hj. replace j with 1 by lia. now rewrite Hfn.
  - exists more. rewrite Hmore.
    change (Z.to_nat 1) with 1%nat. cbn [ApiUtils.failed_rounds].
    unfold ApiUtils.failed_round. change (0 + 1) with 1. rewrite Hfn.
    reflexivity.
Qed.

Lemma optimize_retries_non_retryable_witness :
  exists more,
    ApiUtils.trace
      (snd (Index.optimizeWithRetry Sample.always_http_error ApiUtils.start)) =
    ([ ApiUtils.EvInvoke 1;
       ApiUtils.EvOnRetry 1 Sample.http_error;
       ApiUtils.EvSleep 1000;
       ApiUtils.EvInvoke 2 ] ++ more)%list.
Proof.
  apply (optimize_retries_non_retryable Sample.always_http_error Sample.http_error);
    reflexivity.
Defined.

(** The same run in full: three invocations, two notifications and 3000 ms
    of timers before the non-retryable error is reported. *)
Example optimize_http_error_run :
  ApiUtils.isRetryableError (ThrownObject Sample.http_error) = false /\
  Index.optimizeWithRetry Sample.always_http_error ApiUtils.start =
  (Some (Rejected (ThrownObject Sample.http_error)),
   ApiUtils.mkRun 3
     [ ApiUtils.EvInvoke 1; ApiUtils.EvOnRetry 1 Sample.http_error;
       ApiUtils.EvSleep 1000;
       ApiUtils.EvInvoke 2; ApiUtils.EvOnRetry 2 Sample.http_error;
       ApiUtils.EvSleep 2000;
       ApiUtils.EvInvoke 3 ]).
Proof. split; reflexivity. Qed.


Lemma retryRequest_backoff_witness :
  ApiUtils.waits_between 2
    (ApiUtils.trace
       (snd (ApiUtils.retryRequest Sample.always_failing 4 1000 false ApiUtils.start)))
  = [2000]
  /\ ApiUtils.total_wait
       (ApiUtils.trace
          (snd (ApiUtils.retryRequest Sample.always_failing 4 1000 false ApiUtils.start)))
     = 7000.
Proof.
  destruct (retryRequest_backoff Sample.always_failing 4 1000 false) as (Hk & Hsum).
  - lia.
  - lia.
  - split.
    + apply (Hk 2); [lia | intros j _; reflexivity].
    + apply Hsum. intros j _. reflexivity.
Defined.


(** The same policy with an operation that rejects with bare strings: the
    observer is handed [Error]s made of them. *)
Example retryRequest_wraps_strings :
  ApiUtils.retryRequest Cases.third_time_lucky_strings 3 1000 true ApiUtils.start =
  (Some (Resolved "ok"),
   ApiUtils.mkRun 3
     [ ApiUtils.EvInvoke 1; ApiUtils.EvOnRetry 1 (new_Error "boom");
       ApiUtils.EvSleep 1000;
       ApiUtils.EvInvoke 2; ApiUtils.EvOnRetry 2 (new_Error "boom");
       ApiUtils.EvSleep 2000;
       ApiUtils.EvInvoke 3 ]).
Proof. reflexivity. Qed.

(* ------------------------------------------------------------------ *)
(** ** The error classifier *)

Lemma text_matches_existsb error :
  existsb (fun msg => Js.includes (ApiUtils.errorMessage error) msg)
          ApiUtils.retryableMessages = true
  <-> Rule.text_matches error.
Proof.
  unfold Rule.text_matches. rewrite existsb_exists.
  assert (Htext : ApiUtils.errorMessage error
                  = Js.toLowerCase (Rule.searched_text error)).
  { unfold ApiUtils.errorMessage, Rule.searched_text, Js.or_string.
    destruct error as [| | s | o]; try reflexivity.
    cbn [ApiUtils.prop_message Rule.message_of].
    destruct (err_message o) as [[|c m]|]; reflexivity. }
  rewrite Htext. reflexivity.
Qed.

Lemma name_is_true error n :
  ApiUtils.name_is error n = true <-> Rule.name_of error = Some n.
Proof.
  unfold ApiUtils.name_is.
  change (ApiUtils.prop_name error) with (Rule.name_of error).
  destruct (Rule.name_of error) as [m|].
  - rewrite String.eqb_eq. split; congruence.
  - split; discriminate.
Qed.

Lemma network_kind_orb error :
  (ApiUtils.name_is error "NetworkError" || ApiUtils.name_is error "TypeError")%bool = true
  <-> Rule.network_kind error.
Proof.
  unfold Rule.network_kind. rewrite orb_true_iff, !name_is_true. reflexivity.
Qed.

Lemma code_of_status error :
  ApiUtils.status_or_statusCode error = Rule.code_of error.
Proof.
  destruct error as [| | s | o]; try reflexivity.
  unfold ApiUtils.status_or_statusCode, Rule.code_of, Rule.nonzero.
  destruct (err_status o) as [c|]; [destruct (c =? 0)|]; reflexivity.
Qed.

Lemma status_verdict status :
  ((status =? 429) || (status =? 408) || ((500 <=? status) && (status <? 600)))%bool = true
  <-> status = 429 \/ status = 408 \/ 500 <= status < 600.
Proof.
  rewrite !orb_true_iff, andb_true_iff, !Z.eqb_eq, Z.leb_le, Z.ltb_lt. tauto.
Qed.

(** A falsy [error] has no name and no status code, and its string form has
    none of the vocabulary. *)
Lemma falsy_not_retryable error :
  ApiUtils.truthy error = false -> ~ Rule.retryable_as_amended error.
Proof.
  intros Hfalsy [Hkind | [(st & Hst & _) | (_ & w & Hin & Hinc)]].
  - destruct error as [| | s | o]; try discriminate;
      destruct Hkind; discriminate.
  - destruct error as [| | s | o]; discriminate.
  - destruct error as [| | s | o]; try discriminate.
    + cbn in Hin. repeat (destruct Hin as [<- | Hin]; [discriminate Hinc|]). exact Hin.
    + cbn in Hin. repeat (destruct Hin as [<- | Hin]; [discriminate Hinc|]). exact Hin.
    + destruct s; [|discriminate].
      cbn in Hin. repeat (destruct Hin as [<- | Hin]; [discriminate Hinc|]). exact Hin.
Qed.

(** C3 (as the code has it).  [isRetryableError] returns true exactly when:
    the error's name is NetworkError or TypeError; or it carries a non-zero
    [status] (or, failing that, a non-zero [statusCode]) and that code is
    429, 408 or in [[500,600)]; or it carries no such code and the text
    [String(error.message || error)], lowercased, contains one of the seven
    vocabulary strings, that text being the error's message when it has a
    non-empty one and the string form of the error itself otherwise.  For
    every other value it returns false. *)
Theorem isRetryableError_iff (error : JsThrown) :
  ApiUtils.isRetryableError error = true <-> Rule.retryable_as_amended error.
Proof.
  unfold ApiUtils.isRetryableError.
  destruct (ApiUtils.truthy error) eqn:Htruthy; cbn [negb].
  - destruct (ApiUtils.name_is error "NetworkError" || ApiUtils.name_is error "TypeError")%bool
      eqn:Hkind.
    + split; [intros _|reflexivity]. left. now apply network_kind_orb.
    + assert (Hnot : ~ Rule.network_kind error).
      { rewrite <- network_kind_orb, Hkind. discriminate. }
      unfold Rule.retryable_as_amended. rewrite code_of_status.
      destruct (Rule.code_of error) as [status|].
      * rewrite status_verdict. split.
        -- intros H. right. left. now exists status.
        -- intros [H | [(s & Hs & H) | (Hs & _)]];
             [contradiction | now injection Hs as <- | discriminate].
      * rewrite text_matches_existsb. split.
        -- intros H. right. right. now split.
        -- intros [H | [(s & Hs & _) | (_ & H)]];
             [contradiction | discriminate | assumption].
  - split; [discriminate|]. intros H. now apply falsy_not_retryable in H.
Qed.

(** An [Error] named TimeoutError that carries no message is retryable by
    its string form, and so is a bare string that speaks of a rate limit. *)
Lemma isRetryableError_iff_witness :
  Rule.retryable_as_amended (ThrownObject Cases.timeout_named)
  /\ Rule.retryable_as_amended (ThrownString "Rate Limit hit").
Proof.
  split.
  - apply (isRetryableError_iff (ThrownObject Cases.timeout_named)). reflexivity.
  - apply (isRetryableError_iff (ThrownString "Rate Limit hit")). reflexivity.
Defined.

(** C3 as worded fails on the code twice over: a 404 whose message contains
    "connection" and "timeout" is not retryable (the status decides alone),
    and a 599 with no vocabulary in its message is retryable (the range is
    [[500,600)]), where the worded rule says the opposite both times. *)
Lemma isRetryableError_not_as_specified :
  ~ (ApiUtils.isRetryableError Sample.not_found_timeout = true
     <-> Rule.retryable_as_specified Sample.not_found_timeout)
  /\ ~ (ApiUtils.isRetryableError Sample.status_599 = true
        <-> Rule.retryable_as_specified Sample.status_599).
Proof.
  split.
  - intros [_ H]. assert (Hcode : ApiUtils.isRetryableError Sample.not_found_timeout = false)
      by reflexivity.
    rewrite H in Hcode; [discriminate|].
    right. right. exists "Connection timeout", "timeout".
    split; [reflexivity|]. split; [cbn; tauto | reflexivity].
  - intros [H _].
    destruct (H eq_refl) as [[Hk | Hk] | [(s & Hs & Hr) | (m & w & Hm & Hin & Hinc)]].
    + discriminate Hk.
    + discriminate Hk.
    + cbn in Hs. injection Hs as <-. lia.
    + cbn in Hm. injection Hm as <-.
      cbn in Hin. repeat (destruct Hin as [<- | Hin]; [discriminate Hinc|]). exact Hin.
Qed.

(** The Kelvin sign folds to the letter k: a message shouting NETWORK with
    it is retryable. *)
Example kelvin_sign_is_folded :
  ApiUtils.isRetryableError (ThrownString ("NETWOR" ++ Cases.kelvin_sign ++ " DOWN"))
  = true.
Proof. vm_compute. reflexivity. Qed.

(** A 404 with none of the vocabulary in its message is not retryable. *)
Example not_found_is_not_retryable :
  ApiUtils.isRetryableError Sample.not_found = false.
Proof. reflexivity. Qed.

(* ------------------------------------------------------------------ *)
(** ** The response normaliser *)

Section FenceFacts.

Import OptimizeCv.

Lemma lit_app p s : Js.lit p (p ++ s) = Some s.
Proof. induction p as [|a p IH]; cbn; [reflexivity|]. now rewrite Ascii.eqb_refl. Qed.

(** A literal that fails on [s] fails on every extension of [s] that it
    fits into. *)
Lemma lit_none_app p :
  forall s t, Js.lit p s = None -> (String.length p <= String.length s)%nat ->
              Js.lit p (s ++ t) = None.
Proof.
  induction p as [|a p IH]; intros s t Hnone Hlen; [discriminate|].
  destruct s as [|b s]; [cbn in Hlen; lia|].
  cbn in *. destruct (Ascii.eqb a b); [|reflexivity].
  apply IH; [assumption | lia].
Qed.

(** [\s*], one white space character at a time. *)
Lemma spaces_eq {R} (s : string) (k : string -> option R) :
  spaces s k = match Js.skip_space s with
               | Some s' => orelse (spaces s' k) (k s)
               | None => k s
               end.
Proof.
  destruct s as [|a [|b [|c s]]]; cbn [Js.skip_space]; try reflexivity.
  - cbn [spaces]. now destruct (Js.space1 a).
  - change (spaces (String a (String b "")) k)
      with (if Js.space1 a
            then orelse (spaces (String b "") k) (k (String a (String b "")))
            else if Js.space2 a b
                 then orelse (spaces "" k) (k (String a (String b "")))
                 else k (String a (String b ""))).
    destruct (Js.space1 a); [reflexivity|]. now destruct (Js.space2 a b).
  - change (spaces (String a (String b (String c s))) k)
      with (if Js.space1 a
            then orelse (spaces (String b (String c s)) k)
                        (k (String a (String b (String c s))))
            else if Js.space2 a b
                 then orelse (spaces (String c s) k)
                             (k (String a (String b (String c s))))
                 else if Js.space3 a b c
                      then orelse (spaces s k) (k (String a (String b (String c s))))
                      else k (String a (String b (String c s)))).
    destruct (Js.space1 a); [reflexivity|].
    destruct (Js.space2 a b); [reflexivity|]. now destruct (Js.space3 a b c).
Qed.

(** White space is no fence. *)
Lemma lit_fence_space s s' : Js.skip_space s = Some s' -> Js.lit fence s = None.
Proof. apply skip_space_lit. cbn. lia. Qed.

Lemma closes_space s s' : Js.skip_space s = Some s' -> closes s = closes s'.
Proof. intros H. unfold closes. now rewrite (trimStart_some s s' H). Qed.

(** What follows group 1 in the pattern, [\s*```], succeeds exactly on the
    inputs that [closes] describes. *)
Lemma spaces_then_fence (group : string) :
  forall s,
    spaces s (fun s5 => match lit fence s5 with
                        | Some _ => Some group
                        | None => None
                        end)
    = if closes s then Some group else None.
Proof.
  induction s as [s Hs | s s' Hs IH] using space_ind; rewrite spaces_eq, Hs.
  - unfold closes, Js.startsWith, lit. rewrite (trimStart_none s Hs).
    now destruct (Js.lit fence s).
  - rewrite IH, (closes_space s s' Hs). unfold lit.
    rewrite (lit_fence_space s s' Hs). now destruct (closes s').
Qed.

(** Greedy white space in front of something that is not white space. *)
Lemma spaces_greedy {R} (k : string -> option R) (r : R) :
  forall ws s,
    Js.all_space ws = true ->
    Js.trimStart s = s ->
    k s = Some r ->
    spaces (ws ++ s) k = Some r.
Proof.
  induction ws as [ws Hs | ws ws' Hs IH] using space_ind; intros s Hws Hfix Hk.
  - rewrite (all_space_none ws Hs Hws). cbn [append].
    now rewrite spaces_eq, (trimStart_fixed_skip s Hfix).
  - rewrite spaces_eq, (skip_space_app ws ws' s Hs), IH; try assumption;
      [reflexivity|].
    now rewrite <- (all_space_some ws ws' Hs).
Qed.

(** The lazy group stops at the first place where the rest of the pattern
    matches. *)
Lemma lazy_any_first {R} (k : string -> string -> option R) (r : R) :
  forall g taken tail,
    (forall a b, g = a ++ b -> b <> "" -> k (taken ++ a) (b ++ tail) = None) ->
    k (taken ++ g) tail = Some r ->
    lazy_any (g ++ tail) taken k = Some r.
Proof.
  induction g as [|c g IH]; intros taken tail Hearly Hhere.
  - cbn [append] in *. destruct tail; cbn; rewrite append_nil_r in Hhere;
      now rewrite Hhere.
  - assert (Hk0 : k taken (String c g ++ tail) = None).
    { specialize (Hearly "" (String c g)). rewrite append_nil_r in Hearly.
      apply Hearly; [reflexivity | discriminate]. }
    cbn [append lazy_any] in *. rewrite Hk0.
    assert (Hshift : forall a, (taken ++ String c "") ++ a = taken ++ String c a).
    { intros a. now rewrite <- append_assoc. }
    apply IH.
    + intros a b Hab Hb. rewrite Hshift.
      apply (Hearly (String c a) b); [now rewrite Hab | assumption].
    + now rewrite Hshift.
Qed.

Lemma includes_tail c s f :
  Js.includes (String c s) f = false ->
  Js.startsWith (String c s) f = false /\ Js.includes s f = false.
Proof.
  cbn [Js.includes]. destruct (Js.startsWith (String c s) f); [discriminate|].
  now split.
Qed.

Lemma includes_suffix f : forall a b, Js.includes (a ++ b) f = false -> Js.includes b f = false.
Proof.
  induction a as [|c a IH]; intros b H; [exact H|].
  cbn [append] in H. apply includes_tail in H as [_ H]. now apply IH.
Qed.

Lemma endsWith_suffix p : forall a b,
  Js.endsWith (a ++ b) p = true -> (String.length p <= String.length b)%nat
  -> Js.endsWith b p = true.
Proof.
  induction a as [|c a IH]; intros b H Hlen; [exact H|].
  cbn [append Js.endsWith] in H.
  destruct (String.eqb_spec (String c (a ++ b)) p) as [Heq|_].
  - apply (f_equal String.length) in Heq. cbn in Heq. rewrite length_append in Heq. lia.
  - now apply IH.
Qed.

Lemma endsWith_last p : forall s,
  Js.endsWith s p = true -> exists front, s = front ++ p.
Proof.
  induction s as [|c s IH]; cbn [Js.endsWith].
  - destruct (String.eqb_spec "" p) as [<-|]; [|discriminate]. now exists "".
  - destruct (String.eqb_spec (String c s) p) as [<-|_]; [now exists ""|].
    intros H. destruct (IH H) as (front & ->). now exists (String c front).
Qed.

(** A text that ends in a brace does not start with a white space character
    that reaches beyond it. *)
Lemma skip_space_braced b tail r :
  Js.endsWith b "}" = true ->
  Js.skip_space (b ++ tail) = Some r ->
  exists b', Js.skip_space b = Some b' /\ r = b' ++ tail
             /\ Js.endsWith b' "}" = true.
Proof.
  intros Hend Hr. destruct (endsWith_last "}" b Hend) as (front & Hb).
  destruct (Js.skip_space b) as [b'|] eqn:Hs.
  - exists b'. rewrite (skip_space_app b b' tail Hs) in Hr. injection Hr as <-.
    repeat split. destruct (skip_space_split b b' Hs) as (w & Ew & Hw & _).
    apply (endsWith_suffix "}" w b'); [now rewrite <- Ew|].
    destruct b' as [|c b']; [|cbn; lia]. exfalso.
    rewrite append_nil_r in Ew. subst w.
    assert (Hno : Js.skip_space (front ++ "}") = Some "") by now rewrite <- Hb.
    clear - Hno. destruct front as [|a [|b0 [|c front]]]; cbn [append] in Hno.
    + rewrite skip_space_ascii in Hno by (cbn; lia). discriminate.
    + cbn [Js.skip_space] in Hno. destruct (Js.space1 a); [discriminate|].
      destruct (Js.space2 a "}") eqn:H2; [|discriminate].
      apply space2_bytes in H2. cbn in H2. lia.
    + cbn [Js.skip_space] in Hno. destruct (Js.space1 a); [discriminate|].
      destruct (Js.space2 a b0); [discriminate|].
      destruct (Js.space3 a b0 "}") eqn:H3; [|discriminate].
      apply space3_bytes in H3. cbn in H3. lia.
    + cbn [Js.skip_space] in Hno. destruct (Js.space1 a); [discriminate|].
      destruct (Js.space2 a b0); [discriminate|].
      destruct (Js.space3 a b0 c); [|discriminate].
      injection Hno as Hno. destruct front; discriminate.
  - exfalso. pose proof (skip_space_straddle b tail r Hr Hs front "}" "" Hb) as H.
    cbn in H. lia.
Qed.

(** A text that ends in a brace and holds no fence is, with whatever is put
    behind it, not white space followed by a fence. *)
Lemma closes_false : forall b tail,
  Js.includes b fence = false -> Js.endsWith b "}" = true ->
  closes (b ++ tail) = false.
Proof.
  induction b as [b Hs | b b' Hs IH] using space_ind; intros tail Hinc Hend.
  - assert (Hnone : Js.skip_space (b ++ tail) = None).
    { destruct (Js.skip_space (b ++ tail)) as [r|] eqn:Hr; [|reflexivity].
      destruct (skip_space_braced b tail r Hend Hr) as (b' & Hb' & _). congruence. }
    unfold closes. rewrite (trimStart_none _ Hnone).
    destruct b as [|c b]; [discriminate|].
    apply includes_tail in Hinc as [Hstart Hinc].
    unfold Js.startsWith, fence in *. cbn [append Js.lit] in *.
    destruct (Ascii.eqb "`" c) eqn:E1; [|reflexivity].
    apply Ascii.eqb_eq in E1. subst c.
    destruct b as [|c2 b]; [discriminate Hend|].
    cbn [append]. destruct (Ascii.eqb "`" c2) eqn:E2; [|reflexivity].
    apply Ascii.eqb_eq in E2. subst c2.
    destruct b as [|c3 b]; [discriminate Hend|].
    cbn [append]. destruct (Ascii.eqb "`" c3) eqn:E3; [discriminate Hstart|reflexivity].
  - rewrite (closes_space (b ++ tail) (b' ++ tail)) by now apply skip_space_app.
    destruct (skip_space_split b b' Hs) as (w & Ew & _).
    apply IH.
    + apply (includes_suffix fence w b'). now rewrite <- Ew.
    + destruct (skip_space_braced b "" b') as (b2 & Hb2 & _ & He); try assumption.
      * now rewrite append_nil_r.
      * congruence.
Qed.

Lemma closes_spaces_fence ws rest :
  Js.all_space ws = true -> closes (ws ++ fence ++ rest) = true.
Proof.
  intros Hws. unfold closes. rewrite trimStart_spaces by assumption.
  rewrite trimStart_none by (apply skip_space_ascii; cbn; lia).
  unfold Js.startsWith. now rewrite lit_app.
Qed.

Lemma match_here_no_fence s : lit fence s = None -> match_here s = None.
Proof. unfold match_here. now intros ->. Qed.

(** Without a fence there is no match. *)
Lemma fence_match_none : forall s, Js.includes s fence = false -> fence_match s = None.
Proof.
  induction s as [|c s IH]; intros H.
  - reflexivity.
  - apply includes_tail in H as [Hstart H]. cbn [fence_match].
    rewrite match_here_no_fence, (IH H); [reflexivity|].
    unfold Js.startsWith, lit in *. now destruct (Js.lit fence (String c s)).
Qed.

(** The search passes over everything in front of the first fence. *)
Lemma fence_match_skip : forall prose s,
  find_fence (prose ++ fence) = Some (String.length prose) ->
  fence_match (prose ++ fence ++ s) = fence_match (fence ++ s).
Proof.
  induction prose as [|c prose IH]; intros s H; [reflexivity|].
  cbn [append find_fence String.length] in H.
  destruct (Js.startsWith (String c (prose ++ fence)) fence) eqn:Hstart; [discriminate|].
  destruct (find_fence (prose ++ fence)) as [n|] eqn:Hfind; [|discriminate].
  cbn in H. injection H as ->.
  cbn [append fence_match]. rewrite match_here_no_fence, (IH s eq_refl).
  - reflexivity.
  - unfold lit. rewrite append_assoc.
    apply (lit_none_app fence (String c (prose ++ fence)) s).
    + unfold Js.startsWith in Hstart.
      now destruct (Js.lit fence (String c (prose ++ fence))).
    + cbn. rewrite length_append. cbn. lia.
Qed.

Lemma starts_with_brace j :
  Js.startsWith j "{" = true -> exists j', j = String "{" j'.
Proof.
  unfold Js.startsWith. destruct j as [|c j']; [discriminate|]. cbn [Js.lit].
  destruct (Ascii.eqb_spec "{" c) as [<-|]; [|discriminate]. now exists j'.
Qed.

(** The pattern, tried at a fence that holds a JSON object. *)
Lemma match_here_fenced tag ws1 j ws2 rest :
  tag = "" \/ tag = "json" ->
  Js.all_space ws1 = true ->
  Js.all_space ws2 = true ->
  Js.startsWith j "{" = true ->
  Js.endsWith j "}" = true ->
  Js.includes j fence = false ->
  match_here (fence ++ tag ++ ws1 ++ j ++ ws2 ++ fence ++ rest) = Some j.
Proof.
  intros Htag Hws1 Hws2 Hopen Hclose Hinc.
  destruct (starts_with_brace j Hopen) as [j' Hj].
  unfold match_here, lit. rewrite lit_app.
  set (after_group := fun group s4 : string =>
         spaces s4 (fun s5 => match Js.lit fence s5 with
                              | Some _ => Some group
                              | None => None
                              end)).
  set (after_tag := fun s2 : string =>
         spaces s2 (fun s3 => lazy_any s3 "" after_group)).
  assert (Hgroup : lazy_any (j ++ ws2 ++ fence ++ rest) "" after_group = Some j).
  { apply lazy_any_first.
    - intros a b Hab Hb. unfold after_group.
      rewrite (spaces_then_fence ("" ++ a)), closes_false; [reflexivity| |].
      + apply (includes_suffix fence a b). now rewrite <- Hab.
      + apply (endsWith_suffix "}" a b); [now rewrite <- Hab|].
        destruct b; [contradiction|cbn; lia].
    - unfold after_group.
      rewrite (spaces_then_fence ("" ++ j)), closes_spaces_fence; [reflexivity|assumption]. }
  assert (Hrest : after_tag (ws1 ++ j ++ ws2 ++ fence ++ rest) = Some j).
  { unfold after_tag. apply spaces_greedy; [assumption| |exact Hgroup].
    rewrite Hj. cbn [append]. apply trimStart_none, skip_space_ascii. cbn. lia. }
  destruct Htag as [-> | ->].
  - cbn [append]. unfold optional, lit.
    replace (Js.lit "json" (ws1 ++ j ++ ws2 ++ fence ++ rest)) with (@None string).
    + exact Hrest.
    + symmetry. destruct (all_space_cases ws1 Hws1) as [-> | (ws' & Hs & _)].
      * rewrite Hj. reflexivity.
      * apply (skip_space_lit "j" "son" _ (ws' ++ j ++ ws2 ++ fence ++ rest));
          [cbn; lia | now apply skip_space_app].
  - unfold optional, lit. rewrite lit_app.
    fold after_tag. now rewrite Hrest.
Qed.

End FenceFacts.

(** C7 (as the code has it).  Whatever [JSON.parse] does: (1) when the raw
    text is prose, a fence (tagged json or not), white space, a JSON object
    [j] (a text from "{" to "}") that holds no triple backtick of its own,
    white space, a closing fence and anything behind it, and the opening
    fence is the first fence of the text, then the candidate is [j] itself,
    [j] taken alone is its own candidate, and so the wrapped text parses to
    exactly the record the bare [j] parses to, and fails with "Failed to
    parse AI response" if [j] does not parse; (2) when the raw text holds no
    fence, the candidate is the whole text: it parses to what [JSON.parse]
    makes of it, and if that is not JSON the parse step fails with "Failed to
    parse AI response". *)
Theorem fenced_json_parses_like_bare (JSON_parse : string -> option OptimizeCv.Json) :
  (forall prose tag ws1 j ws2 rest,
     OptimizeCv.find_fence (prose ++ OptimizeCv.fence) = Some (String.length prose) ->
     tag = "" \/ tag = "json" ->
     Js.all_space ws1 = true ->
     Js.all_space ws2 = true ->
     Js.startsWith j "{" = true ->
     Js.endsWith j "}" = true ->
     Js.includes j OptimizeCv.fence = false ->
     let raw := prose ++ OptimizeCv.fence ++ tag ++ ws1 ++ j ++ ws2
                ++ OptimizeCv.fence ++ rest in
     OptimizeCv.jsonString raw = j
     /\ OptimizeCv.jsonString j = j
     /\ (forall record,
           JSON_parse j = Some record ->
           OptimizeCv.parseCV JSON_parse raw = Resolved record
           /\ OptimizeCv.parseCV JSON_parse j = Resolved record)
     /\ (JSON_parse j = None ->
         OptimizeCv.parseCV JSON_parse raw
         = Rejected (ThrownObject (new_Error "Failed to parse AI response"))))
  /\ (forall raw,
        Js.includes raw OptimizeCv.fence = false ->
        OptimizeCv.jsonString raw = raw
        /\ (forall record,
              JSON_parse raw = Some record ->
              OptimizeCv.parseCV JSON_parse raw = Resolved record)
        /\ (JSON_parse raw = None ->
            OptimizeCv.parseCV JSON_parse raw
            = Rejected (ThrownObject (new_Error "Failed to parse AI response")))).
Proof.
  split.
  - intros prose tag ws1 j ws2 rest Hfirst Htag Hws1 Hws2 Hopen Hclose Hinc raw.
    assert (Hraw : OptimizeCv.jsonString raw = j).
    { unfold OptimizeCv.jsonString, raw. rewrite fence_match_skip by assumption.
      destruct (OptimizeCv.fence ++ tag ++ ws1 ++ j ++ ws2 ++ OptimizeCv.fence ++ rest)
        as [|c s] eqn:Htext; [discriminate|].
      cbn [OptimizeCv.fence_match]. rewrite <- Htext.
      now rewrite match_here_fenced. }
    assert (Hbare : OptimizeCv.jsonString j = j).
    { unfold OptimizeCv.jsonString. now rewrite fence_match_none. }
    unfold OptimizeCv.parseCV. rewrite Hraw, Hbare.
    split; [reflexivity|]. split; [reflexivity|]. split.
    + intros record ->. now split.
    + now intros ->.
  - intros raw Hinc.
    assert (Hraw : OptimizeCv.jsonString raw = raw).
    { unfold OptimizeCv.jsonString. now rewrite fence_match_none. }
    unfold OptimizeCv.parseCV. rewrite Hraw.
    split; [reflexivity|]. split; [now intros record -> | now intros ->].
Qed.

Lemma fenced_json_parses_like_bare_witness :
  OptimizeCv.parseCV Sample.parse_braces "Here you go: ```json {} ``` Done."
  = Resolved (OptimizeCv.JObject [])
  /\ OptimizeCv.parseCV Sample.parse_braces Sample.bare_json
     = Resolved (OptimizeCv.JObject [])
  /\ OptimizeCv.parseCV Sample.parse_braces "Sorry, I cannot help with that."
     = Rejected OptimizeCv.parse_failure.
Proof.
  destruct (fenced_json_parses_like_bare Sample.parse_braces) as [Hfenced Hprose].
  pose proof (Hfenced "Here you go: " "json" " " Sample.bare_json " " " Done."
                eq_refl (or_intror eq_refl) eq_refl eq_refl eq_refl eq_refl eq_refl)
    as H.
  cbv zeta in H. destruct H as (_ & _ & H & _).
  destruct (H (OptimizeCv.JObject []) eq_refl) as [Hraw Hbare].
  split; [exact Hraw|]. split; [exact Hbare|].
  destruct (Hprose "Sorry, I cannot help with that." eq_refl) as (_ & _ & Hfail).
  now apply Hfail.
Defined.

(** C7 as worded fails for a JSON object that holds a triple backtick, here
    inside a string value: the lazy group ends at that inner backtick run,
    so the candidate is the object cut short, which does not parse, while
    the bare object does.  ([parse_braces] stands in for [JSON.parse], which
    accepts this object and rejects the cut text just the same.) *)
Lemma fenced_json_cut_at_inner_fence :
  Js.startsWith Cases.json_with_fence "{" = true
  /\ Js.endsWith Cases.json_with_fence "}" = true
  /\ OptimizeCv.jsonString Cases.reply_with_inner_fence = Cases.json_cut_short
  /\ OptimizeCv.parseCV Sample.parse_braces Cases.json_with_fence
     = Resolved (OptimizeCv.JObject [])
  /\ OptimizeCv.parseCV Sample.parse_braces Cases.reply_with_inner_fence
     = Rejected OptimizeCv.parse_failure.
Proof. vm_compute. repeat split; reflexivity. Qed.

(** The pattern at work. *)
Example fence_untagged :
  OptimizeCv.jsonString "```{}```" = "{}".
Proof. reflexivity. Qed.

Example fence_unclosed :
  OptimizeCv.jsonString "```json {}" = "```json {}".
Proof. reflexivity. Qed.

Example fence_first_of_two :
  OptimizeCv.jsonString "a ``` {1} ``` b ``` {2} ```" = "{1}".
Proof. reflexivity. Qed.

(* ------------------------------------------------------------------ *)
(** ** The export codecs *)

Section PdfFacts.

Import FileGenerator.

Variable pageWidth pageHeight : Q.
Variable splitTextToSize : string -> Q -> list string.

Local Abbreviation addText := (addText pageWidth pageHeight splitTextToSize).
Local Abbreviation addHighlight := (addHighlight pageWidth splitTextToSize).
Local Abbreviation addExperience := (addExperience pageWidth pageHeight splitTextToSize).
Local Abbreviation addEducation := (addEducation pageWidth pageHeight splitTextToSize).
Local Abbreviation render := (render pageWidth pageHeight splitTextToSize).

Lemma forEach_invariant {A} (J : St -> Prop) (f : A -> Gen unit) :
  forall xs,
    (forall x, In x xs -> forall s, J s -> J (snd (f x s))) ->
    forall s, J s -> J (snd (forEach xs f s)).
Proof.
  induction xs as [|x xs IH]; intros Hf s Hs; [exact Hs|].
  cbn [forEach]. unfold bind. destruct (f x s) as [[] s1] eqn:Hfx.
  apply IH.
  - intros y Hy. apply Hf. now right.
  - change s1 with (snd (tt, s1)). rewrite <- Hfx. apply Hf; [now left|exact Hs].
Qed.

Variable t : string.

(** [addText] draws no heading [t], unless it draws in the heading face a
    block one of whose lines is [t]. *)
Lemma addText_no_heading block size isBold :
  (Qeq_bool size 14 && isBold)%bool = false
  \/ (forall line, In line (splitTextToSize block (maxWidth pageWidth)) ->
                   String.eqb line t = false) ->
  forall s, no_heading t s -> no_heading t (snd (addText block size isBold s)).
Proof.
  intros Hok s Hs. unfold FileGenerator.addText.
  unfold bind at 1. cbn [setFontSize on_doc]. unfold bind at 1. cbn [setFont on_doc].
  unfold bind at 1.
  set (J := fun s' : St => no_heading t s' /\ fontSize (doc s') = size
                           /\ fontBold (doc s') = isBold).
  match goal with
  | |- context [forEach ?xs ?f ?s0] =>
      assert (HJ : J (snd (forEach xs f s0)))
  end.
  { apply forEach_invariant.
    - intros line Hline s1 (Hno & Hsize & Hbold).
      unfold bind, get_y, when, text, advance, on_doc, addPage, set_y, ret.
      destruct (gtb (yPosition s1) (pageHeight - 30)); cbn;
        (split; [|now split]);
        unfold no_heading in *; cbn; rewrite existsb_app, Hno; cbn;
        unfold pdf_heading; cbn; rewrite Hsize, Hbold;
        (destruct Hok as [Hface | Hlines];
         [ rewrite <- andb_assoc, Hface; now rewrite andb_false_r
         | now rewrite (Hlines line Hline) ]).
    - unfold J. cbn. now repeat split. }
  destruct (forEach _ _ _) as [[] s2]. cbn in *. apply HJ.
Qed.

(** A highlight is drawn at 10 points, never as a heading. *)
Lemma addHighlight_no_heading highlight :
  forall s, no_heading t s -> no_heading t (snd (addHighlight highlight s)).
Proof.
  intros s Hs. unfold FileGenerator.addHighlight.
  unfold bind at 1. cbn [setFontSize on_doc].
  unfold bind at 1. cbn [get_y]. unfold bind at 1. cbn [text on_doc].
  set (J := fun s' : St => no_heading t s' /\ fontSize (doc s') = 10%Q).
  match goal with
  | |- context [forEach ?xs ?f ?s0] =>
      assert (HJ : J (snd (forEach xs f s0)))
  end.
  { apply forEach_invariant.
    - intros line _ s1 (Hno & Hsize).
      unfold bind, get_y, text, advance, on_doc. cbn. split; [|assumption].
      unfold no_heading in *. cbn. rewrite existsb_app, Hno. cbn.
      unfold pdf_heading. cbn. rewrite Hsize.
      now rewrite andb_false_r.
    - split; [|reflexivity]. unfold no_heading in *. cbn.
      rewrite existsb_app, Hs. cbn. unfold pdf_heading. cbn.
      now rewrite andb_false_r. }
  apply HJ.
Qed.

Lemma bind_no_heading {A B} (m : Gen A) (k : A -> Gen B) :
  (forall s, no_heading t s -> no_heading t (snd (m s))) ->
  (forall a s, no_heading t s -> no_heading t (snd (k a s))) ->
  forall s, no_heading t s -> no_heading t (snd (bind m k s)).
Proof.
  intros Hm Hk s Hs. unfold bind. specialize (Hm s Hs).
  destruct (m s) as [a s1]. now apply Hk.
Qed.

Lemma advance_no_heading dy :
  forall s, no_heading t s -> no_heading t (snd (advance dy s)).
Proof. intros s Hs. exact Hs. Qed.

Lemma forEach_no_heading {A} (f : A -> Gen unit) xs :
  (forall x s, no_heading t s -> no_heading t (snd (f x s))) ->
  forall s, no_heading t s -> no_heading t (snd (forEach xs f s)).
Proof. intros Hf. apply forEach_invariant. intros x _. apply Hf. Qed.

(** The library's line breaker hands back pieces of the text it is given. *)
Hypothesis lines_are_pieces :
  forall block width line,
    In line (splitTextToSize block width) -> Js.includes block line = true.

Lemma other_heading_lines block :
  Js.includes block t = false ->
  forall line, In line (splitTextToSize block (maxWidth pageWidth)) ->
               String.eqb line t = false.
Proof.
  intros Hnot line Hline. apply String.eqb_neq. intros ->.
  apply lines_are_pieces in Hline. congruence.
Qed.

Ltac then_ tac := apply bind_no_heading; [ tac | intros _ ].
Ltac plain_text := apply addText_no_heading; now left.
Ltac title_text := apply addText_no_heading; right; now apply other_heading_lines.

Lemma addExperience_no_heading exp :
  forall s, no_heading t s -> no_heading t (snd (addExperience exp s)).
Proof.
  unfold FileGenerator.addExperience.
  then_ plain_text. then_ plain_text.
  then_ ltac:(apply forEach_no_heading; intros h; apply addHighlight_no_heading).
  apply advance_no_heading.
Qed.

Lemma addEducation_no_heading edu :
  forall s, no_heading t s -> no_heading t (snd (addEducation edu s)).
Proof.
  unfold FileGenerator.addEducation.
  then_ plain_text. then_ plain_text. apply advance_no_heading.
Qed.

(** Without skills, [render] draws a heading [t] only if [t] is part of one
    of the other three section titles. *)
Lemma render_no_heading cvData :
  non_empty (skills cvData) = false ->
  Js.includes "PROFESSIONAL SUMMARY" t = false ->
  Js.includes "PROFESSIONAL EXPERIENCE" t = false ->
  Js.includes "EDUCATION" t = false ->
  forall s, no_heading t s -> no_heading t (snd (render cvData s)).
Proof.
  intros Hskills Hsum Hexp Hedu. unfold FileGenerator.render. rewrite Hskills.
  apply bind_no_heading; [|intros _; apply bind_no_heading; [|intros _;
    apply bind_no_heading; [|intros _; apply bind_no_heading; [|intros _]]]].
  - destruct (header cvData) as [h|]; [|now intros s Hs].
    then_ plain_text. then_ plain_text. apply advance_no_heading.
  - destruct (summary cvData) as [text|]; [|now intros s Hs].
    destruct (Js.truthy_string text); [|now intros s Hs]. cbn [when].
    then_ title_text. then_ plain_text. apply advance_no_heading.
  - now intros s Hs.
  - destruct (non_empty (experience cvData)); [|now intros s Hs]. cbn [when].
    then_ title_text.
    apply forEach_no_heading. intros e. apply addExperience_no_heading.
  - destruct (non_empty (education cvData)); [|now intros s Hs]. cbn [when].
    then_ title_text.
    apply forEach_no_heading. intros e. apply addEducation_no_heading.
Qed.

End PdfFacts.

Lemma docxExperience_no_heading t exp :
  existsb (FileGenerator.docx_heading t) (FileGenerator.docxExperience exp) = false.
Proof.
  unfold FileGenerator.docxExperience. rewrite !existsb_app. cbn.
  induction (FileGenerator.highlights exp); cbn; [reflexivity|assumption].
Qed.

Lemma existsb_flat_map {A B} (p : B -> bool) (f : A -> list B) (xs : list A) :
  (forall x, existsb p (f x) = false) -> existsb p (flat_map f xs) = false.
Proof.
  intros Hf. induction xs as [|x xs IH]; cbn; [reflexivity|].
  now rewrite existsb_app, Hf, IH.
Qed.

(** C8.  For every resume whose [skills] is the empty sequence or absent:
    the PDF has no line "KEY SKILLS" in the heading face (14 point bold),
    given that the library's line breaker returns pieces of the text it is
    handed; and the DOCX has no [HEADING_1] paragraph "KEY SKILLS". *)
Theorem no_skills_no_heading
  (pageWidth pageHeight : Q) (splitTextToSize : string -> Q -> list string)
  (cvData : FileGenerator.CVData) :
  (forall block width line,
     In line (splitTextToSize block width) -> Js.includes block line = true) ->
  FileGenerator.skills cvData = Some [] \/ FileGenerator.skills cvData = None ->
  existsb (FileGenerator.pdf_heading "KEY SKILLS")
          (FileGenerator.ops
             (FileGenerator.generatePDF pageWidth pageHeight splitTextToSize cvData))
  = false
  /\ existsb (FileGenerator.docx_heading "KEY SKILLS")
             (FileGenerator.generateDOCX cvData)
     = false.
Proof.
  intros Hsplit Hskills.
  assert (Hempty : FileGenerator.non_empty (FileGenerator.skills cvData) = false)
    by (destruct Hskills as [-> | ->]; reflexivity).
  split.
  - unfold FileGenerator.generatePDF.
    apply (render_no_heading pageWidth pageHeight splitTextToSize "KEY SKILLS" Hsplit);
      try reflexivity; assumption.
  - unfold FileGenerator.generateDOCX. rewrite Hempty, !existsb_app.
    destruct (FileGenerator.header cvData); cbn [existsb FileGenerator.docx_heading
      FileGenerator.heading orb].
    all: destruct (FileGenerator.summary cvData) as [text|];
      [destruct (Js.truthy_string text)|].
    all: destruct (FileGenerator.non_empty (FileGenerator.experience cvData));
      destruct (FileGenerator.non_empty (FileGenerator.education cvData)).
    all: cbn; rewrite ?existsb_flat_map; try reflexivity.
    all: intros x; try apply docxExperience_no_heading; reflexivity.
Qed.

Lemma lit_self s : Js.lit s s = Some "".
Proof. rewrite <- (append_nil_r s) at 2. apply lit_app. Qed.

Lemma includes_self s : Js.includes s s = true.
Proof. destruct s; cbn [Js.includes]; unfold Js.startsWith; now rewrite lit_self. Qed.

Lemma one_line_is_piece block width line :
  In line (Sample.one_line block width) -> Js.includes block line = true.
Proof. intros [<- | []]. apply includes_self. Qed.

Lemma no_skills_no_heading_witness :
  existsb (FileGenerator.pdf_heading "KEY SKILLS")
          (FileGenerator.ops
             (FileGenerator.generatePDF 210 297 Sample.one_line Sample.cv_no_skills))
  = false
  /\ existsb (FileGenerator.docx_heading "KEY SKILLS")
             (FileGenerator.generateDOCX Sample.cv_no_skills)
     = false.
Proof.
  apply (no_skills_no_heading 210 297 Sample.one_line Sample.cv_no_skills).
  - exact one_line_is_piece.
  - left. reflexivity.
Defined.

(** With a skill to show, both codecs do emit the heading. *)
Example skills_heading_present :
  existsb (FileGenerator.pdf_heading "KEY SKILLS")
          (FileGenerator.ops
             (FileGenerator.generatePDF 210 297 Sample.one_line Sample.cv_long))
  = true
  /\ existsb (FileGenerator.docx_heading "KEY SKILLS")
             (FileGenerator.generateDOCX Sample.cv_long)
     = true.
Proof. split; vm_compute; reflexivity. Qed.

(** The highlights loop draws on the current page, wherever the cursor is. *)
Lemma addHighlight_keeps_page
  (pageWidth : Q) (splitTextToSize : string -> Q -> list string)
  (highlight : string) (s : FileGenerator.St) :
  FileGenerator.pages (FileGenerator.doc
    (snd (FileGenerator.addHighlight pageWidth splitTextToSize highlight s)))
  = FileGenerator.pages (FileGenerator.doc s).
Proof.
  unfold FileGenerator.addHighlight.
  unfold FileGenerator.bind at 1. cbn [FileGenerator.setFontSize FileGenerator.on_doc].
  unfold FileGenerator.bind at 1. cbn [FileGenerator.get_y].
  unfold FileGenerator.bind at 1. cbn [FileGenerator.text FileGenerator.on_doc].
  match goal with
  | |- FileGenerator.pages (FileGenerator.doc (snd (FileGenerator.forEach ?xs ?f ?s0))) = _ =>
      apply (forEach_invariant
               (fun s' => FileGenerator.pages (FileGenerator.doc s')
                          = FileGenerator.pages (FileGenerator.doc s)) f xs)
  end.
  - intros line _ s1 Hs1. cbn. exact Hs1.
  - reflexivity.
Qed.

(** C2 (what the code does instead).  On an A4 page (210 x 297), with blocks
    that fit in one line each, the resume [Sample.cv_long] (one position,
    sixty highlights) comes out with all sixty highlight lines on page 1:
    thirty-two of them are drawn below the page-break threshold
    [297 - 30] without a page break, twenty-six of those below the bottom
    edge of the page.  [addText] checks the cursor before each of its lines;
    the highlights loop never does. *)
Theorem highlights_overflow_page :
  let pdf := FileGenerator.generatePDF 210 297 Sample.one_line Sample.cv_long in
  let highlight_lines :=
    filter (fun op => String.eqb (FileGenerator.op_text op) "Shipped a feature.")
           (FileGenerator.ops pdf) in
  List.length highlight_lines = 60%nat
  /\ forallb (fun op => Nat.eqb (FileGenerator.op_page op) 1) highlight_lines = true
  /\ List.length
       (filter (fun op => FileGenerator.gtb (FileGenerator.op_y op) (297 - 30))
               highlight_lines) = 32%nat
  /\ List.length
       (filter (fun op => FileGenerator.gtb (FileGenerator.op_y op) 297)
               highlight_lines) = 26%nat.
Proof. vm_compute. repeat split; reflexivity. Qed.

(* ------------------------------------------------------------------ *)
(** ** The text extractors *)

Section ExtractorFacts.

Import FileParser.

Lemma bindO_resolved {A B} (m : Outcome A) (k : A -> Outcome B) (b : B) :
  bindO m k = Resolved b -> exists a, m = Resolved a /\ k a = Resolved b.
Proof. destruct m as [a|x]; cbn; [|discriminate]. intros H. now exists a. Qed.

(** What the [catch] clauses build is a report of what was thrown. *)
Lemma reports_caught x fixed :
  reports x fixed (mkParseResult "" (Some (message_or x fixed))).
Proof.
  split; [reflexivity|]. cbn [error].
  destruct x as [| | s | o]; try (right; split; [discriminate | reflexivity]).
  cbn [message_or]. destruct (is_Error o) eqn:Ho.
  - left. now exists o.
  - right. split; [|reflexivity]. intros o' E. now injection E as <-.
Qed.

(** A [try] whose handler resolves, resolves. *)
Lemma try_catch_resolves {A} (body : Outcome A) (handler : JsThrown -> A) :
  exists r, try_catch body (fun error => Resolved (handler error)) = Resolved r.
Proof. destruct body as [r|x]; cbn [try_catch]; eexists; reflexivity. Qed.

(** The disjunctions of the dispatcher. *)
Lemma is_pdf_test file :
  (String.eqb (file_type file) "application/pdf"
   || Js.endsWith (Js.toLowerCase (file_name file)) ".pdf")%bool = true
  <-> is_pdf file.
Proof.
  unfold is_pdf, named. rewrite orb_true_iff, String.eqb_eq. reflexivity.
Qed.

Lemma is_docx_test file :
  (String.eqb (file_type file)
     "application/vnd.openxmlformats-officedocument.wordprocessingml.document"
   || String.eqb (file_type file) "application/msword"
   || Js.endsWith (Js.toLowerCase (file_name file)) ".docx"
   || Js.endsWith (Js.toLowerCase (file_name file)) ".doc")%bool = true
  <-> is_docx file.
Proof.
  unfold is_docx, named. rewrite !orb_true_iff, !String.eqb_eq. tauto.
Qed.

Lemma is_txt_test file :
  (String.eqb (file_type file) "text/plain"
   || Js.endsWith (Js.toLowerCase (file_name file)) ".txt")%bool = true
  <-> is_txt file.
Proof.
  unfold is_txt, named. rewrite orb_true_iff, String.eqb_eq. reflexivity.
Qed.

End ExtractorFacts.

Section PageFacts.

Import FileParser.

Variable pdf : PDFDocumentProxy.
Variable items : Z -> list string.

Lemma read_page_resolved i l :
  Pages.read_page pdf i = Resolved l ->
  exists page, getPage pdf i = Resolved page /\ getTextContent page = Resolved l.
Proof.
  unfold Pages.read_page. destruct (getPage pdf i) as [page|x]; [|discriminate].
  intros H. now exists page.
Qed.

(** The loop over readable pages. *)
Lemma read_pages_readable n :
  forall i fullText,
    (forall j, i <= j < i + Z.of_nat n -> Pages.read_page pdf j = Resolved (items j)) ->
    read_pages pdf n i fullText = Resolved (fullText ++ Pages.text_of items i n).
Proof.
  induction n as [|n IH]; intros i fullText Hread.
  - cbn. now rewrite append_nil_r.
  - cbn [read_pages Pages.text_of].
    destruct (read_page_resolved i (items i)) as (page & Hpage & Hitems);
      [apply Hread; lia|].
    rewrite Hpage. cbn [bindO]. rewrite Hitems. cbn [bindO].
    rewrite IH by (intros j Hj; apply Hread; lia).
    now rewrite <- !append_assoc.
Qed.

(** The loop up to the first page that cannot be read. *)
Lemma read_pages_unreadable k :
  forall n i fullText x,
    (k < n)%nat ->
    (forall j, i <= j < i + Z.of_nat k -> Pages.read_page pdf j = Resolved (items j)) ->
    Pages.read_page pdf (i + Z.of_nat k) = Rejected x ->
    read_pages pdf n i fullText = Rejected x.
Proof.
  induction k as [|k IH]; intros n i fullText x Hk Hread Hbad;
    (destruct n as [|n]; [lia|]); cbn [read_pages].
  - rewrite Z.add_0_r in Hbad. unfold Pages.read_page in Hbad.
    destruct (getPage pdf i) as [page|y]; cbn [bindO]; [|congruence].
    now rewrite Hbad.
  - destruct (read_page_resolved i (items i)) as (page & Hpage & Hitems);
      [apply Hread; lia|].
    rewrite Hpage. cbn [bindO]. rewrite Hitems. cbn [bindO].
    apply (IH n (i + 1)); [lia| |].
    + intros j Hj. apply Hread. lia.
    + now replace (i + 1 + Z.of_nat k) with (i + Z.of_nat (S k)) by lia.
Qed.

End PageFacts.

(** C9 (as the code has it).  For every file and whatever the decoding
    libraries do, each of the four extractors resolves and never rejects.
    Where every step of the decoding goes through, the result is the trimmed
    text without [error].  Where a step fails (reading the file, loading the
    document, reading a page, extracting the raw text) with the thrown value
    [x], the result is the report [{ text: "", error: m }], [m] being the
    message of [x] when [x] is an [Error] and the extractor's fixed text when
    it is not.  The dispatcher hands the file to the extractor of its kind,
    told by the declared type or the end of the lowercased name, and returns
    the report with the fixed unsupported-type text for every other file. *)
Theorem extractors_always_resolve
  (pdfjs_getDocument : FileParser.ArrayBuffer -> Outcome FileParser.PDFDocumentProxy)
  (mammoth_extractRawText : FileParser.ArrayBuffer -> Outcome string)
  (file : FileParser.File) :
  let PDF := FileParser.extractTextFromPDF pdfjs_getDocument file in
  let DOCX := FileParser.extractTextFromDOCX mammoth_extractRawText file in
  let TXT := FileParser.extractTextFromTXT file in
  let ANY := FileParser.extractTextFromFile pdfjs_getDocument mammoth_extractRawText
                                             file in
  (* no extractor rejects *)
  ((exists r, PDF = Resolved r) /\ (exists r, DOCX = Resolved r)
   /\ (exists r, TXT = Resolved r) /\ (exists r, ANY = Resolved r))
  (* extractTextFromTXT *)
  /\ (forall t,
        FileParser.file_text file = Resolved t ->
        TXT = Resolved (FileParser.mkParseResult (Js.trim t) None))
  /\ (forall x,
        FileParser.file_text file = Rejected x ->
        exists r, TXT = Resolved r /\ FileParser.reports x "Failed to parse TXT" r)
  (* extractTextFromDOCX *)
  /\ (forall buf value,
        FileParser.arrayBuffer file = Resolved buf ->
        mammoth_extractRawText buf = Resolved value ->
        DOCX = Resolved (FileParser.mkParseResult (Js.trim value) None))
  /\ (forall x,
        FileParser.arrayBuffer file = Rejected x
        \/ (exists buf, FileParser.arrayBuffer file = Resolved buf
                        /\ mammoth_extractRawText buf = Rejected x) ->
        exists r, DOCX = Resolved r /\ FileParser.reports x "Failed to parse DOCX" r)
  (* extractTextFromPDF *)
  /\ (forall buf pdf items,
        FileParser.arrayBuffer file = Resolved buf ->
        pdfjs_getDocument buf = Resolved pdf ->
        (forall j, 1 <= j <= Z.of_nat (FileParser.numPages pdf) ->
                   Pages.read_page pdf j = Resolved (items j)) ->
        PDF = Resolved (FileParser.mkParseResult
                          (Js.trim (Pages.text_of items 1 (FileParser.numPages pdf)))
                          None))
  /\ (forall x,
        FileParser.arrayBuffer file = Rejected x
        \/ (exists buf, FileParser.arrayBuffer file = Resolved buf
                        /\ pdfjs_getDocument buf = Rejected x)
        \/ (exists buf pdf items k,
              FileParser.arrayBuffer file = Resolved buf
              /\ pdfjs_getDocument buf = Resolved pdf
              /\ 1 <= k <= Z.of_nat (FileParser.numPages pdf)
              /\ (forall j, 1 <= j < k -> Pages.read_page pdf j = Resolved (items j))
              /\ Pages.read_page pdf k = Rejected x) ->
        exists r, PDF = Resolved r /\ FileParser.reports x "Failed to parse PDF" r)
  (* extractTextFromFile *)
  /\ (FileParser.is_pdf file -> ANY = PDF)
  /\ (~ FileParser.is_pdf file -> FileParser.is_docx file -> ANY = DOCX)
  /\ (~ FileParser.is_pdf file -> ~ FileParser.is_docx file ->
      FileParser.is_txt file -> ANY = TXT)
  /\ (~ FileParser.is_pdf file -> ~ FileParser.is_docx file ->
      ~ FileParser.is_txt file ->
      ANY = Resolved (FileParser.mkParseResult ""
                        (Some "Unsupported file type. Please upload PDF, DOCX, or TXT."))).
Proof.
  intros PDF DOCX TXT ANY.
  assert (Hpdf : exists r, PDF = Resolved r) by apply try_catch_resolves.
  assert (Hdocx : exists r, DOCX = Resolved r) by apply try_catch_resolves.
  assert (Htxt : exists r, TXT = Resolved r) by apply try_catch_resolves.
  assert (Hroute :
    (FileParser.is_pdf file -> ANY = PDF)
    /\ (~ FileParser.is_pdf file -> FileParser.is_docx file -> ANY = DOCX)
    /\ (~ FileParser.is_pdf file -> ~ FileParser.is_docx file ->
        FileParser.is_txt file -> ANY = TXT)
    /\ (~ FileParser.is_pdf file -> ~ FileParser.is_docx file ->
        ~ FileParser.is_txt file ->
        ANY = Resolved (FileParser.mkParseResult ""
                          (Some "Unsupported file type. Please upload PDF, DOCX, or TXT.")))).
  { unfold ANY, FileParser.extractTextFromFile. cbv zeta.
    pose proof (is_pdf_test file) as Tpdf.
    pose proof (is_docx_test file) as Tdocx.
    pose proof (is_txt_test file) as Ttxt.
    destruct (_ || _)%bool in Tpdf |- *.
    { repeat split; try reflexivity; intros H; exfalso; apply H; now apply Tpdf. }
    destruct (_ || _)%bool in Tdocx |- *.
    { repeat split; try reflexivity.
      - intros H. apply Tpdf in H. discriminate H.
      - intros _ H. exfalso. apply H. now apply Tdocx.
      - intros _ H. exfalso. apply H. now apply Tdocx. }
    destruct (_ || _)%bool in Ttxt |- *.
    { repeat split; try reflexivity.
      - intros H. apply Tpdf in H. discriminate H.
      - intros _ H. apply Tdocx in H. discriminate H.
      - intros _ _ H. exfalso. apply H. now apply Ttxt. }
    repeat split; try reflexivity.
    - intros H. apply Tpdf in H. discriminate H.
    - intros _ H. apply Tdocx in H. discriminate H.
    - intros _ _ H. apply Ttxt in H. discriminate H. }
  split.
  { repeat split; try assumption.
    unfold ANY, FileParser.extractTextFromFile. cbv zeta.
    destruct (_ || _)%bool; [exact Hpdf|].
    destruct (_ || _)%bool; [exact Hdocx|].
    destruct (_ || _)%bool; [exact Htxt|]. eexists. reflexivity. }
  split.
  { intros t Ht. unfold TXT, FileParser.extractTextFromTXT. now rewrite Ht. }
  split.
  { intros x Hx. eexists. split.
    - unfold TXT, FileParser.extractTextFromTXT. rewrite Hx. reflexivity.
    - apply reports_caught. }
  split.
  { intros buf value Hbuf Hvalue. unfold DOCX, FileParser.extractTextFromDOCX.
    rewrite Hbuf. cbn [FileParser.bindO]. now rewrite Hvalue. }
  split.
  { intros x [Hx | (buf & Hbuf & Hx)]; eexists; (split; [|apply reports_caught]);
      unfold DOCX, FileParser.extractTextFromDOCX.
    - rewrite Hx. reflexivity.
    - rewrite Hbuf. cbn [FileParser.bindO]. rewrite Hx. reflexivity. }
  split.
  { intros buf pdf items Hbuf Hdoc Hread. unfold PDF, FileParser.extractTextFromPDF.
    rewrite Hbuf. cbn [FileParser.bindO]. rewrite Hdoc. cbn [FileParser.bindO].
    rewrite (read_pages_readable pdf items) by (intros j Hj; apply Hread; lia).
    reflexivity. }
  split; [|exact Hroute].
  intros x [Hx | [(buf & Hbuf & Hx) | (buf & pdf & items & k & Hbuf & Hdoc & Hk & Hread & Hx)]];
    eexists; (split; [|apply reports_caught]);
    unfold PDF, FileParser.extractTextFromPDF.
  - rewrite Hx. reflexivity.
  - rewrite Hbuf. cbn [FileParser.bindO]. rewrite Hx. reflexivity.
  - rewrite Hbuf. cbn [FileParser.bindO]. rewrite Hdoc. cbn [FileParser.bindO].
    rewrite (read_pages_unreadable pdf items (Z.to_nat (k - 1)) _ 1 "" x).
    + reflexivity.
    + lia.
    + intros j Hj. apply Hread. lia.
    + now replace (1 + Z.of_nat (Z.to_nat (k - 1))) with k by lia.
Qed.

(** C9 as worded fails where an [Error] without a message is thrown: the
    text extractor, and the dispatcher with it, resolve to
    [{ text: "", error: "" }], which is neither a text without [error] nor a
    failure with a message that is not empty. *)
Lemma extractor_empty_error_message :
  FileParser.extractTextFromTXT Sample.unreadable
  = Resolved (FileParser.mkParseResult "" (Some ""))
  /\ ~ (exists r, FileParser.extractTextFromTXT Sample.unreadable = Resolved r
                  /\ FileParser.text_or_nonempty_error r)
  /\ ~ (exists r, FileParser.extractTextFromFile Sample.no_pdf Sample.no_docx
                    Sample.unreadable = Resolved r
                  /\ FileParser.text_or_nonempty_error r).
Proof.
  split; [reflexivity|].
  split; intros (r & Hr & Hclaim); vm_compute in Hr; injection Hr as <-;
    destruct Hclaim as [Hnone | (_ & m & Hm & Hne)];
    try discriminate Hnone; injection Hm as <-; now apply Hne.
Qed.

Lemma extractors_always_resolve_witness :
  (exists r, FileParser.extractTextFromTXT Sample.unreadable = Resolved r
             /\ FileParser.reports (ThrownObject (new_Error "")) "Failed to parse TXT" r)
  /\ FileParser.extractTextFromFile Sample.no_pdf Sample.no_docx Cases.spreadsheet
     = Resolved (FileParser.mkParseResult ""
                   (Some "Unsupported file type. Please upload PDF, DOCX, or TXT.")).
Proof.
  split.
  - destruct (extractors_always_resolve Sample.no_pdf Sample.no_docx Sample.unreadable)
      as (_ & _ & Htxt & _).
    now apply Htxt.
  - destruct (extractors_always_resolve Sample.no_pdf Sample.no_docx Cases.spreadsheet)
      as (_ & _ & _ & _ & _ & _ & _ & _ & _ & _ & Hother).
    apply Hother; vm_compute; intuition discriminate.
Defined.

(** The extractors at work. *)
Example extract_txt :
  FileParser.extractTextFromFile Sample.no_pdf Sample.no_docx Sample.readable
  = Resolved (FileParser.mkParseResult "Ada Lovelace" None).
Proof. reflexivity. Qed.

(* ------------------------------------------------------------------ *)
(** ** The stored match score *)

(** C10.  Whenever a row is handed to [insert] (the user is authenticated
    and the keys are set), its [match_score] is [parsedCV.matchScore || null]:
    for a parsed record with the member [matchScore], that member itself
    when it is truthy and [null] when it is falsy, in particular the number
    0; [null] for a record without the member, and for a parsed value that
    is no record at all.  The parsed value itself is stored unchanged. *)
Theorem match_score_or_null
  (userId : option string) (supabaseUrl supabaseKey : string)
  (jobDescription : OptimizeCv.Json) (jobRole : option OptimizeCv.Json)
  (parsedCV : OptimizeCv.Json) (row : OptimizeCv.Row) :
  OptimizeCv.inserted userId supabaseUrl supabaseKey jobDescription jobRole parsedCV
    = Some row ->
  OptimizeCv.optimized_content row = parsedCV
  /\ (forall members,
        parsedCV = OptimizeCv.JObject members ->
        (forall v, OptimizeCv.lookup "matchScore" members = Some v ->
                   OptimizeCv.truthy v = true ->
                   OptimizeCv.match_score row = v)
        /\ (forall v, OptimizeCv.lookup "matchScore" members = Some v ->
                      OptimizeCv.truthy v = false ->
                      OptimizeCv.match_score row = OptimizeCv.JNull)
        /\ (forall q, OptimizeCv.lookup "matchScore" members
                      = Some (OptimizeCv.JNumber q) ->
                      (q == 0)%Q ->
                      OptimizeCv.match_score row = OptimizeCv.JNull)
        /\ (OptimizeCv.lookup "matchScore" members = None ->
            OptimizeCv.match_score row = OptimizeCv.JNull))
  /\ ((forall members, parsedCV <> OptimizeCv.JObject members) ->
      OptimizeCv.match_score row = OptimizeCv.JNull).
Proof.
  unfold OptimizeCv.inserted, OptimizeCv.row_of. intros H.
  destruct userId as [uid|]; [|discriminate].
  destruct (_ && _)%bool; [|discriminate].
  destruct (OptimizeCv.get parsedCV "matchScore") as [matchScore|x] eqn:Hget;
    [|discriminate].
  injection H as <-. cbn [OptimizeCv.match_score OptimizeCv.optimized_content].
  split; [reflexivity|]. split.
  - intros members ->. cbn [OptimizeCv.get] in Hget. injection Hget as <-.
    repeat split.
    + intros v -> Hv. cbn. now rewrite Hv.
    + intros v -> Hv. cbn. now rewrite Hv.
    + intros q -> Hq. cbn. apply Qeq_bool_iff in Hq. now rewrite Hq.
    + now intros ->.
  - intros Hnot. destruct parsedCV; cbn [OptimizeCv.get] in Hget;
      try discriminate Hget; try (injection Hget as <-; reflexivity).
    now destruct (Hnot members).
Qed.

Lemma match_score_or_null_witness :
  OptimizeCv.match_score Sample.row_85 = OptimizeCv.JNumber 85
  /\ OptimizeCv.match_score Sample.row_zero = OptimizeCv.JNull.
Proof.
  split.
  - destruct (match_score_or_null (Some "user-1") "https://db.example" "key"
                (OptimizeCv.JString "Backend engineer") None Sample.scored_85
                Sample.row_85 eq_refl) as (_ & Hrecord & _).
    destruct (Hrecord _ eq_refl) as (Htruthy & _).
    now apply Htruthy.
  - destruct (match_score_or_null (Some "user-1") "https://db.example" "key"
                (OptimizeCv.JString "Backend engineer") None Sample.scored_zero
                Sample.row_zero eq_refl) as (_ & Hrecord & _).
    destruct (Hrecord _ eq_refl) as (_ & Hfalsy & _).
    now apply (Hfalsy (OptimizeCv.JNumber 0)).
Defined.

(** A score of zero is stored as [null], a score of 85 as 85. *)
Example match_score_stored :
  option_map OptimizeCv.match_score
    (OptimizeCv.inserted (Some "user-1") "https://db.example" "key"
       (OptimizeCv.JString "Backend engineer") None Sample.scored_zero)
  = Some OptimizeCv.JNull
  /\ option_map OptimizeCv.match_score
       (OptimizeCv.inserted (Some "user-1") "https://db.example" "key"
          (OptimizeCv.JString "Backend engineer") None Sample.scored_85)
     = Some (OptimizeCv.JNumber 85).
Proof. split; reflexivity. Qed.

(* ================================================================== *)
(** * Further properties of the code *)

(* ------------------------------------------------------------------ *)
(** ** More on the retry engine *)

Section RetryMore.

Import ApiUtils.

Context {T : Type}.
Variable fn : Z -> Outcome T.
Variable maxRetries : Z.
Variable delay : Z.
Variable onRetry : bool.

Local Abbreviation attempts := (attempts fn maxRetries delay onRetry).
Local Abbreviation failed_rounds := (failed_rounds fn maxRetries delay onRetry).

(** Failed attempts that all leave an attempt to go: each is followed by its
    timer. *)
Lemma total_wait_early_rounds k :
  forall attempt i,
    1 <= attempt ->
    attempt + Z.of_nat k <= maxRetries ->
    total_wait (failed_rounds k attempt i) =
    delay * (2 ^ (attempt - 1 + Z.of_nat k) - 2 ^ (attempt - 1)).
Proof.
  induction k as [|k IH]; intros attempt i Hpos Hmax.
  - cbn. rewrite Z.add_0_r. lia.
  - cbn [ApiUtils.failed_rounds].
    rewrite total_wait_app, total_wait_failed_round, IH by lia.
    replace (attempt <? maxRetries) with true by (symmetry; apply Z.ltb_lt; lia).
    unfold waitTime.
    replace (attempt + 1 - 1 + Z.of_nat k) with (Z.succ (attempt - 1 + Z.of_nat k)) by lia.
    replace (attempt - 1 + Z.of_nat (S k)) with (Z.succ (attempt - 1 + Z.of_nat k)) by lia.
    replace (attempt + 1 - 1) with (Z.succ (attempt - 1)) by lia.
    rewrite !Z.pow_succ_r by lia. lia.
Qed.

(** One successful attempt, and the end of the attempts, unfolded. *)
Lemma attempts_step_resolved fuel attempt lastError run v :
  attempt <= maxRetries ->
  fn (invocations run + 1) = Resolved v ->
  attempts (S fuel) attempt lastError run =
  (Some (Resolved v),
   mkRun (invocations run + 1) (trace run ++ [EvInvoke (invocations run + 1)])).
Proof.
  intros Hle Hfn. cbn [ApiUtils.attempts].
  apply Z.leb_le in Hle. rewrite Hle.
  unfold bind at 1. unfold await_fn. now rewrite Hfn.
Qed.

Lemma attempts_step_done fuel attempt lastError run :
  maxRetries < attempt ->
  attempts (S fuel) attempt lastError run =
  (Some (Rejected (ThrownObject
           match lastError with
           | Some e => e
           | None => new_Error "Request failed after retries"
           end)), run).
Proof.
  intros Hgt. cbn [ApiUtils.attempts].
  apply Z.leb_gt in Hgt. now rewrite Hgt.
Qed.

Lemma failed_round_within attempt i :
  1 <= attempt <= maxRetries -> i = attempt ->
  Forall (Trace.event_within maxRetries)
         (ApiUtils.failed_round fn maxRetries delay onRetry attempt i).
Proof.
  intros Hatt ->. unfold ApiUtils.failed_round.
  destruct onRetry, (attempt <? maxRetries) eqn:Hlt; cbn [andb app];
    try apply Z.ltb_lt in Hlt;
    repeat (apply Forall_cons; [cbn; lia|]); constructor.
Qed.

(** A value [retryRequest] resolves with is the value of some invocation
    among the permitted ones. *)
Lemma attempts_resolved fuel :
  forall attempt lastError run v,
    fst (attempts fuel attempt lastError run) = Some (Resolved v) ->
    attempt = invocations run + 1 ->
    exists i, attempt <= i <= maxRetries /\ fn i = Resolved v.
Proof.
  induction fuel as [|fuel IH]; intros attempt lastError run v Hres Hatt;
    [discriminate|].
  destruct (Z_le_gt_dec attempt maxRetries) as [Hle|Hgt].
  - destruct (fn (invocations run + 1)) as [w|x] eqn:Hfn.
    + rewrite (attempts_step_resolved _ _ _ _ w Hle Hfn) in Hres.
      injection Hres as ->. exists attempt. subst attempt. split; [lia|assumption].
    + rewrite (attempts_step_rejected fn maxRetries delay onRetry _ _ _ _ x Hle Hfn)
        in Hres.
      apply IH in Hres; [|cbn; lia].
      destruct Hres as (i & Hi & Hv). exists i. split; [lia|assumption].
  - rewrite attempts_step_done in Hres by lia. discriminate.
Qed.

(** Whatever the operation does, the effects of the loop stay within the
    policy. *)
Lemma attempts_within fuel :
  forall attempt lastError run,
    1 <= attempt ->
    attempt = invocations run + 1 ->
    exists more,
      trace (snd (attempts fuel attempt lastError run)) = (trace run ++ more)%list
      /\ Forall (Trace.event_within maxRetries) more
      /\ invocations (snd (attempts fuel attempt lastError run))
         <= Z.max maxRetries (invocations run).
Proof.
  induction fuel as [|fuel IH]; intros attempt lastError run Hpos Hatt.
  - exists []. cbn [ApiUtils.attempts ret fst snd]. rewrite app_nil_r.
    split; [reflexivity|]. split; [constructor|lia].
  - destruct (Z_le_gt_dec attempt maxRetries) as [Hle|Hgt].
    + destruct (fn (invocations run + 1)) as [w|x] eqn:Hfn.
      * rewrite (attempts_step_resolved _ _ _ _ w Hle Hfn).
        exists [EvInvoke (invocations run + 1)]. cbn [fst snd trace invocations].
        split; [reflexivity|]. split; [|lia].
        constructor; [cbn; lia|constructor].
      * rewrite (attempts_step_rejected fn maxRetries delay onRetry _ _ _ _ x Hle Hfn).
        match goal with
        | |- context [ApiUtils.attempts _ _ _ _ fuel ?a ?l ?r] =>
            destruct (IH a l r) as (more & Hmore & Hok & Hinv); [lia | cbn; lia |]
        end.
        cbn [trace invocations] in Hmore, Hinv. rewrite Hmore.
        eexists. split; [now rewrite <- app_assoc|]. split; [|lia].
        apply Forall_app. split; [|assumption].
        apply failed_round_within; lia.
    + rewrite attempts_step_done by lia.
      exists []. cbn [fst snd]. rewrite app_nil_r.
      split; [reflexivity|]. split; [constructor|lia].
Qed.

End RetryMore.

Lemma notified_app tr1 tr2 :
  Trace.notified (tr1 ++ tr2) = (Trace.notified tr1 ++ Trace.notified tr2)%list.
Proof. induction tr1 as [|[]]; cbn; congruence. Qed.

Lemma notified_early_rounds {T} (fn : Z -> Outcome T) maxRetries delay onRetry k :
  forall attempt i,
    attempt + Z.of_nat k <= maxRetries ->
    Trace.notified (ApiUtils.failed_rounds fn maxRetries delay onRetry k attempt i)
    = if onRetry then ApiUtils.Zseq attempt k else [].
Proof.
  induction k as [|k IH]; intros attempt i Hmax.
  - now destruct onRetry.
  - cbn [ApiUtils.failed_rounds]. rewrite notified_app, IH by lia.
    unfold ApiUtils.failed_round.
    replace (attempt <? maxRetries) with true by (symmetry; apply Z.ltb_lt; lia).
    now destruct onRetry.
Qed.

Lemma Zseq_snoc (m : nat) :
  forall a, ApiUtils.Zseq a (m + 1) = (ApiUtils.Zseq a m ++ [a + Z.of_nat m])%list.
Proof.
  induction m as [|m IH]; intros a.
  - cbn. now rewrite Z.add_0_r.
  - cbn [Nat.add ApiUtils.Zseq app]. rewrite IH. do 3 f_equal. lia.
Qed.

(** X1.  With no attempt permitted ([maxRetries <= 0]) [retryRequest] never
    invokes the operation, awaits no timer, and rejects with the error
    "Request failed after retries". *)
Theorem retryRequest_no_attempts
  {T} (fn : Z -> Outcome T) (maxRetries delay : Z) (onRetry : bool)
  (run : ApiUtils.Run) :
  maxRetries <= 0 ->
  ApiUtils.retryRequest fn maxRetries delay onRetry run =
  (Some (Rejected (ThrownObject (new_Error "Request failed after retries"))), run).
Proof.
  intros Hn. unfold ApiUtils.retryRequest.
  now rewrite attempts_step_done by lia.
Qed.

Lemma retryRequest_no_attempts_witness :
  ApiUtils.retryRequest Sample.third_time_lucky 0 1000 true ApiUtils.start =
  (Some (Rejected (ThrownObject (new_Error "Request failed after retries"))),
   ApiUtils.start).
Proof.
  apply (retryRequest_no_attempts Sample.third_time_lucky 0 1000 true ApiUtils.start).
  lia.
Defined.

(** X2.  The first success wins: when the operation fails on invocations
    [1 .. k-1] and succeeds on invocation [k], [k] within the permitted
    attempts, [retryRequest] resolves with that value after exactly [k]
    invocations, having awaited [delay * (2^(k-1) - 1)] milliseconds in all and
    told the observer, if there is one, about attempts [1 .. k-1]. *)
Theorem retryRequest_first_success
  {T} (fn : Z -> Outcome T) (maxRetries delay : Z) (onRetry : bool) (k : Z) (v : T) :
  1 <= k <= maxRetries ->
  (forall j, 1 <= j < k -> ApiUtils.rejected (fn j) = true) ->
  fn k = Resolved v ->
  fst (ApiUtils.retryRequest fn maxRetries delay onRetry ApiUtils.start)
    = Some (Resolved v)
  /\ ApiUtils.invoked (ApiUtils.trace
        (snd (ApiUtils.retryRequest fn maxRetries delay onRetry ApiUtils.start)))
     = ApiUtils.Zseq 1 (Z.to_nat k)
  /\ ApiUtils.total_wait (ApiUtils.trace
        (snd (ApiUtils.retryRequest fn maxRetries delay onRetry ApiUtils.start)))
     = delay * (2 ^ (k - 1) - 1)
  /\ Trace.notified (ApiUtils.trace
        (snd (ApiUtils.retryRequest fn maxRetries delay onRetry ApiUtils.start)))
     = if onRetry then ApiUtils.Zseq 1 (Z.to_nat (k - 1)) else [].
Proof.
  intros Hk Hfail Hv. unfold ApiUtils.retryRequest.
  rewrite (attempts_failures fn maxRetries delay onRetry (Z.to_nat (k - 1)));
    cbn [ApiUtils.invocations ApiUtils.trace ApiUtils.start app]; try lia.
  - replace (S (Z.to_nat maxRetries) - Z.to_nat (k - 1))%nat
      with (S (Z.to_nat maxRetries - Z.to_nat (k - 1)))%nat by lia.
    rewrite (attempts_step_resolved fn maxRetries delay onRetry _ _ _ _ v);
      cbn [ApiUtils.invocations ApiUtils.trace fst snd]; try lia.
    + rewrite invoked_app, total_wait_app, notified_app, invoked_failed_rounds.
      rewrite (total_wait_early_rounds fn maxRetries delay onRetry) by lia.
      rewrite notified_early_rounds by lia.
      rewrite Z2Nat.id by lia.
      split; [reflexivity|]. split; [|split].
      * cbn [ApiUtils.invoked]. change (0 + 1) with 1.
        replace (0 + (k - 1) + 1) with (1 + Z.of_nat (Z.to_nat (k - 1))) by lia.
        rewrite <- Zseq_snoc. f_equal. lia.
      * change (ApiUtils.total_wait [ApiUtils.EvInvoke (0 + (k - 1) + 1)]) with 0.
        change (1 - 1) with 0. rewrite Z.pow_0_r. cbn [Z.add]. lia.
      * cbn [Trace.notified]. now rewrite app_nil_r.
    + rewrite <- Hv. f_equal. lia.
  - intros j Hj. apply Hfail. lia.
Qed.

Lemma retryRequest_first_success_witness :
  fst (ApiUtils.retryRequest Cases.fourth_time_lucky 5 1000 true ApiUtils.start)
    = Some (Resolved "done")
  /\ ApiUtils.total_wait (ApiUtils.trace
        (snd (ApiUtils.retryRequest Cases.fourth_time_lucky 5 1000 true ApiUtils.start)))
     = 7000.
Proof.
  destruct (retryRequest_first_success Cases.fourth_time_lucky 5 1000 true 4 "done")
    as (Hres & _ & Hwait & _).
  - lia.
  - intros j Hj. unfold Cases.fourth_time_lucky.
    replace (j <? 4) with true by (symmetry; apply Z.ltb_lt; lia). reflexivity.
  - reflexivity.
  - split; [exact Hres | exact Hwait].
Defined.

(** X3.  Whatever the operation does, a run of [retryRequest] stays within its
    policy: it returns; it invokes the operation at most [maxRetries] times,
    each invocation numbered within [1 .. maxRetries]; and it tells the
    observer only about attempts [1 .. maxRetries - 1], never about the last
    one. *)
Theorem retryRequest_within_policy
  {T} (fn : Z -> Outcome T) (maxRetries delay : Z) (onRetry : bool) :
  fst (ApiUtils.retryRequest fn maxRetries delay onRetry ApiUtils.start) <> None
  /\ Forall (Trace.event_within maxRetries)
            (ApiUtils.trace
               (snd (ApiUtils.retryRequest fn maxRetries delay onRetry ApiUtils.start)))
  /\ ApiUtils.invocations
       (snd (ApiUtils.retryRequest fn maxRetries delay onRetry ApiUtils.start))
     <= Z.max maxRetries 0.
Proof.
  split; [apply retryRequest_returns|].
  unfold ApiUtils.retryRequest.
  destruct (attempts_within fn maxRetries delay onRetry
              (S (Z.to_nat maxRetries)) 1 None ApiUtils.start)
    as (more & Hmore & Hok & Hinv); [lia | reflexivity |].
  rewrite Hmore. split; assumption.
Qed.

Lemma edge_retryRequest_client
  {T} (fn : Z -> Outcome T) (maxRetries delay : Z) (run : ApiUtils.Run) :
  EdgeRetry.retryRequest fn maxRetries delay run
  = ApiUtils.retryRequest fn maxRetries delay false run.
Proof.
  unfold EdgeRetry.retryRequest, ApiUtils.retryRequest.
  generalize (S (Z.to_nat maxRetries)) as fuel, 1 as attempt,
    (@None ErrObj) as lastError. revert run.
  intros run fuel. revert run.
  induction fuel as [|fuel IH]; intros run attempt lastError; [reflexivity|].
  cbn [EdgeRetry.attempts ApiUtils.attempts].
  destruct (attempt <=? maxRetries); [|reflexivity].
  unfold ApiUtils.bind at 1 3. destruct (ApiUtils.await_fn fn run) as [[v|x] run1];
    [reflexivity|].
  cbn [andb ApiUtils.when]. unfold ApiUtils.waitTime.
  unfold ApiUtils.bind, ApiUtils.ret.
  destruct (ApiUtils.when (attempt <? maxRetries) _ run1) as [[] run2].
  apply IH.
Qed.

(** X4.  The edge function's own [retryRequest] is the client's
    [retryRequest] called without an observer: the two give the same result
    and the same effects for every operation, policy and starting point. *)
Theorem edge_retryRequest_is_client_retryRequest
  {T} (fn : Z -> Outcome T) (maxRetries delay : Z) (run : ApiUtils.Run) :
  EdgeRetry.retryRequest fn maxRetries delay run
  = ApiUtils.retryRequest fn maxRetries delay false run.
Proof. apply edge_retryRequest_client. Qed.

(* ------------------------------------------------------------------ *)
(** ** More on the error classifier and the user-facing messages *)

Lemma toLowerCase_eq s :
  Js.toLowerCase s
  = match s with
    | EmptyString => EmptyString
    | String a s1 =>
        match s1 with
        | String b (String c s3) =>
            if Js.kelvin a b c then String "k" (Js.toLowerCase s3)
            else String (Js.lower_ascii a) (Js.toLowerCase s1)
        | _ => String (Js.lower_ascii a) (Js.toLowerCase s1)
        end
    end.
Proof. now destruct s. Qed.

Lemma kelvin_bytes a b c :
  Js.kelvin a b c = true ->
  nat_of_ascii a = 226%nat /\ nat_of_ascii b = 132%nat /\ nat_of_ascii c = 170%nat.
Proof.
  unfold Js.kelvin. intros H.
  apply andb_prop in H as [H Hc]. apply andb_prop in H as [Ha Hb].
  now rewrite Nat.eqb_eq in Ha, Hb, Hc.
Qed.

(** A byte other than E2 is folded on its own. *)
Lemma toLowerCase_plain a u :
  nat_of_ascii a <> 226%nat ->
  Js.toLowerCase (String a u) = String (Js.lower_ascii a) (Js.toLowerCase u).
Proof.
  intros Ha. rewrite toLowerCase_eq. destruct u as [|b [|c s3]]; try reflexivity.
  destruct (Js.kelvin a b c) eqn:K; [|reflexivity].
  apply kelvin_bytes in K as (K & _). contradiction.
Qed.

Lemma lower_ascii_lead a :
  nat_of_ascii a = 226%nat -> Js.lower_ascii a = a.
Proof. intros H. unfold Js.lower_ascii. now rewrite H. Qed.

(** Folding goes through a concatenation whose second part does not start
    with the second or the third byte of a Kelvin sign. *)
Lemma toLowerCase_app_head t :
  (forall a t', t = String a t' ->
                nat_of_ascii a <> 132%nat /\ nat_of_ascii a <> 170%nat) ->
  forall s, Js.toLowerCase (s ++ t) = Js.toLowerCase s ++ Js.toLowerCase t.
Proof.
  intros Hhead s.
  remember (String.length s) as n eqn:Hn.
  revert s Hn. induction n as [n IH] using lt_wf_ind. intros s Hn.
  destruct s as [|a [|b [|c s3]]].
  - reflexivity.
  - cbn [append]. rewrite (toLowerCase_eq (String a t)).
    destruct t as [|b [|c t3]]; try reflexivity.
    destruct (Js.kelvin a b c) eqn:K; [|reflexivity].
    apply kelvin_bytes in K as (_ & K & _).
    now destruct (Hhead b (String c t3) eq_refl).
  - cbn [append]. rewrite (toLowerCase_eq (String a (String b t))).
    assert (Hb : Js.toLowerCase (String b t)
                 = String (Js.lower_ascii b) (Js.toLowerCase t)).
    { apply (IH 1%nat (ltac:(subst n; cbn; lia)) (String b "") eq_refl). }
    destruct t as [|c t3]; [reflexivity|].
    destruct (Js.kelvin a b c) eqn:K.
    + apply kelvin_bytes in K as (_ & _ & K).
      now destruct (Hhead c t3 eq_refl).
    + now rewrite Hb.
  - cbn [append]. rewrite (toLowerCase_eq (String a (String b (String c (s3 ++ t))))).
    rewrite (toLowerCase_eq (String a (String b (String c s3)))).
    destruct (Js.kelvin a b c).
    + cbn [append]. f_equal.
      apply (IH (String.length s3)); [subst n; cbn; lia | reflexivity].
    + cbn [append]. f_equal.
      apply (IH (String.length (String b (String c s3))) (ltac:(subst n; cbn; lia))
                (String b (String c s3)) eq_refl).
Qed.

(** Folding goes through a concatenation whose first part folds to a text
    without the byte E2. *)
Lemma toLowerCase_app_clean t :
  forall s,
    Forall (fun a => nat_of_ascii a <> 226%nat)
           (list_ascii_of_string (Js.toLowerCase s)) ->
    Js.toLowerCase (s ++ t) = Js.toLowerCase s ++ Js.toLowerCase t.
Proof.
  intros s. remember (String.length s) as n eqn:Hn.
  revert s Hn. induction n as [n IH] using lt_wf_ind. intros s Hn Hclean.
  destruct s as [|a s1]; [reflexivity|].
  destruct (Nat.eq_dec (nat_of_ascii a) 226) as [Ha|Ha].
  - rewrite toLowerCase_eq in Hclean.
    destruct s1 as [|b [|c s3]];
      try (cbn [list_ascii_of_string] in Hclean; inversion Hclean as [|? ? Hfirst _];
           now rewrite lower_ascii_lead in Hfirst by exact Ha).
    cbn [append]. rewrite (toLowerCase_eq (String a (String b (String c (s3 ++ t))))).
    rewrite (toLowerCase_eq (String a (String b (String c s3)))).
    destruct (Js.kelvin a b c).
    + cbn [list_ascii_of_string] in Hclean. inversion Hclean as [|? ? _ Hrest].
      cbn [append]. f_equal.
      apply (IH (String.length s3)); [subst n; cbn; lia | reflexivity | exact Hrest].
    + cbn [list_ascii_of_string] in Hclean. inversion Hclean as [|? ? Hfirst _].
      now rewrite lower_ascii_lead in Hfirst by exact Ha.
  - cbn [append]. rewrite !toLowerCase_plain by exact Ha.
    rewrite toLowerCase_plain in Hclean by exact Ha.
    cbn [list_ascii_of_string] in Hclean. inversion Hclean as [|? ? _ Hrest].
    cbn [append]. f_equal.
    apply (IH (String.length s1)); [subst n; cbn; lia | reflexivity | exact Hrest].
Qed.

(** A word that folds to one of the vocabulary is folded where it stands. *)
Lemma toLowerCase_word pre word post :
  In (Js.toLowerCase word) ApiUtils.retryableMessages ->
  Js.toLowerCase (pre ++ word ++ post)
  = Js.toLowerCase pre ++ Js.toLowerCase word ++ Js.toLowerCase post.
Proof.
  intros Hword.
  assert (Hclean : Forall (fun a => nat_of_ascii a <> 226%nat)
                          (list_ascii_of_string (Js.toLowerCase word))).
  { cbn in Hword.
    repeat (destruct Hword as [<- | Hword];
            [cbn; repeat constructor; discriminate|]).
    contradiction. }
  rewrite <- (toLowerCase_app_clean post word Hclean).
  apply toLowerCase_app_head. intros a t' Ht.
  destruct word as [|b word].
  { cbn in Hword. repeat (destruct Hword as [Hw | Hword]; [discriminate Hw|]).
    contradiction. }
  cbn [append] in Ht. injection Ht as <- _.
  assert (Hsame : forall n, nat_of_ascii b = n -> (128 <= n)%nat ->
                            n <> 226%nat -> False).
  { intros n Hb Hn Hne.
    rewrite toLowerCase_plain in Hword by (rewrite Hb; exact Hne).
    assert (Hl : Js.lower_ascii b = b).
    { unfold Js.lower_ascii. rewrite Hb.
      replace (Nat.leb n 90) with false by (symmetry; apply Nat.leb_gt; lia).
      now rewrite Bool.andb_false_r. }
    rewrite Hl in Hword. cbn in Hword.
    repeat (destruct Hword as [Hw | Hword];
            [injection Hw as Hw _; rewrite <- Hw in Hb; cbn in Hb; lia|]).
    contradiction. }
  split; intros Hb; apply (Hsame _ Hb); lia.
Qed.

Lemma includes_at_start s rest : Js.includes (s ++ rest) s = true.
Proof.
  destruct (s ++ rest) eqn:E; cbn [Js.includes]; unfold Js.startsWith;
    now rewrite <- E, lit_app.
Qed.

Lemma includes_skip sub : forall pre s,
  Js.includes s sub = true -> Js.includes (pre ++ s) sub = true.
Proof.
  induction pre as [|c pre IH]; intros s H; [exact H|].
  cbn [append Js.includes].
  destruct (Js.startsWith (String c (pre ++ s)) sub); [reflexivity|].
  now apply IH.
Qed.

Lemma includes_middle pre w post : Js.includes (pre ++ w ++ post) w = true.
Proof. apply includes_skip, includes_at_start. Qed.

(** X5.  The vocabulary is matched in any letter case and anywhere in the
    text: an error without a status code whose message (or, thrown as a bare
    string, whose text) contains a word that lowercases to one of the seven
    vocabulary strings is retryable. *)
Theorem isRetryableError_any_case (pre word post : string) :
  In (Js.toLowerCase word) ApiUtils.retryableMessages ->
  (forall o,
     err_message o = Some (pre ++ word ++ post) ->
     ApiUtils.status_or_statusCode (ThrownObject o) = None ->
     ApiUtils.isRetryableError (ThrownObject o) = true)
  /\ ApiUtils.isRetryableError (ThrownString (pre ++ word ++ post)) = true.
Proof.
  intros Hword.
  assert (Hne : Js.truthy_string (pre ++ word ++ post) = true).
  { destruct pre; [|reflexivity]. destruct word; [|reflexivity].
    cbn in Hword. repeat (destruct Hword as [Hw | Hword]; [discriminate Hw|]).
    contradiction. }
  assert (Hhit : existsb (fun msg => Js.includes (Js.toLowerCase (pre ++ word ++ post)) msg)
                         ApiUtils.retryableMessages = true).
  { apply existsb_exists. exists (Js.toLowerCase word). split; [assumption|].
    rewrite (toLowerCase_word pre word post Hword). apply includes_middle. }
  split.
  - intros o Hmsg Hstatus. unfold ApiUtils.isRetryableError.
    cbn [ApiUtils.truthy negb]. rewrite Hstatus.
    destruct (_ || _)%bool; [reflexivity|].
    unfold ApiUtils.errorMessage, ApiUtils.prop_message. rewrite Hmsg.
    unfold Js.or_string. now rewrite Hne.
  - unfold ApiUtils.isRetryableError. cbn [ApiUtils.truthy]. rewrite Hne.
    cbn [negb ApiUtils.name_is ApiUtils.prop_name orb ApiUtils.status_or_statusCode].
    exact Hhit.
Qed.

Lemma isRetryableError_any_case_witness :
  ApiUtils.isRetryableError (ThrownObject Cases.timed_out) = true
  /\ ApiUtils.isRetryableError (ThrownString "Upstream TIMEOUT after 30s") = true.
Proof.
  destruct (isRetryableError_any_case "Upstream " "TIMEOUT" " after 30s") as [Hobj Hstr].
  - cbn. tauto.
  - split; [apply Hobj; reflexivity | exact Hstr].
Defined.

Lemma truthy_string_nonempty s : Js.truthy_string s = true -> s <> "".
Proof. now destruct s. Qed.

Lemma message_text_nonempty message :
  Js.truthy_string message = true -> ApiMessages.message_text message <> "".
Proof.
  intros Hm. unfold ApiMessages.message_text.
  repeat match goal with
         | |- context [if ?b then _ else _] => destruct b; [discriminate|]
         end.
  now apply truthy_string_nonempty.
Qed.

Lemma status_message_nonempty status : ApiMessages.status_message status <> "".
Proof.
  unfold ApiMessages.status_message.
  repeat match goal with
         | |- context [if ?b then _ else _] => destruct b; [discriminate|]
         end.
  discriminate.
Qed.

(** X6.  [parseErrorMessage] always has something to show: for every error
    value, falsy ones included, the message it returns is not empty. *)
Theorem parseErrorMessage_nonempty (error : JsThrown) :
  ApiMessages.parseErrorMessage error <> "".
Proof.
  unfold ApiMessages.parseErrorMessage.
  destruct (negb (ApiUtils.truthy error)); [discriminate|].
  assert (Hstatus : match ApiUtils.status_or_statusCode error with
                    | Some status => ApiMessages.status_message status
                    | None => "An unexpected error occurred. Please try again."
                    end <> "").
  { destruct (ApiUtils.status_or_statusCode error);
      [apply status_message_nonempty | discriminate]. }
  destruct (ApiUtils.prop_message error) as [message|]; [|exact Hstatus].
  destruct (Js.truthy_string message) eqn:Hm; [|exact Hstatus].
  now apply message_text_nonempty.
Qed.

(** X7.  What the user is shown for a failure that went through the retry
    wrapper of [handleOptimize]: when the original error has a message, the
    same text as for the original error; when it has none, "Optimization
    failed", whatever its status code, so the status texts of
    [parseErrorMessage] are never shown for it. *)
Theorem retried_error_message (e : ErrObj) :
  (forall message,
     err_message e = Some message -> Js.truthy_string message = true ->
     ApiMessages.parseErrorMessage (ThrownObject (Index.retryError e))
     = ApiMessages.parseErrorMessage (ThrownObject e))
  /\ (Js.or_string (err_message e) "" = "" ->
      ApiMessages.parseErrorMessage (ThrownObject (Index.retryError e))
      = "Optimization failed").
Proof.
  unfold ApiMessages.parseErrorMessage, Index.retryError.
  cbn [ApiUtils.truthy negb ApiUtils.prop_message err_message].
  split.
  - intros message Hmsg Hm. rewrite Hmsg. cbn [Js.or_string].
    rewrite Hm. cbv iota. now rewrite Hm.
  - intros Hnone. unfold Js.or_string in *.
    destruct (err_message e) as [m|]; [|reflexivity].
    destruct (Js.truthy_string m) eqn:Hm; [|reflexivity].
    subst m. discriminate Hm.
Qed.

Lemma retried_error_message_witness :
  ApiMessages.parseErrorMessage (ThrownObject (Index.retryError Cases.timed_out))
  = ApiMessages.parseErrorMessage (ThrownObject Cases.timed_out)
  /\ ApiMessages.parseErrorMessage (ThrownObject (Index.retryError Cases.unavailable))
     = "Optimization failed".
Proof.
  split.
  - apply (proj1 (retried_error_message Cases.timed_out) "Upstream TIMEOUT after 30s");
      reflexivity.
  - apply (proj2 (retried_error_message Cases.unavailable)). reflexivity.
Defined.

(** The original 503 would have been shown with its status text. *)
Example unavailable_message :
  ApiMessages.parseErrorMessage (ThrownObject Cases.unavailable)
  = "Service temporarily unavailable. Please try again later.".
Proof. reflexivity. Qed.

(* ------------------------------------------------------------------ *)
(** ** More on the client optimization path *)

(** X8.  When [retryRequest] resolves in [handleOptimize], what it resolves
    with is the answer of one of the (at most three) calls of the edge
    function, and that answer carries no error: the check
    [if (result.error) throw result.error] behind the call never fires. *)
Theorem optimize_resolved_without_error
  {D} (invoke : Z -> Index.InvokeResult D) (result : Index.InvokeResult D) :
  fst (Index.optimizeWithRetry invoke ApiUtils.start) = Some (Resolved result) ->
  Index.error result = None
  /\ exists i, 1 <= i <= 3 /\ invoke i = result.
Proof.
  unfold Index.optimizeWithRetry, ApiUtils.retryRequest. intros Hres.
  apply attempts_resolved in Hres; [|reflexivity].
  destruct Hres as (i & Hi & Hfn). unfold Index.optimizeAttempt in Hfn.
  destruct (Index.error (invoke i)) as [e|] eqn:Herr.
  - destruct (negb _); discriminate Hfn.
  - injection Hfn as <-. split; [assumption|]. now exists i.
Qed.

Lemma optimize_resolved_without_error_witness :
  Index.error (Cases.invoke_ok 1) = None
  /\ exists i, 1 <= i <= 3 /\ Cases.invoke_ok i = Cases.invoke_ok 1.
Proof.
  apply (optimize_resolved_without_error Cases.invoke_ok (Cases.invoke_ok 1)).
  reflexivity.
Defined.

(* ------------------------------------------------------------------ *)
(** ** The upload form *)

Section UploadFacts.

Import FileParser.

Variable pdfjs_getDocument : ArrayBuffer -> Outcome PDFDocumentProxy.
Variable mammoth_extractRawText : ArrayBuffer -> Outcome string.

Lemma try_catch_trimmed (body : Outcome ParseResult) (fallback : string) :
  (forall r, body = Resolved r -> Js.trim (text r) = text r) ->
  exists r,
    try_catch body
      (fun error => Resolved (mkParseResult "" (Some (message_or error fallback))))
    = Resolved r
    /\ Js.trim (text r) = text r.
Proof.
  intros Hbody. destruct body as [r|x]; cbn [try_catch].
  - exists r. split; [reflexivity|]. now apply Hbody.
  - eexists. split; reflexivity.
Qed.

(** The dispatcher resolves, and to a text that is trimmed. *)
Lemma extractTextFromFile_trimmed f :
  exists r,
    extractTextFromFile pdfjs_getDocument mammoth_extractRawText f = Resolved r
    /\ Js.trim (text r) = text r.
Proof.
  unfold extractTextFromFile.
  destruct (_ || _)%bool; [|destruct (_ || _)%bool; [|destruct (_ || _)%bool]].
  - apply try_catch_trimmed. intros r H.
    apply bindO_resolved in H as (buf & _ & H).
    apply bindO_resolved in H as (pdf & _ & H).
    apply bindO_resolved in H as (fullText & _ & H).
    injection H as <-. apply trim_idempotent.
  - apply try_catch_trimmed. intros r H.
    apply bindO_resolved in H as (buf & _ & H).
    apply bindO_resolved in H as (value & _ & H).
    injection H as <-. apply trim_idempotent.
  - apply try_catch_trimmed. intros r H.
    apply bindO_resolved in H as (t & _ & H).
    injection H as <-. apply trim_idempotent.
  - eexists. split; reflexivity.
Qed.

End UploadFacts.

(** X9.  What an upload does, for every file and whatever the decoding
    libraries do.  A file of more than 10 MB gets the size toast and nothing
    else: no processing state, no extraction.  For any other file
    [extractTextFromFile] resolves to some [result], and the handler turns
    processing on, then does exactly one of three things, then always turns
    processing off and resets the input: when [result.error] is a non-empty
    text, the error toast with that text; otherwise, when [result.text] is
    not empty, [result.text] (which is trimmed) handed to the form and the
    success toast with its length; otherwise the warning that no text could
    be extracted.  The toasts and the form's callback being taken to return,
    the [catch] clause never runs: nothing is logged to the console. *)
Theorem upload_effects
  (pdfjs_getDocument : FileParser.ArrayBuffer -> Outcome FileParser.PDFDocumentProxy)
  (mammoth_extractRawText : FileParser.ArrayBuffer -> Outcome string)
  (u : ResumeUpload.Upload) :
  let effects :=
    ResumeUpload.handleFileUpload pdfjs_getDocument mammoth_extractRawText (Some u) in
  (ResumeUpload.maxSize < ResumeUpload.size u ->
   effects = [ResumeUpload.Toast ResumeUpload.Error "File size must be less than 10MB"])
  /\ (ResumeUpload.size u <= ResumeUpload.maxSize ->
      exists result mid,
        FileParser.extractTextFromFile pdfjs_getDocument mammoth_extractRawText
          (ResumeUpload.file u) = Resolved result
        /\ effects
           = (ResumeUpload.SetIsProcessing true :: mid
              ++ [ResumeUpload.SetIsProcessing false; ResumeUpload.ResetInput])%list
        /\ ((exists e, FileParser.error result = Some e /\ e <> ""
                       /\ mid = [ResumeUpload.Toast ResumeUpload.Error e])
            \/ ((FileParser.error result = None \/ FileParser.error result = Some "")
                /\ FileParser.text result <> ""
                /\ Js.trim (FileParser.text result) = FileParser.text result
                /\ mid = [ ResumeUpload.OnResumeTextChange (FileParser.text result);
                           ResumeUpload.Toast ResumeUpload.Success
                             ("Resume extracted successfully! Found "
                              ++ ApiMessages.decimal
                                   (Z.of_nat (Js.length (FileParser.text result)))
                              ++ " characters.") ])
            \/ ((FileParser.error result = None \/ FileParser.error result = Some "")
                /\ FileParser.text result = ""
                /\ mid = [ResumeUpload.Toast ResumeUpload.Warning
                            "No text could be extracted from this file."])))
  /\ (forall error, ~ In (ResumeUpload.ConsoleError error) effects).
Proof.
  intros effects. unfold effects, ResumeUpload.handleFileUpload.
  destruct (extractTextFromFile_trimmed pdfjs_getDocument mammoth_extractRawText
              (ResumeUpload.file u)) as (r & Hr & Htrim).
  assert (Hmid :
    (exists e, FileParser.error r = Some e /\ e <> ""
               /\ ResumeUpload.process pdfjs_getDocument mammoth_extractRawText
                    (ResumeUpload.file u)
                  = [ResumeUpload.Toast ResumeUpload.Error e])
    \/ ((FileParser.error r = None \/ FileParser.error r = Some "")
        /\ FileParser.text r <> ""
        /\ ResumeUpload.process pdfjs_getDocument mammoth_extractRawText
             (ResumeUpload.file u)
           = [ ResumeUpload.OnResumeTextChange (FileParser.text r);
               ResumeUpload.Toast ResumeUpload.Success
                 ("Resume extracted successfully! Found "
                  ++ ApiMessages.decimal (Z.of_nat (Js.length (FileParser.text r)))
                  ++ " characters.") ])
    \/ ((FileParser.error r = None \/ FileParser.error r = Some "")
        /\ FileParser.text r = ""
        /\ ResumeUpload.process pdfjs_getDocument mammoth_extractRawText
             (ResumeUpload.file u)
           = [ResumeUpload.Toast ResumeUpload.Warning
                "No text could be extracted from this file."])).
  { unfold ResumeUpload.process. rewrite Hr.
    destruct (FileParser.error r) as [[|c e]|] eqn:He; cbn [Js.or_string Js.truthy_string].
    - destruct (FileParser.text r) as [|c t] eqn:Ht; cbn [Js.truthy_string].
      + right. right. auto.
      + right. left. split; [auto|]. split; [discriminate | reflexivity].
    - left. exists (String c e). split; [reflexivity|]. split; [discriminate | reflexivity].
    - destruct (FileParser.text r) as [|c t] eqn:Ht; cbn [Js.truthy_string].
      + right. right. auto.
      + right. left. split; [auto|]. split; [discriminate | reflexivity]. }
  split; [|split].
  - intros Hbig. now replace (ResumeUpload.size u >? ResumeUpload.maxSize) with true
      by (rewrite Z.gtb_ltb; symmetry; apply Z.ltb_lt; lia).
  - intros Hsmall. replace (ResumeUpload.size u >? ResumeUpload.maxSize) with false
      by (rewrite Z.gtb_ltb; symmetry; apply Z.ltb_ge; lia).
    exists r.
    exists (ResumeUpload.process pdfjs_getDocument mammoth_extractRawText
              (ResumeUpload.file u)).
    split; [exact Hr|]. split; [reflexivity|].
    destruct Hmid as [(e & He & Hne & Hp) | [(He & Ht & Hp) | (He & Ht & Hp)]].
    + left. now exists e.
    + right. left. auto.
    + right. right. auto.
  - intros error Hin.
    destruct (ResumeUpload.size u >? ResumeUpload.maxSize).
    + destruct Hin as [H|[]]; discriminate H.
    + cbn [app] in Hin. destruct Hin as [H|Hin]; [discriminate H|].
      apply in_app_or in Hin as [Hin|Hin].
      * destruct Hmid as [(e & _ & _ & Hp) | [(_ & _ & Hp) | (_ & _ & Hp)]];
          rewrite Hp in Hin; cbn in Hin; intuition discriminate.
      * cbn in Hin. intuition discriminate.
Qed.

Lemma upload_effects_witness :
  ResumeUpload.handleFileUpload Sample.no_pdf Sample.no_docx (Some Cases.big_upload)
  = [ResumeUpload.Toast ResumeUpload.Error "File size must be less than 10MB"]
  /\ exists result mid,
       FileParser.extractTextFromFile Sample.no_pdf Sample.no_docx
         (ResumeUpload.file Cases.small_upload) = Resolved result
       /\ ResumeUpload.handleFileUpload Sample.no_pdf Sample.no_docx
            (Some Cases.small_upload)
          = (ResumeUpload.SetIsProcessing true :: mid
             ++ [ResumeUpload.SetIsProcessing false; ResumeUpload.ResetInput])%list.
Proof.
  split.
  - destruct (upload_effects Sample.no_pdf Sample.no_docx Cases.big_upload)
      as (Hbig & _).
    apply Hbig. vm_compute. reflexivity.
  - destruct (upload_effects Sample.no_pdf Sample.no_docx Cases.small_upload)
      as (_ & Hsmall & _).
    destruct Hsmall as (result & mid & Hr & Hmid & _); [vm_compute; discriminate|].
    now exists result, mid.
Defined.

(** The same upload, computed. *)
Example upload_small :
  ResumeUpload.handleFileUpload Sample.no_pdf Sample.no_docx (Some Cases.small_upload)
  = [ ResumeUpload.SetIsProcessing true;
      ResumeUpload.OnResumeTextChange "Ada Lovelace";
      ResumeUpload.Toast ResumeUpload.Success
        "Resume extracted successfully! Found 12 characters.";
      ResumeUpload.SetIsProcessing false;
      ResumeUpload.ResetInput ].
Proof. reflexivity. Qed.

(** A text of six letters (two of them accented), a space and a character
    outside the basic plane, between a no-break space and a line separator:
    both go, and the nine code units left are counted. *)
Example upload_accented :
  ResumeUpload.handleFileUpload Sample.no_pdf Sample.no_docx
    (Some Cases.accented_upload)
  = [ ResumeUpload.SetIsProcessing true;
      ResumeUpload.OnResumeTextChange
        ("r" ++ String (ascii_of_nat 195) (String (ascii_of_nat 169) "")
         ++ "sum" ++ String (ascii_of_nat 195) (String (ascii_of_nat 169) "")
         ++ " " ++ Cases.emoji);
      ResumeUpload.Toast ResumeUpload.Success
        "Resume extracted successfully! Found 9 characters.";
      ResumeUpload.SetIsProcessing false;
      ResumeUpload.ResetInput ].
Proof. vm_compute. reflexivity. Qed.

(* ------------------------------------------------------------------ *)
(** ** The pages of a PDF *)


(** X10.  When the file can be read, the document loads and every one of its
    pages can be read, [extractTextFromPDF] resolves without [error] to the
    trimmed text made of the pages in order, page 1 first: the items of a
    page joined by single spaces, every page closed by a line feed. *)
Theorem extractTextFromPDF_readable
  (pdfjs_getDocument : FileParser.ArrayBuffer -> Outcome FileParser.PDFDocumentProxy)
  (file : FileParser.File) (buf : FileParser.ArrayBuffer)
  (pdf : FileParser.PDFDocumentProxy) (items : Z -> list string) :
  FileParser.arrayBuffer file = Resolved buf ->
  pdfjs_getDocument buf = Resolved pdf ->
  (forall j, 1 <= j <= Z.of_nat (FileParser.numPages pdf) ->
             Pages.read_page pdf j = Resolved (items j)) ->
  FileParser.extractTextFromPDF pdfjs_getDocument file
  = Resolved (FileParser.mkParseResult
                (Js.trim (Pages.text_of items 1 (FileParser.numPages pdf))) None).
Proof.
  intros Hbuf Hpdf Hread. unfold FileParser.extractTextFromPDF.
  rewrite Hbuf. cbn [FileParser.bindO]. rewrite Hpdf. cbn [FileParser.bindO].
  rewrite (read_pages_readable pdf items) by (intros j Hj; apply Hread; lia).
  reflexivity.
Qed.

Lemma extractTextFromPDF_readable_witness :
  FileParser.extractTextFromPDF (fun _ => Resolved Cases.two_pages) Cases.pdf_file
  = Resolved (FileParser.mkParseResult
                (Js.trim (Pages.text_of
                            (fun j => if j =? 1 then ["Ada"; "Lovelace"] else ["Engineer"])
                            1 2)) None).
Proof.
  apply (extractTextFromPDF_readable (fun _ => Resolved Cases.two_pages) Cases.pdf_file
           "%PDF-1.7" Cases.two_pages
           (fun j => if j =? 1 then ["Ada"; "Lovelace"] else ["Engineer"])).
  - reflexivity.
  - reflexivity.
  - intros j Hj. unfold Pages.read_page, Cases.two_pages. cbn [FileParser.getPage].
    destruct (j =? 1); reflexivity.
Defined.

(** X11.  When a page cannot be read (its [getPage] or its [getTextContent]
    rejects) while the pages before it can, [extractTextFromPDF] gives up the
    text of the pages already read: it resolves to an empty text and the
    message of that page's failure. *)
Theorem extractTextFromPDF_unreadable_page
  (pdfjs_getDocument : FileParser.ArrayBuffer -> Outcome FileParser.PDFDocumentProxy)
  (file : FileParser.File) (buf : FileParser.ArrayBuffer)
  (pdf : FileParser.PDFDocumentProxy) (items : Z -> list string)
  (k : Z) (x : JsThrown) :
  FileParser.arrayBuffer file = Resolved buf ->
  pdfjs_getDocument buf = Resolved pdf ->
  1 <= k <= Z.of_nat (FileParser.numPages pdf) ->
  (forall j, 1 <= j < k -> Pages.read_page pdf j = Resolved (items j)) ->
  Pages.read_page pdf k = Rejected x ->
  FileParser.extractTextFromPDF pdfjs_getDocument file
  = Resolved (FileParser.mkParseResult ""
                (Some (FileParser.message_or x "Failed to parse PDF"))).
Proof.
  intros Hbuf Hpdf Hk Hread Hbad. unfold FileParser.extractTextFromPDF.
  rewrite Hbuf. cbn [FileParser.bindO]. rewrite Hpdf. cbn [FileParser.bindO].
  rewrite (read_pages_unreadable pdf items (Z.to_nat (k - 1)) _ 1 "" x).
  - reflexivity.
  - lia.
  - intros j Hj. apply Hread. lia.
  - now replace (1 + Z.of_nat (Z.to_nat (k - 1))) with k by lia.
Qed.

Lemma extractTextFromPDF_unreadable_page_witness :
  FileParser.extractTextFromPDF (fun _ => Resolved Cases.broken_second_page)
    Cases.pdf_file
  = Resolved (FileParser.mkParseResult "" (Some "Invalid page request")).
Proof.
  apply (extractTextFromPDF_unreadable_page
           (fun _ => Resolved Cases.broken_second_page) Cases.pdf_file
           "%PDF-1.7" Cases.broken_second_page (fun _ => ["Ada"]) 2
           (ThrownObject (new_Error "Invalid page request"))).
  - reflexivity.
  - reflexivity.
  - cbn. lia.
  - intros j Hj. replace j with 1 by lia. reflexivity.
  - reflexivity.
Defined.

(** The two-page document, computed. *)
Example extract_two_pages :
  FileParser.extractTextFromPDF (fun _ => Resolved Cases.two_pages) Cases.pdf_file
  = Resolved (FileParser.mkParseResult
                ("Ada Lovelace" ++ FileParser.LF ++ "Engineer") None).
Proof. reflexivity. Qed.

(* ------------------------------------------------------------------ *)
(** ** More on the export codecs *)

Section SameTexts.

Import FileGenerator.
Import Layout.

Variable pageWidth pageHeight : Q.
Variable splitTextToSize : string -> Q -> list string.

(** Every block fits the width it is given: the line breaker hands it back
    as its single line. *)
Hypothesis fits : forall block width, splitTextToSize block width = [block].

Local Abbreviation addText := (addText pageWidth pageHeight splitTextToSize).
Local Abbreviation addHighlight := (addHighlight pageWidth splitTextToSize).
Local Abbreviation addExperience := (addExperience pageWidth pageHeight splitTextToSize).
Local Abbreviation addEducation := (addEducation pageWidth pageHeight splitTextToSize).
Local Abbreviation render := (render pageWidth pageHeight splitTextToSize).

Lemma draws_ret : draws (ret tt) [].
Proof. intros s. cbn. now rewrite app_nil_r. Qed.



Lemma draws_when (b : bool) (m : Gen unit) l :
  draws m l -> draws (when b m) (if b then l else []).
Proof. intros Hm. destruct b; [exact Hm | apply draws_ret]. Qed.














End SameTexts.



Section LayoutFacts.

Import FileGenerator.
Import Layout.

Variable pageWidth pageHeight : Q.
Variable splitTextToSize : string -> Q -> list string.

Local Abbreviation addText := (addText pageWidth pageHeight splitTextToSize).
Local Abbreviation addHighlight := (addHighlight pageWidth splitTextToSize).
Local Abbreviation addExperience := (addExperience pageWidth pageHeight splitTextToSize).
Local Abbreviation addEducation := (addEducation pageWidth pageHeight splitTextToSize).
Local Abbreviation render := (render pageWidth pageHeight splitTextToSize).

Variable I : St -> Prop.

Lemma keeps_then {A B} (m : Gen A) (k : A -> Gen B) :
  keeps I m -> (forall a, keeps I (k a)) -> keeps I (bind m k).
Proof.
  intros Hm Hk s Hs. unfold bind. specialize (Hm s Hs).
  destruct (m s) as [a s1]. now apply Hk.
Qed.

Lemma keeps_ret {A} (a : A) : keeps I (ret a).
Proof. intros s Hs. exact Hs. Qed.

Lemma keeps_when b (m : Gen unit) : keeps I m -> keeps I (when b m).
Proof. intros Hm. destruct b; [exact Hm | apply keeps_ret]. Qed.

Lemma keeps_forEach {A} (f : A -> Gen unit) xs :
  (forall x, keeps I (f x)) -> keeps I (forEach xs f).
Proof.
  intros Hf s Hs. apply (forEach_invariant I f xs); [|exact Hs].
  intros x _. apply Hf.
Qed.

(** What the three building blocks of [render] keep, [render] keeps. *)
Hypothesis keeps_addText : forall block size isBold, keeps I (addText block size isBold).
Hypothesis keeps_addHighlight : forall highlight, keeps I (addHighlight highlight).
Hypothesis keeps_advance : forall dy, keeps I (advance dy).

Lemma keeps_render cvData : keeps I (render cvData).
Proof.
  unfold FileGenerator.render.
  apply keeps_then; [|intros _; apply keeps_then; [|intros _;
    apply keeps_then; [|intros _; apply keeps_then; [|intros _]]]].
  - destruct (header cvData) as [h|]; [|apply keeps_ret].
    repeat (apply keeps_then; [apply keeps_addText|intros _]). apply keeps_advance.
  - destruct (summary cvData) as [text|]; [|apply keeps_ret].
    apply keeps_when.
    repeat (apply keeps_then; [apply keeps_addText|intros _]). apply keeps_advance.
  - apply keeps_when.
    repeat (apply keeps_then; [apply keeps_addText|intros _]). apply keeps_advance.
  - apply keeps_when. apply keeps_then; [apply keeps_addText|intros _].
    apply keeps_forEach. intros exp. unfold FileGenerator.addExperience.
    repeat (apply keeps_then; [apply keeps_addText|intros _]).
    apply keeps_then; [|intros _; apply keeps_advance].
    apply keeps_forEach. apply keeps_addHighlight.
  - apply keeps_when. apply keeps_then; [apply keeps_addText|intros _].
    apply keeps_forEach. intros edu. unfold FileGenerator.addEducation.
    repeat (apply keeps_then; [apply keeps_addText|intros _]). apply keeps_advance.
Qed.

End LayoutFacts.

Lemma nondecreasing_snoc p : forall l,
  Layout.nondecreasing l = true -> Forall (fun a => (a <= p)%nat) l ->
  Layout.nondecreasing (l ++ [p]) = true.
Proof.
  induction l as [|a l IH]; intros Hl Hle; [reflexivity|].
  inversion Hle as [|? ? Ha Hrest]; subst.
  destruct l as [|b l].
  - cbn. rewrite andb_true_r. now apply Nat.leb_le.
  - cbn [app Layout.nondecreasing] in *.
    apply andb_true_iff in Hl as [Hab Hl].
    rewrite Hab. cbn [andb]. now apply IH.
Qed.

Section MarginLines.

Import FileGenerator.
Import Layout.

Variable pageWidth pageHeight : Q.
Variable splitTextToSize : string -> Q -> list string.

(** The top margin lies above the page-break threshold. *)
Hypothesis margin_above : (margin <= pageHeight - 30)%Q.

Lemma addText_margin_lines block size isBold :
  keeps (margin_lines_within (pageHeight - 30))
        (addText pageWidth pageHeight splitTextToSize block size isBold).
Proof.
  intros s Hs. unfold FileGenerator.addText.
  unfold bind at 1. cbn [setFontSize on_doc]. unfold bind at 1. cbn [setFont on_doc].
  unfold bind at 1.
  match goal with
  | |- context [forEach ?xs ?f ?s0] =>
      assert (HJ : margin_lines_within (pageHeight - 30) (snd (forEach xs f s0)))
  end.
  { apply forEach_invariant; [|exact Hs].
    intros line _ s1 Hs1. unfold margin_lines_within in *.
    unfold bind, get_y, when, text, advance, on_doc, addPage, set_y, ret.
    destruct (gtb (yPosition s1) (pageHeight - 30)) eqn:Hgt; cbn;
      apply Forall_app; (split; [exact Hs1|]); constructor; try constructor;
      intros _; cbn.
    - exact margin_above.
    - unfold gtb in Hgt. apply negb_false_iff in Hgt. now apply Qle_bool_iff. }
  destruct (forEach _ _ _) as [[] s2]. exact HJ.
Qed.

Lemma addHighlight_margin_lines highlight :
  keeps (margin_lines_within (pageHeight - 30))
        (addHighlight pageWidth splitTextToSize highlight).
Proof.
  intros s Hs. unfold FileGenerator.addHighlight.
  unfold bind at 1. cbn [setFontSize on_doc].
  unfold bind at 1. cbn [get_y]. unfold bind at 1. cbn [text on_doc].
  apply forEach_invariant.
  - intros line _ s1 Hs1. unfold margin_lines_within in *.
    unfold bind, get_y, text, advance, on_doc. cbn.
    apply Forall_app. split; [exact Hs1|]. constructor; [|constructor].
    cbn. discriminate.
  - unfold margin_lines_within in *. cbn.
    apply Forall_app. split; [exact Hs|]. constructor; [|constructor].
    cbn. discriminate.
Qed.

End MarginLines.

Section PageOrder.

Import FileGenerator.
Import Layout.

Variable pageWidth pageHeight : Q.
Variable splitTextToSize : string -> Q -> list string.

Lemma in_order_draw n l op :
  in_order n l -> op_page op = n -> in_order n (l ++ [op]).
Proof.
  intros (Hpos & Hall & Hord) Hop. split; [exact Hpos|]. split.
  - apply Forall_app. split; [exact Hall|]. constructor; [lia|constructor].
  - rewrite map_app. cbn [map]. apply nondecreasing_snoc; [exact Hord|].
    apply Forall_map. eapply Forall_impl; [|exact Hall]. cbn. intros o Ho. lia.
Qed.

Lemma in_order_new_page n l : in_order n l -> in_order (S n) l.
Proof.
  intros (Hpos & Hall & Hord). split; [lia|]. split; [|exact Hord].
  eapply Forall_impl; [|exact Hall]. cbn. intros o Ho. lia.
Qed.

Lemma addText_in_order block size isBold :
  keeps pages_in_order (addText pageWidth pageHeight splitTextToSize block size isBold).
Proof.
  intros s Hs. unfold FileGenerator.addText.
  unfold bind at 1. cbn [setFontSize on_doc]. unfold bind at 1. cbn [setFont on_doc].
  unfold bind at 1.
  match goal with
  | |- context [forEach ?xs ?f ?s0] =>
      assert (HJ : pages_in_order (snd (forEach xs f s0)))
  end.
  { apply forEach_invariant; [|exact Hs].
    intros line _ s1 Hs1. unfold pages_in_order in *.
    unfold bind, get_y, when, text, advance, addPage, set_y, ret, on_doc.
    destruct (gtb (yPosition s1) (pageHeight - 30)); cbn.
    - apply in_order_draw; [|reflexivity]. now apply in_order_new_page.
    - now apply in_order_draw. }
  destruct (forEach _ _ _) as [[] s2]. exact HJ.
Qed.

Lemma addHighlight_in_order highlight :
  keeps pages_in_order (addHighlight pageWidth splitTextToSize highlight).
Proof.
  intros s Hs. unfold FileGenerator.addHighlight.
  unfold bind at 1. cbn [setFontSize on_doc].
  unfold bind at 1. cbn [get_y]. unfold bind at 1. cbn [text on_doc].
  apply forEach_invariant.
  - intros line _ s1 Hs1. unfold pages_in_order in *.
    unfold bind, get_y, text, advance, on_doc. cbn. now apply in_order_draw.
  - unfold pages_in_order in *. cbn. now apply in_order_draw.
Qed.

End PageOrder.

(** X13.  On a page high enough for the top margin to lie above the
    page-break threshold ([20 <= pageHeight - 30]), every line that
    [generatePDF] draws at the left margin, that is every heading and
    paragraph line (all it draws but the highlights), lies at or above the
    threshold [pageHeight - 30], whatever the resume and however the library
    breaks lines. *)
Theorem pdf_margin_lines_above_threshold
  (pageWidth pageHeight : Q) (splitTextToSize : string -> Q -> list string)
  (cvData : FileGenerator.CVData) :
  (FileGenerator.margin <= pageHeight - 30)%Q ->
  Forall (fun op => Layout.at_margin op = true ->
                    (FileGenerator.op_y op <= pageHeight - 30)%Q)
         (FileGenerator.ops
            (FileGenerator.generatePDF pageWidth pageHeight splitTextToSize cvData)).
Proof.
  intros Hmargin. unfold FileGenerator.generatePDF.
  apply (keeps_render pageWidth pageHeight splitTextToSize
           (Layout.margin_lines_within (pageHeight - 30))).
  - intros. now apply addText_margin_lines.
  - intros. apply addHighlight_margin_lines.
  - intros dy s Hs. exact Hs.
  - constructor.
Qed.

Lemma pdf_margin_lines_above_threshold_witness :
  Forall (fun op => Layout.at_margin op = true ->
                    (FileGenerator.op_y op <= 297 - 30)%Q)
         (FileGenerator.ops
            (FileGenerator.generatePDF 210 297 Sample.one_line Sample.cv_long)).
Proof.
  apply (pdf_margin_lines_above_threshold 210 297 Sample.one_line Sample.cv_long).
  vm_compute. discriminate.
Defined.

(** X14.  [generatePDF] lays the text out front to back: the document has at
    least one page, every line is on a page between 1 and the page count, and
    no line is drawn on an earlier page than a line drawn before it. *)
Theorem pdf_pages_in_order
  (pageWidth pageHeight : Q) (splitTextToSize : string -> Q -> list string)
  (cvData : FileGenerator.CVData) :
  let pdf := FileGenerator.generatePDF pageWidth pageHeight splitTextToSize cvData in
  (1 <= FileGenerator.pages pdf)%nat
  /\ Forall (fun op => (1 <= FileGenerator.op_page op <= FileGenerator.pages pdf)%nat)
            (FileGenerator.ops pdf)
  /\ Layout.nondecreasing (map FileGenerator.op_page (FileGenerator.ops pdf)) = true.
Proof.
  unfold FileGenerator.generatePDF.
  apply (keeps_render pageWidth pageHeight splitTextToSize Layout.pages_in_order).
  - intros. apply addText_in_order.
  - intros. apply addHighlight_in_order.
  - intros dy s Hs. exact Hs.
  - repeat split; [cbn; lia | constructor].
Qed.

Lemma docx_heading_sections (t : string) (cvData : FileGenerator.CVData) :
  existsb (FileGenerator.docx_heading t) (FileGenerator.generateDOCX cvData)
  = ((match FileGenerator.summary cvData with
      | Some s => Js.truthy_string s
      | None => false
      end && String.eqb "PROFESSIONAL SUMMARY" t)
     || (FileGenerator.non_empty (FileGenerator.skills cvData)
         && String.eqb "KEY SKILLS" t)
     || (FileGenerator.non_empty (FileGenerator.experience cvData)
         && String.eqb "PROFESSIONAL EXPERIENCE" t)
     || (FileGenerator.non_empty (FileGenerator.education cvData)
         && String.eqb "EDUCATION" t))%bool.
Proof.
  unfold FileGenerator.generateDOCX. rewrite !existsb_app.
  assert (Hexp : existsb (FileGenerator.docx_heading t)
                   (flat_map FileGenerator.docxExperience
                      (FileGenerator.items (FileGenerator.experience cvData))) = false).
  { apply existsb_flat_map. intros x. apply docxExperience_no_heading. }
  assert (Hedu : existsb (FileGenerator.docx_heading t)
                   (flat_map FileGenerator.docxEducation
                      (FileGenerator.items (FileGenerator.education cvData))) = false).
  { apply existsb_flat_map. intros x. reflexivity. }
  destruct (FileGenerator.header cvData);
    (destruct (FileGenerator.summary cvData) as [text|];
     [destruct (Js.truthy_string text)|]);
    destruct (FileGenerator.non_empty (FileGenerator.skills cvData));
    destruct (FileGenerator.non_empty (FileGenerator.experience cvData));
    destruct (FileGenerator.non_empty (FileGenerator.education cvData));
    cbn [existsb FileGenerator.docx_heading FileGenerator.heading
         FileGenerator.children FileGenerator.section_heading FileGenerator.plain
         FileGenerator.run_text orb andb];
    rewrite ?Hexp, ?Hedu, ?orb_false_r; cbn [orb andb];
    repeat match goal with
           | |- context [String.eqb ?a t] => destruct (String.eqb a t)
           end; reflexivity.
Qed.

(** X15.  In the DOCX a section title is there exactly when its section has
    something to show: "PROFESSIONAL SUMMARY" when the summary is a non-empty
    text, "KEY SKILLS", "PROFESSIONAL EXPERIENCE" and "EDUCATION" when their
    sequences are present and non-empty. *)
Theorem docx_headings_match_sections (cvData : FileGenerator.CVData) :
  existsb (FileGenerator.docx_heading "PROFESSIONAL SUMMARY")
          (FileGenerator.generateDOCX cvData)
  = match FileGenerator.summary cvData with
    | Some s => Js.truthy_string s
    | None => false
    end
  /\ existsb (FileGenerator.docx_heading "KEY SKILLS")
             (FileGenerator.generateDOCX cvData)
     = FileGenerator.non_empty (FileGenerator.skills cvData)
  /\ existsb (FileGenerator.docx_heading "PROFESSIONAL EXPERIENCE")
             (FileGenerator.generateDOCX cvData)
     = FileGenerator.non_empty (FileGenerator.experience cvData)
  /\ existsb (FileGenerator.docx_heading "EDUCATION")
             (FileGenerator.generateDOCX cvData)
     = FileGenerator.non_empty (FileGenerator.education cvData).
Proof.
  rewrite !docx_heading_sections.
  destruct (FileGenerator.summary cvData) as [text|];
    [destruct (Js.truthy_string text)|];
    destruct (FileGenerator.non_empty (FileGenerator.skills cvData));
    destruct (FileGenerator.non_empty (FileGenerator.experience cvData));
    destruct (FileGenerator.non_empty (FileGenerator.education cvData));
    repeat split; reflexivity.
Qed.

(* ------------------------------------------------------------------ *)
(** ** Download names *)

Section DownloadFacts.

(** Induction over a text: a white space character at a time where there is
    one, a byte at a time where there is none. *)
Lemma text_ind (P : string -> Prop) :
  P "" ->
  (forall s s', Js.skip_space s = Some s' -> P s' -> P s) ->
  (forall a s, Js.skip_space (String a s) = None -> P s -> P (String a s)) ->
  forall s, P s.
Proof.
  intros Hnil Hsome Hbyte s.
  remember (String.length s) as n eqn:Hn. revert s Hn.
  induction n as [n IH] using lt_wf_ind. intros s ->.
  destruct (Js.skip_space s) as [s'|] eqn:Hs.
  - apply (Hsome s s' Hs). apply (IH (String.length s')); [|reflexivity].
    now apply skip_space_length.
  - destruct s as [|a s]; [exact Hnil|].
    apply (Hbyte a s Hs). apply (IH (String.length s)); [cbn; lia | reflexivity].
Qed.

Lemma replace_runs_eq in_run s :
  Download.replace_runs in_run s =
  match s with
  | EmptyString => EmptyString
  | String a s1 =>
      match Js.skip_space s with
      | Some s' => if in_run then Download.replace_runs true s'
                   else String "-" (Download.replace_runs true s')
      | None => String a (Download.replace_runs false s1)
      end
  end.
Proof.
  destruct s as [|a s1]; [reflexivity|].
  cbn [Download.replace_runs Js.skip_space].
  destruct (Js.space1 a); [reflexivity|].
  destruct s1 as [|b s2]; [reflexivity|].
  destruct (Js.space2 a b); [reflexivity|].
  destruct s2 as [|c s3]; [reflexivity|].
  now destruct (Js.space3 a b c).
Qed.

Lemma replace_runs_some in_run s s' :
  Js.skip_space s = Some s' ->
  Download.replace_runs in_run s =
  if in_run then Download.replace_runs true s'
  else String "-" (Download.replace_runs true s').
Proof.
  intros H. rewrite replace_runs_eq, H. destruct s; [discriminate H | reflexivity].
Qed.

Lemma replace_runs_none in_run a s :
  Js.skip_space (String a s) = None ->
  Download.replace_runs in_run (String a s) = String a (Download.replace_runs false s).
Proof. intros H. now rewrite replace_runs_eq, H. Qed.

(** A hyphen continues no white space character. *)
Lemma skip_space_hyphen a s :
  Js.space1 a = false -> Js.skip_space (String a (String "-" s)) = None.
Proof.
  intros H1. cbn [Js.skip_space]. rewrite H1.
  destruct (Js.space2 a "-") eqn:H2; [apply space2_bytes in H2; cbn in H2; lia|].
  destruct s as [|c s]; [reflexivity|].
  destruct (Js.space3 a "-" c) eqn:H3; [|reflexivity].
  apply space3_bytes in H3. cbn in H3. lia.
Qed.

Lemma skip_space_hyphen3 a b s :
  Js.space1 a = false -> Js.space2 a b = false ->
  Js.skip_space (String a (String b (String "-" s))) = None.
Proof.
  intros H1 H2. cbn [Js.skip_space]. rewrite H1, H2.
  destruct (Js.space3 a b "-") eqn:H3; [|reflexivity].
  apply space3_bytes in H3. cbn in H3. lia.
Qed.

(** A byte that starts no white space before the replacement starts none
    behind it. *)
Lemma replace_runs_front a s :
  Js.skip_space (String a s) = None ->
  Js.skip_space (String a (Download.replace_runs false s)) = None.
Proof.
  intros H.
  assert (H1 : Js.space1 a = false).
  { cbn [Js.skip_space] in H. now destruct (Js.space1 a). }
  destruct s as [|b s]; [exact H|].
  destruct (Js.skip_space (String b s)) as [s'|] eqn:Hb.
  - rewrite (replace_runs_some false _ s' Hb). now apply skip_space_hyphen.
  - rewrite (replace_runs_none false b s Hb).
    assert (H2 : Js.space2 a b = false).
    { cbn [Js.skip_space] in H. rewrite H1 in H. now destruct (Js.space2 a b). }
    destruct s as [|c s].
    + cbn [Js.skip_space]. now rewrite H1, H2.
    + destruct (Js.skip_space (String c s)) as [s'|] eqn:Hc.
      * rewrite (replace_runs_some false _ s' Hc). now apply skip_space_hyphen3.
      * rewrite (replace_runs_none false c s Hc).
        cbn [Js.skip_space] in *. rewrite H1, H2 in *.
        now destruct (Js.space3 a b c).
Qed.

Lemma no_space_ascii c s :
  (32 < nat_of_ascii c < 128)%nat ->
  Download.no_space (String c s) = Download.no_space s.
Proof. intros Hc. cbn [Download.no_space]. now rewrite skip_space_ascii. Qed.

Lemma replace_runs_no_space : forall s in_run,
  Download.no_space (Download.replace_runs in_run s) = true.
Proof.
  induction s as [| s s' Hs IH | a s Hs IH] using text_ind; intros in_run.
  - reflexivity.
  - rewrite (replace_runs_some in_run s s' Hs). destruct in_run; [apply IH|].
    rewrite no_space_ascii by (cbn; lia). apply IH.
  - rewrite (replace_runs_none in_run a s Hs). cbn [Download.no_space].
    now rewrite (replace_runs_front a s Hs), IH.
Qed.

Lemma replace_runs_without_space : forall s in_run,
  Download.no_space s = true -> Download.replace_runs in_run s = s.
Proof.
  induction s as [|a s IH]; intros in_run H; [reflexivity|].
  cbn [Download.no_space] in H.
  destruct (Js.skip_space (String a s)) eqn:Hs; [discriminate|].
  rewrite (replace_runs_none in_run a s Hs). now rewrite IH.
Qed.

(** A white space character is one UTF-16 code unit. *)
Lemma units_ascii a : (nat_of_ascii a < 128)%nat -> Js.units a = 1%nat.
Proof.
  intros H. unfold Js.units. cbv zeta.
  now replace (Nat.ltb (nat_of_ascii a) 128) with true by (symmetry; apply Nat.ltb_lt; lia).
Qed.

Lemma units_lead a : (192 <= nat_of_ascii a < 240)%nat -> Js.units a = 1%nat.
Proof.
  intros H. unfold Js.units. cbv zeta.
  replace (Nat.ltb (nat_of_ascii a) 128) with false by (symmetry; apply Nat.ltb_ge; lia).
  replace (Nat.ltb (nat_of_ascii a) 192) with false by (symmetry; apply Nat.ltb_ge; lia).
  now replace (Nat.ltb (nat_of_ascii a) 240) with true by (symmetry; apply Nat.ltb_lt; lia).
Qed.

Lemma units_continuation a : (128 <= nat_of_ascii a < 192)%nat -> Js.units a = 0%nat.
Proof.
  intros H. unfold Js.units. cbv zeta.
  replace (Nat.ltb (nat_of_ascii a) 128) with false by (symmetry; apply Nat.ltb_ge; lia).
  now replace (Nat.ltb (nat_of_ascii a) 192) with true by (symmetry; apply Nat.ltb_lt; lia).
Qed.

Lemma space2_lead a b : Js.space2 a b = true -> (192 <= nat_of_ascii a < 240)%nat.
Proof.
  unfold Js.space2. intros H. apply andb_prop in H as [Ha _].
  apply Nat.eqb_eq in Ha. lia.
Qed.

Lemma space3_lead a b c : Js.space3 a b c = true -> (192 <= nat_of_ascii a < 240)%nat.
Proof.
  unfold Js.space3. cbv zeta. intros H.
  repeat (apply orb_prop in H as [H|H]);
    repeat match goal with
           | H : (_ && _)%bool = true |- _ => apply andb_prop in H as [? ?]
           | H : Nat.eqb _ _ = true |- _ => apply Nat.eqb_eq in H
           end; lia.
Qed.

Lemma skip_space_units s s' :
  Js.skip_space s = Some s' -> Js.length s = S (Js.length s').
Proof.
  destruct s as [|a [|b [|c s]]]; cbn [Js.skip_space]; try discriminate.
  - destruct (Js.space1 a) eqn:H1; [|discriminate]. intros E. injection E as <-.
    cbn [Js.length]. rewrite units_ascii; [lia|]. apply space1_ascii in H1. lia.
  - destruct (Js.space1 a) eqn:H1.
    + intros E. injection E as <-.
      cbn [Js.length]. rewrite (units_ascii a); [lia|]. apply space1_ascii in H1. lia.
    + destruct (Js.space2 a b) eqn:H2; [|discriminate]. intros E. injection E as <-.
      cbn [Js.length]. rewrite (units_lead a) by now apply (space2_lead a b).
      rewrite (units_continuation b) by now apply space2_bytes in H2. lia.
  - destruct (Js.space1 a) eqn:H1.
    + intros E. injection E as <-.
      cbn [Js.length]. rewrite (units_ascii a); [lia|]. apply space1_ascii in H1. lia.
    + destruct (Js.space2 a b) eqn:H2.
      * intros E. injection E as <-.
        cbn [Js.length]. rewrite (units_lead a) by now apply (space2_lead a b).
        rewrite (units_continuation b) by now apply space2_bytes in H2. lia.
      * destruct (Js.space3 a b c) eqn:H3; [|discriminate]. intros E. injection E as <-.
        cbn [Js.length]. rewrite (units_lead a) by now apply (space3_lead a b c).
        rewrite (units_continuation b), (units_continuation c)
          by now apply space3_bytes in H3.
        lia.
Qed.

Lemma replace_runs_length : forall s in_run,
  (Js.length (Download.replace_runs in_run s) <= Js.length s)%nat.
Proof.
  induction s as [| s s' Hs IH | a s Hs IH] using text_ind; intros in_run.
  - reflexivity.
  - rewrite (replace_runs_some in_run s s' Hs), (skip_space_units s s' Hs).
    specialize (IH true). destruct in_run; [lia|].
    cbn [Js.length]. rewrite units_ascii by (cbn; lia). lia.
  - rewrite (replace_runs_none in_run a s Hs). cbn [Js.length].
    specialize (IH false). lia.
Qed.

(** A text without white space in front of a printable ASCII character. *)
Lemma skip_space_next s c t r :
  Js.skip_space (s ++ String c t) = Some r ->
  Js.skip_space s = None ->
  s = "" \/ (128 <= nat_of_ascii c)%nat.
Proof.
  destruct s as [|a [|b [|c0 s]]]; cbn [append Js.skip_space]; [now left| | |].
  - destruct (Js.space1 a); [discriminate|]. intros H _. right.
    destruct (Js.space2 a c) eqn:H2; [now apply space2_bytes in H2|].
    destruct t as [|c' t]; [discriminate|].
    destruct (Js.space3 a c c') eqn:H3; [|discriminate].
    now apply space3_bytes in H3.
  - destruct (Js.space1 a); [discriminate|].
    destruct (Js.space2 a b); [discriminate|]. intros H _. right.
    destruct (Js.space3 a b c) eqn:H3; [|discriminate].
    now apply space3_bytes in H3.
  - destruct (Js.space1 a); [discriminate|].
    destruct (Js.space2 a b); [discriminate|].
    destruct (Js.space3 a b c0); discriminate.
Qed.

Lemma no_space_before_ascii c t : forall s,
  (32 < nat_of_ascii c < 128)%nat ->
  Download.no_space s = true ->
  Download.no_space (s ++ String c t) = Download.no_space t.
Proof.
  induction s as [|a s IH]; intros Hc H; [now apply no_space_ascii|].
  cbn [Download.no_space] in H.
  destruct (Js.skip_space (String a s)) eqn:Hs; [discriminate|].
  cbn [append Download.no_space].
  destruct (Js.skip_space (String a (s ++ String c t))) as [r|] eqn:Hr.
  - exfalso. destruct (skip_space_next (String a s) c t r Hr Hs); [discriminate | lia].
  - now apply IH.
Qed.

End DownloadFacts.

(** X16.  The label a download name is built from holds no white space
    character after [replace(/\s+/g, '-')], it is left as it is when it had
    none, so replacing twice changes nothing more, and its length never
    grows; and with a date stamp free of white space the names that
    [Dashboard] and [CVPreview] hand to the codecs hold no white space at
    all. *)
Theorem download_names_without_space :
  (forall label,
     Download.no_space (Download.hyphenate label) = true
     /\ Download.hyphenate (Download.hyphenate label) = Download.hyphenate label
     /\ (Js.length (Download.hyphenate label) <= Js.length label)%nat
     /\ (Download.no_space label = true -> Download.hyphenate label = label))
  /\ (forall job_role optimizedCV timestamp format,
        Download.no_space timestamp = true ->
        Download.no_space (Download.dashboard_filename job_role timestamp format) = true
        /\ Download.no_space (Download.preview_filename optimizedCV timestamp format)
           = true).
Proof.
  split.
  - intros label. unfold Download.hyphenate. repeat split.
    + apply replace_runs_no_space.
    + apply replace_runs_without_space, replace_runs_no_space.
    + apply replace_runs_length.
    + apply replace_runs_without_space.
  - intros job_role optimizedCV timestamp format Hts.
    assert (Hname : forall label,
               Download.no_space (Download.filename label timestamp format) = true).
    { intros label. unfold Download.filename, Download.hyphenate.
      cbn [append]. rewrite !no_space_ascii by (cbn; lia).
      rewrite no_space_before_ascii;
        [|cbn; lia|apply replace_runs_no_space].
      rewrite no_space_before_ascii; [|cbn; lia|exact Hts].
      now destruct format. }
    split; apply Hname.
Qed.

Lemma download_names_without_space_witness :
  Download.no_space
    (Download.dashboard_filename (Some "Senior  Backend Engineer") "2025-11-02"
                                 Download.pdf) = true.
Proof.
  destruct (proj2 download_names_without_space (Some "Senior  Backend Engineer")
              Sample.cv_long "2025-11-02" Download.pdf) as [H _];
    [vm_compute; reflexivity | exact H].
Defined.

(** The name itself: a run of two spaces gives one hyphen, and so does a
    no-break space (U+00A0). *)
Example dashboard_name :
  Download.dashboard_filename (Some "Senior  Backend Engineer") "2025-11-02" Download.pdf
  = "optimized-cv-Senior-Backend-Engineer-2025-11-02.pdf"
  /\ Download.hyphenate ("Data" ++ Cases.nbsp ++ "Engineer") = "Data-Engineer".
Proof. split; vm_compute; reflexivity. Qed.

(* ------------------------------------------------------------------ *)
(** ** Usage tracking and the trial limit *)

Section UsageFacts.

Import Usage.

Variable auth_users : string -> bool.
Variable now : Z.
Variable new_id : string.

Local Abbreviation update_where := (update_where auth_users now).
Local Abbreviation updated := (updated now).
Local Abbreviation increment_usage := (increment_usage auth_users now new_id).

(** The [UPDATE] leaves every row in its place, with its keys. *)
Lemma update_where_keys v p : forall t t',
  update_where v p t = inl t' ->
  map id t' = map id t /\ map session_id t' = map session_id t.
Proof.
  induction t as [|r t IH]; intros t' H; cbn [Usage.update_where] in H.
  - injection H as <-. now split.
  - destruct (String.eqb (id r) v).
    + destruct (update_check auth_users p r); [discriminate|].
      destruct (update_where v p t) as [rest|f] eqn:Hrest; [|discriminate].
      injection H as <-. destruct (IH rest eq_refl) as [Hid Hs].
      cbn. now rewrite Hid, Hs.
    + destruct (update_where v p t) as [rest|f] eqn:Hrest; [|discriminate].
      injection H as <-. destruct (IH rest eq_refl) as [Hid Hs].
      cbn. now rewrite Hid, Hs.
Qed.

(** Every row after the [UPDATE] is a row from before, as it was or
    updated. *)
Lemma update_where_rows v p : forall t t',
  update_where v p t = inl t' ->
  Forall2 (fun r r' => r' = r \/ r' = updated p r) t t'.
Proof.
  induction t as [|r t IH]; intros t' H; cbn [Usage.update_where] in H.
  - injection H as <-. constructor.
  - destruct (String.eqb (id r) v).
    + destruct (update_check auth_users p r); [discriminate|].
      destruct (update_where v p t) as [rest|f] eqn:Hrest; [|discriminate].
      injection H as <-. constructor; [now right | now apply IH].
    + destruct (update_where v p t) as [rest|f] eqn:Hrest; [|discriminate].
      injection H as <-. constructor; [now left | now apply IH].
Qed.

Lemma existsb_false_not_in {A} (f : A -> string) (x : string) (l : list A) :
  existsb (fun r => String.eqb (f r) x) l = false -> ~ In x (map f l).
Proof.
  induction l as [|a l IH]; cbn; [tauto|].
  intros H. apply orb_false_iff in H as [Ha Hl].
  apply String.eqb_neq in Ha. intros [Hx | Hx]; [congruence | now apply IH].
Qed.

Lemma NoDup_snoc {A} (l : list A) (x : A) : NoDup l -> ~ In x l -> NoDup (l ++ [x]).
Proof.
  intros Hl Hx. induction Hl as [|a l Ha Hl IH]; cbn.
  - constructor; [tauto|constructor].
  - constructor.
    + rewrite in_app_iff. cbn. intros [H | [H | []]]; [contradiction|].
      subst. apply Hx. now left.
    + apply IH. intros H. apply Hx. now right.
Qed.

Lemma increment_usage_done_cases p_session_id p_user_id t t' :
  increment_usage p_session_id p_user_id t = Done t' ->
  (exists v, update_where v p_user_id t = inl t')
  \/ (exists s, p_session_id = Some s
                /\ ~ In new_id (map id t) /\ ~ In s (map session_id t)
                /\ t' = (t ++ [mkRow new_id s p_user_id (Some 1) (Some now) (Some now)])%list).
Proof.
  unfold Usage.increment_usage.
  destruct (select_id p_session_id p_user_id t) as [v|].
  - destruct (update_where v p_user_id t) as [t1|f] eqn:Hup; [|discriminate].
    intros H. injection H as <-. left. now exists v.
  - unfold insert. destruct p_session_id as [s|]; [|discriminate].
    destruct (existsb _ t) eqn:Hid; [discriminate|].
    destruct (existsb (fun r => String.eqb (session_id r) s) t) eqn:Hs; [discriminate|].
    destruct (references_user auth_users p_user_id); [|discriminate].
    intros H. injection H as <-. right. exists s.
    repeat split; [now apply existsb_false_not_in | now apply existsb_false_not_in].
Qed.

Lemma increment_usage_keys p_session_id p_user_id t t' :
  keys_unique t ->
  increment_usage p_session_id p_user_id t = Done t' ->
  keys_unique t'.
Proof.
  intros [Hid Hs] Hdone.
  apply increment_usage_done_cases in Hdone
    as [(v & Hup) | (s & _ & Hnew & Hsess & ->)].
  - apply update_where_keys in Hup as [Eid Es]. unfold keys_unique.
    now rewrite Eid, Es.
  - unfold keys_unique. rewrite !map_app. cbn [map id session_id].
    split; now apply NoDup_snoc.
Qed.

End UsageFacts.

(** X17.  A successful [increment_usage] keeps the keys of [usage_tracking]
    as its constraints want them: if no two rows shared an [id] and no two
    shared a [session_id] before the call, none do after it. *)
Theorem increment_usage_keeps_keys
  (auth_users : string -> bool) (now : Z) (new_id : string)
  (p_session_id p_user_id : option string) (t t' : Usage.Table) :
  Usage.keys_unique t ->
  Usage.increment_usage auth_users now new_id p_session_id p_user_id t = Usage.Done t' ->
  Usage.keys_unique t'.
Proof. apply increment_usage_keys. Qed.

(** X18.  A successful [increment_usage] loses and re-keys no row, and never
    detaches or replaces a user: every row from before the call is still
    there with its [id], its [session_id] and its [created_at]; if it had a
    user it has the same user; and its count is what it was or one more. *)
Theorem increment_usage_keeps_rows
  (auth_users : string -> bool) (now : Z) (new_id : string)
  (p_session_id p_user_id : option string) (t t' : Usage.Table) (r : Usage.Row) :
  Usage.increment_usage auth_users now new_id p_session_id p_user_id t = Usage.Done t' ->
  In r t ->
  exists r',
    In r' t'
    /\ Usage.id r' = Usage.id r
    /\ Usage.session_id r' = Usage.session_id r
    /\ Usage.created_at r' = Usage.created_at r
    /\ (forall u, Usage.user_id r = Some u -> Usage.user_id r' = Some u)
    /\ (Usage.usage_count r' = Usage.usage_count r
        \/ Usage.usage_count r' = option_map (fun c => c + 1) (Usage.usage_count r)).
Proof.
  intros Hdone Hin.
  apply increment_usage_done_cases in Hdone as [(v & Hup) | (s & _ & _ & _ & ->)].
  - apply update_where_rows in Hup.
    induction Hup as [|a a' t t' Ha Hrest IH]; [contradiction|].
    destruct Hin as [-> | Hin].
    + exists a'. split; [now left|]. destruct Ha as [-> | ->].
      * repeat split; auto.
      * cbn. repeat split; auto. now intros u ->.
    + destruct (IH Hin) as (r' & Hr' & Hrest'). exists r'. split; [now right|assumption].
  - exists r. split; [apply in_app_iff; now left|]. repeat split; auto.
Qed.

Lemma increment_usage_keeps_keys_witness :
  Usage.keys_unique
    [ Cases.other_session;
      Usage.mkRow "id-1" "session_a" None (Some 1) (Some 200) (Some 200) ].
Proof.
  apply (increment_usage_keeps_keys (fun _ => true) 200 "id-1" (Some "session_a") None
           [Cases.other_session]).
  - split; (constructor; [cbn; tauto | constructor]).
  - reflexivity.
Defined.

Lemma increment_usage_keeps_rows_witness :
  exists r',
    In r' [Usage.mkRow "id-0" "session_other" (Some "user-7") (Some 6) (Some 200) (Some 90)]
    /\ Usage.id r' = "id-0"
    /\ Usage.user_id r' = Some "user-7".
Proof.
  destruct (increment_usage_keeps_rows (fun _ => true) 200 "id-1"
              (Some "session_other") (Some "user-9") [Cases.other_session]
              [Usage.mkRow "id-0" "session_other" (Some "user-7") (Some 6) (Some 200) (Some 90)]
              Cases.other_session eq_refl (or_introl eq_refl))
    as (r' & Hin & Hid & _ & _ & Huser & _).
  exists r'. split; [exact Hin|]. split; [exact Hid|]. now apply Huser.
Defined.

Section AnonymousVisits.

Import Usage.

Variable auth_users : string -> bool.
Variable sessionId : string.

Lemma matches_anonymous r :
  matches (Some sessionId) None r = String.eqb (session_id r) sessionId.
Proof.
  unfold matches, sql_eq. destruct (user_id r); now rewrite orb_false_r.
Qed.

Lemma select_id_anonymous t :
  select_id (Some sessionId) None t = option_map id (session_row sessionId t).
Proof.
  unfold select_id, session_row. f_equal.
  induction t as [|a t IH]; [reflexivity|].
  cbn [find]. now rewrite matches_anonymous, IH.
Qed.

Lemma session_row_in t r :
  session_row sessionId t = Some r -> In r t /\ session_id r = sessionId.
Proof.
  unfold session_row. intros H. apply find_some in H as [Hin Heq].
  now apply String.eqb_eq in Heq.
Qed.

Lemma session_row_none t :
  session_row sessionId t = None ->
  existsb (fun r => String.eqb (session_id r) sessionId) t = false.
Proof.
  unfold session_row. induction t as [|a t IH]; cbn; [reflexivity|].
  destruct (String.eqb (session_id a) sessionId); [discriminate|]. exact IH.
Qed.

Lemma update_where_absent now v p : forall t,
  ~ In v (map id t) -> update_where auth_users now v p t = inl t.
Proof.
  induction t as [|a t IH]; intros Hv; cbn [Usage.update_where]; [reflexivity|].
  cbn in Hv. destruct (String.eqb_spec (id a) v) as [Heq|Hne]; [tauto|].
  rewrite IH; tauto.
Qed.

(** The [UPDATE] of the session's row: that row, and only that row,
    changes. *)
Lemma update_session_row now : forall t r c,
  NoDup (map id t) ->
  session_row sessionId t = Some r ->
  usage_count r = Some c -> c < int_max ->
  exists t',
    update_where auth_users now (id r) None t = inl t'
    /\ session_row sessionId t' = Some (updated now None r).
Proof.
  induction t as [|a t IH]; intros r c Hids Hrow Hc Hmax; [discriminate|].
  inversion Hids as [|? ? Ha Hids']; subst.
  unfold session_row in Hrow. cbn [find] in Hrow. cbn [Usage.update_where].
  destruct (String.eqb (session_id a) sessionId) eqn:Hs.
  - injection Hrow as ->. rewrite String.eqb_refl.
    unfold update_check. rewrite Hc.
    replace (int_max <=? c) with false by (symmetry; apply Z.leb_gt; lia).
    cbn [negb]. destruct (user_id r); cbn [references_user negb];
      rewrite (update_where_absent now (id r) None t Ha);
      eexists; (split; [reflexivity|]);
      unfold session_row; cbn [find updated session_id]; now rewrite Hs.
  - fold (session_row sessionId t) in Hrow.
    destruct (session_row_in t r Hrow) as [Hin _].
    assert (Hne : String.eqb (id a) (id r) = false).
    { apply String.eqb_neq. intros Heq. apply Ha. rewrite Heq. now apply in_map. }
    rewrite Hne. destruct (IH r c Hids' Hrow Hc Hmax) as (t' & -> & Hrow').
    eexists. split; [reflexivity|].
    unfold session_row in *. cbn [find]. now rewrite Hs.
Qed.

(** With one row per session at most, the visitor's reading is the count of
    the session's row. *)
Lemma reading_of_session_row : forall t,
  NoDup (map session_id t) ->
  checkUsageLimit sessionId None t
  = match session_row sessionId t with
    | Some r => count_or_zero r
    | None => 0
    end.
Proof.
  intros t Hs. unfold checkUsageLimit, session_row.
  induction t as [|a t IH]; [reflexivity|].
  inversion Hs as [|? ? Ha Hs']; subst. cbn [filter find].
  destruct (String.eqb (session_id a) sessionId) eqn:Heq.
  - apply String.eqb_eq in Heq.
    replace (filter (fun r => String.eqb (session_id r) sessionId) t) with (@nil Row);
      [reflexivity|].
    symmetry. clear IH Hs Hs'. induction t as [|b t IHt]; [reflexivity|].
    cbn [filter]. cbn in Ha.
    destruct (String.eqb_spec (session_id b) sessionId) as [Hb|_].
    + exfalso. apply Ha. left. congruence.
    + apply IHt. tauto.
  - now apply IH.
Qed.

Local Abbreviation counted := (counted sessionId).

Lemma increments_counted : forall calls t c,
  keys_unique t ->
  (session_row sessionId t = None ->
   forall call, In call calls -> ~ In (snd call) (map id t)) ->
  counted t c ->
  c + Z.of_nat (List.length calls) <= int_max ->
  keys_unique (increments auth_users calls sessionId t)
  /\ counted (increments auth_users calls sessionId t) (c + Z.of_nat (List.length calls)).
Proof.
  induction calls as [|[now new_id] calls IH]; intros t c Hkeys Hfresh Hc Hmax.
  - cbn. rewrite Z.add_0_r. now split.
  - cbn [increments List.length]. cbn [List.length] in Hmax.
    unfold counted in Hc.
    destruct (session_row sessionId t) as [r|] eqn:Hrow.
    + (* the row is there: it is updated *)
      destruct (update_session_row now t r c (proj1 Hkeys) Hrow Hc) as (t' & Hup & Hrow');
        [lia|].
      assert (Hdone : increment_usage auth_users now new_id (Some sessionId) None t
                      = Done t').
      { unfold Usage.increment_usage. rewrite select_id_anonymous, Hrow.
        cbn [option_map]. now rewrite Hup. }
      rewrite Hdone.
      replace (c + Z.of_nat (S (List.length calls)))
        with ((c + 1) + Z.of_nat (List.length calls)) by lia.
      apply IH.
      * now apply (increment_usage_keys auth_users now new_id (Some sessionId) None t).
      * rewrite Hrow'. discriminate.
      * unfold counted. rewrite Hrow'. cbn. now rewrite Hc.
      * lia.
    + (* no row yet: one is inserted *)
      subst c.
      assert (Hdone : increment_usage auth_users now new_id (Some sessionId) None t
                      = Done (t ++ [mkRow new_id sessionId None (Some 1)
                                          (Some now) (Some now)])%list).
      { unfold Usage.increment_usage. rewrite select_id_anonymous, Hrow.
        cbn [option_map]. unfold insert.
        replace (existsb (fun r => String.eqb (id r) new_id) t) with false.
        - now rewrite (session_row_none t Hrow).
        - symmetry. apply not_true_is_false. intros Hex.
          apply existsb_exists in Hex as (r & Hin & Heq). apply String.eqb_eq in Heq.
          apply (Hfresh eq_refl (now, new_id)); [now left|].
          cbn. rewrite <- Heq. now apply in_map. }
      rewrite Hdone.
      assert (Hrow' : session_row sessionId
                        (t ++ [mkRow new_id sessionId None (Some 1) (Some now) (Some now)])%list
                      = Some (mkRow new_id sessionId None (Some 1) (Some now) (Some now))).
      { unfold session_row in *. clear - Hrow. induction t as [|a t IHt]; cbn.
        - now rewrite String.eqb_refl.
        - cbn in Hrow. destruct (String.eqb (session_id a) sessionId); [discriminate|].
          now apply IHt. }
      replace (0 + Z.of_nat (S (List.length calls)))
        with (1 + Z.of_nat (List.length calls)) by lia.
      apply IH.
      * now apply (increment_usage_keys auth_users now new_id (Some sessionId) None t).
      * rewrite Hrow'. discriminate.
      * unfold counted. now rewrite Hrow'.
      * lia.
Qed.

End AnonymousVisits.

(** X19.  The trial limit counts what it should.  For an anonymous session
    that has no row yet (in a table whose keys are unique, and with fresh
    [id]s to insert), after [k] calls of [increment_usage] the count that
    [checkUsageLimit] reads back for that session is exactly [k]; so
    [handleOptimize] turns the anonymous visitor away exactly when three or
    more optimisations have been recorded. *)
Theorem anonymous_visits_are_counted
  (auth_users : string -> bool) (sessionId : string)
  (calls : list (Z * string)) (t : Usage.Table) :
  Usage.keys_unique t ->
  Usage.session_row sessionId t = None ->
  (forall call, In call calls -> ~ In (snd call) (map Usage.id t)) ->
  Z.of_nat (List.length calls) <= Usage.int_max ->
  Usage.checkUsageLimit sessionId None
    (Usage.increments auth_users calls sessionId t)
  = Z.of_nat (List.length calls)
  /\ Usage.trial_limit_reached None
       (Usage.checkUsageLimit sessionId None
          (Usage.increments auth_users calls sessionId t))
     = (3 <=? Z.of_nat (List.length calls)).
Proof.
  intros Hkeys Hrow Hfresh Hmax.
  destruct (increments_counted auth_users sessionId calls t 0 Hkeys) as [Hkeys' Hcount].
  - intros _. exact Hfresh.
  - unfold Usage.counted. now rewrite Hrow.
  - lia.
  - assert (Hread : Usage.checkUsageLimit sessionId None
                      (Usage.increments auth_users calls sessionId t)
                    = Z.of_nat (List.length calls)).
    { destruct Hkeys' as [_ Hsess]. rewrite (reading_of_session_row auth_users) by exact Hsess.
      unfold Usage.counted in Hcount.
      destruct (Usage.session_row sessionId
                  (Usage.increments auth_users calls sessionId t)) as [r|].
      - unfold Usage.count_or_zero. rewrite Hcount. lia.
      - lia. }
    split; [exact Hread|]. now rewrite Hread.
Qed.

Lemma anonymous_visits_are_counted_witness :
  Usage.checkUsageLimit "session_a" None
    (Usage.increments (fun _ => true) Cases.visits "session_a" [Cases.other_session])
  = 3
  /\ Usage.trial_limit_reached None
       (Usage.checkUsageLimit "session_a" None
          (Usage.increments (fun _ => true) Cases.visits "session_a"
                            [Cases.other_session]))
     = true.
Proof.
  apply (anonymous_visits_are_counted (fun _ => true) "session_a" Cases.visits
           [Cases.other_session]).
  - split; (constructor; [cbn; tauto | constructor]).
  - reflexivity.
  - intros call [<- | [<- | [<- | []]]]; cbn; intros [H | []]; discriminate H.
  - vm_compute. discriminate.
Defined.


(* ------------------------------------------------------------------ *)
(** ** The edge function: model calls, the provider's answer, the request *)

Section RetryCounts.

Import ApiUtils.

Context {T : Type}.
Variable maxRetries : Z.
Variable delay : Z.
Variable onRetry : bool.

(** The loop asks nothing of the operation but its outcomes. *)
Lemma attempts_ext (fn fn' : Z -> Outcome T) :
  (forall i, fn i = fn' i) ->
  forall fuel attempt lastError run,
    attempts fn maxRetries delay onRetry fuel attempt lastError run
    = attempts fn' maxRetries delay onRetry fuel attempt lastError run.
Proof.
  intros Heq. induction fuel as [|fuel IH]; intros attempt lastError run;
    [reflexivity|].
  destruct (Z_le_gt_dec attempt maxRetries) as [Hle|Hgt].
  - destruct (fn (invocations run + 1)) as [v|x] eqn:Hfn.
    + rewrite (attempts_step_resolved fn maxRetries delay onRetry _ _ _ _ v Hle Hfn).
      rewrite Heq in Hfn.
      now rewrite (attempts_step_resolved fn' maxRetries delay onRetry _ _ _ _ v Hle Hfn).
    + rewrite (attempts_step_rejected fn maxRetries delay onRetry _ _ _ _ x Hle Hfn).
      assert (Hfn' := Hfn). rewrite Heq in Hfn'.
      rewrite (attempts_step_rejected fn' maxRetries delay onRetry _ _ _ _ x Hle Hfn').
      unfold failed_round. rewrite Hfn, Hfn'. apply IH.
  - now rewrite !attempts_step_done by lia.
Qed.

(** The counter of invocations and the invocations of the trace agree. *)
Lemma attempts_counts (fn : Z -> Outcome T) fuel :
  forall attempt lastError run,
    invocations run = Z.of_nat (List.length (invoked (trace run))) ->
    invocations (snd (attempts fn maxRetries delay onRetry fuel attempt lastError run))
    = Z.of_nat (List.length (invoked (trace
        (snd (attempts fn maxRetries delay onRetry fuel attempt lastError run))))).
Proof.
  induction fuel as [|fuel IH]; intros attempt lastError run Hrun; [exact Hrun|].
  destruct (Z_le_gt_dec attempt maxRetries) as [Hle|Hgt].
  - destruct (fn (invocations run + 1)) as [v|x] eqn:Hfn.
    + rewrite (attempts_step_resolved fn maxRetries delay onRetry _ _ _ _ v Hle Hfn).
      cbn [snd invocations trace]. rewrite invoked_app, List.length_app.
      cbn [invoked List.length]. lia.
    + rewrite (attempts_step_rejected fn maxRetries delay onRetry _ _ _ _ x Hle Hfn).
      apply IH. cbn [invocations trace].
      rewrite invoked_app, List.length_app, invoked_failed_round.
      cbn [List.length]. lia.
  - now rewrite attempts_step_done by lia.
Qed.

End RetryCounts.

Lemma outbound_calls_bounds {A} (primary : Z -> Outcome A) tr :
  Z.of_nat (List.length (ApiUtils.invoked tr)) <= Edge.outbound_calls primary tr
  <= 2 * Z.of_nat (List.length (ApiUtils.invoked tr)).
Proof.
  unfold Edge.outbound_calls.
  induction (ApiUtils.invoked tr) as [|i l IH]; cbn [map fold_right List.length]; [lia|].
  assert (1 <= Edge.calls_made (primary i) <= 2).
  { unfold Edge.calls_made. destruct (primary i) as [v|e]; [lia|].
    destruct (Edge.model_not_found e); lia. }
  lia.
Qed.

Lemma outbound_calls_plain {A} (primary : Z -> Outcome A) tr :
  (forall i e, primary i = Rejected e -> Edge.model_not_found e = false) ->
  Edge.outbound_calls primary tr = Z.of_nat (List.length (ApiUtils.invoked tr)).
Proof.
  intros Hplain. unfold Edge.outbound_calls.
  induction (ApiUtils.invoked tr) as [|i l IH]; cbn [map fold_right List.length]; [lia|].
  assert (Edge.calls_made (primary i) = 1).
  { unfold Edge.calls_made. destruct (primary i) as [v|e] eqn:He; [lia|].
    now rewrite (Hplain i e He). }
  lia.
Qed.

(** X20.  With a key configured, [optimizeCVWithAI] returns after at most
    three attempts and at most six calls of [callGemini], one or two per
    attempt.  If no failure of the primary model is an [Error] whose message
    contains "not found", the fallback model is never called: the run is the
    retry of the primary call alone, one call per attempt, whatever the
    failure is. *)
Theorem optimizeCVWithAI_calls
  {A} (geminiKey : string) (primary fallback : Z -> Outcome A) :
  geminiKey <> "" ->
  let run := Edge.optimizeCVWithAI (Some geminiKey) primary fallback ApiUtils.start in
  fst run <> None
  /\ ApiUtils.invocations (snd run) <= 3
  /\ ApiUtils.invocations (snd run)
       <= Edge.outbound_calls primary (ApiUtils.trace (snd run))
       <= 2 * ApiUtils.invocations (snd run)
  /\ ((forall i e, primary i = Rejected e -> Edge.model_not_found e = false) ->
      run = EdgeRetry.retryRequest primary 3 1000 ApiUtils.start
      /\ Edge.outbound_calls primary (ApiUtils.trace (snd run))
         = ApiUtils.invocations (snd run)).
Proof.
  intros Hkey run. subst run. unfold Edge.optimizeCVWithAI.
  destruct geminiKey as [|c k]; [congruence|]. cbn [Js.or_string Js.truthy_string].
  rewrite !edge_retryRequest_client.
  set (fn := fun i => Edge.withFallback (primary i) (fallback i)).
  assert (Hcount :
    ApiUtils.invocations (snd (ApiUtils.retryRequest fn 3 1000 false ApiUtils.start))
    = Z.of_nat (List.length (ApiUtils.invoked (ApiUtils.trace
        (snd (ApiUtils.retryRequest fn 3 1000 false ApiUtils.start)))))).
  { unfold ApiUtils.retryRequest. now apply attempts_counts. }
  split; [apply retryRequest_returns|]. split; [|split].
  - unfold ApiUtils.retryRequest.
    destruct (attempts_within fn 3 1000 false (S (Z.to_nat 3)) 1 None ApiUtils.start)
      as (more & _ & _ & Hinv); [lia | reflexivity |].
    cbn [ApiUtils.invocations ApiUtils.start] in Hinv. lia.
  - rewrite Hcount. apply outbound_calls_bounds.
  - intros Hplain.
    assert (Hsame : forall i, fn i = primary i).
    { intros i. unfold fn, Edge.withFallback.
      destruct (primary i) as [v|e] eqn:He; [reflexivity|].
      now rewrite (Hplain i e He). }
    split.
    + unfold ApiUtils.retryRequest. now apply attempts_ext.
    + rewrite Hcount. now apply outbound_calls_plain.
Qed.

Lemma optimizeCVWithAI_calls_witness :
  Edge.optimizeCVWithAI (Some "key") Cases.quota_exceeded Cases.fallback_answers
                        ApiUtils.start
  = EdgeRetry.retryRequest Cases.quota_exceeded 3 1000 ApiUtils.start.
Proof.
  destruct (optimizeCVWithAI_calls "key" Cases.quota_exceeded Cases.fallback_answers)
    as (_ & _ & _ & Hplain).
  - discriminate.
  - apply Hplain. intros i e He. unfold Cases.quota_exceeded in He.
    injection He as <-. reflexivity.
Defined.

Lemma parsedCV_of_not_null JSON_parse JSON_stringify aiData :
  aiData <> OptimizeCv.JNull ->
  Edge.parsedCV_of JSON_parse JSON_stringify aiData
  = Edge.from_content JSON_parse JSON_stringify aiData.
Proof. destruct aiData; intros H; [congruence | reflexivity ..]. Qed.

Lemma truthy_text text :
  OptimizeCv.truthy (OptimizeCv.JString text) = true <-> text <> "".
Proof. destruct text; cbn; split; congruence. Qed.

(** X21.  The handler gets as far as a parsed CV exactly when the provider's
    answer carries a non-empty string at candidates[0].content.parts[0].text
    and [JSON.parse] accepts what [jsonString] makes of it; the parsed CV is
    then that parse.  No other part of the answer can produce one. *)
Theorem parsedCV_from_first_candidate
  (JSON_parse : string -> option OptimizeCv.Json)
  (JSON_stringify : OptimizeCv.Json -> string)
  (aiData parsedCV : OptimizeCv.Json) :
  Edge.parsedCV_of JSON_parse JSON_stringify aiData = Resolved parsedCV
  <-> exists text,
        aiData <> OptimizeCv.JNull
        /\ Edge.content_of aiData = Some (OptimizeCv.JString text)
        /\ text <> ""
        /\ JSON_parse (OptimizeCv.jsonString text) = Some parsedCV.
Proof.
  split.
  - intros H.
    assert (Hnn : aiData <> OptimizeCv.JNull) by (intros ->; discriminate H).
    rewrite parsedCV_of_not_null in H by exact Hnn.
    unfold Edge.from_content in H.
    destruct (Edge.truthy_value (Edge.content_of aiData)) eqn:Ht; cbn [negb] in H.
    + destruct (Edge.content_of aiData) as [[| | |text| |]|] eqn:Hc;
        try discriminate H.
      exists text. split; [exact Hnn|]. split; [reflexivity|].
      split; [now apply truthy_text|].
      unfold OptimizeCv.parseCV in H.
      destruct (JSON_parse (OptimizeCv.jsonString text)); congruence.
    + repeat match type of H with
             | (if ?b then _ else _) = _ => destruct b
             end; discriminate H.
  - intros (text & Hnn & Hc & Ht & Hp).
    rewrite parsedCV_of_not_null by exact Hnn.
    unfold Edge.from_content. rewrite Hc.
    cbn [Edge.truthy_value]. apply truthy_text in Ht. rewrite Ht. cbn [negb].
    unfold OptimizeCv.parseCV. now rewrite Hp.
Qed.

Section RequestFacts.

Variable JSON_parse : string -> option OptimizeCv.Json.
Variable JSON_parse_error : string -> JsThrown.
Variable geminiKey : option string.

(** The body lacks one of the two required members: it is absent, or falsy. *)
Local Abbreviation lacks body key :=
  (Edge.own body key = None
   \/ exists v, Edge.own body key = Some v /\ OptimizeCv.truthy v = false).

Local Abbreviation keyed := (exists key, geminiKey = Some key /\ key <> "").

Lemma keyed_truthy : keyed -> Js.truthy_string (Js.or_string geminiKey "") = true.
Proof. intros (key & -> & Hk). destruct key; [now elim Hk | reflexivity]. Qed.

Lemma not_keyed_falsy : ~ keyed -> Js.truthy_string (Js.or_string geminiKey "") = false.
Proof.
  intros Hk. destruct geminiKey as [[|c key]|]; try reflexivity.
  elim Hk. exists (String c key). split; [reflexivity | discriminate].
Qed.

Lemma keyed_dec : keyed \/ ~ keyed.
Proof.
  destruct geminiKey as [[|c key]|] eqn:E.
  - right. intros (key & H & Hk). injection H as <-. now apply Hk.
  - left. exists (String c key). split; [reflexivity | discriminate].
  - right. intros (key & H & _). discriminate H.
Qed.

Lemma check_fields_null :
  Edge.check_fields geminiKey OptimizeCv.JNull
  = Edge.Throw (ThrownObject
      (mkErr true (Some "TypeError")
             (Some "Cannot destructure property 'resumeText' of 'body' as it is null.")
             None None)).
Proof. reflexivity. Qed.

Lemma check_fields_not_null body :
  body <> OptimizeCv.JNull ->
  Edge.check_fields geminiKey body
  = match Edge.own body "resumeText", Edge.own body "jobDescription" with
    | Some rt, Some jd =>
        if (OptimizeCv.truthy rt && OptimizeCv.truthy jd)%bool then
          if Js.truthy_string (Js.or_string geminiKey "")
          then Edge.Proceed rt jd (Edge.own body "jobRole")
          else Edge.Respond (Edge.mkResponse 500
                 (Edge.ErrorBody "Gemini API key not configured. Please set GEMINI_API_KEY as a secret in Supabase" None))
        else Edge.Respond (Edge.mkResponse 400
               (Edge.ErrorBody "Resume text and job description are required" None))
    | _, _ => Edge.Respond (Edge.mkResponse 400
                (Edge.ErrorBody "Resume text and job description are required" None))
    end.
Proof. intros Hnn. destruct body; [now elim Hnn | reflexivity..]. Qed.

Lemma check_fields_lacking body :
  body <> OptimizeCv.JNull ->
  lacks body "resumeText" \/ lacks body "jobDescription" ->
  Edge.check_fields geminiKey body
  = Edge.Respond (Edge.mkResponse 400
      (Edge.ErrorBody "Resume text and job description are required" None)).
Proof.
  intros Hnn Hl. rewrite check_fields_not_null by exact Hnn.
  destruct Hl as [[H|(v & H & Hv)]|[H|(v & H & Hv)]]; rewrite H.
  - reflexivity.
  - destruct (Edge.own body "jobDescription"); [|reflexivity]. now rewrite Hv.
  - now destruct (Edge.own body "resumeText").
  - destruct (Edge.own body "resumeText"); [|reflexivity].
    now rewrite Hv, Bool.andb_false_r.
Qed.

Lemma check_fields_present body rt jd :
  Edge.own body "resumeText" = Some rt ->
  Edge.own body "jobDescription" = Some jd ->
  OptimizeCv.truthy rt = true -> OptimizeCv.truthy jd = true ->
  Edge.check_fields geminiKey body
  = if Js.truthy_string (Js.or_string geminiKey "")
    then Edge.Proceed rt jd (Edge.own body "jobRole")
    else Edge.Respond (Edge.mkResponse 500
           (Edge.ErrorBody "Gemini API key not configured. Please set GEMINI_API_KEY as a secret in Supabase" None)).
Proof.
  intros H1 H2 H3 H4.
  assert (Hnn : body <> OptimizeCv.JNull) by (intros ->; discriminate H1).
  rewrite check_fields_not_null by exact Hnn. now rewrite H1, H2, H3, H4.
Qed.

(** Every body but [null] either lacks a member or has both. *)
Lemma fields_cases body :
  (lacks body "resumeText" \/ lacks body "jobDescription")
  \/ exists rt jd,
       Edge.own body "resumeText" = Some rt
       /\ Edge.own body "jobDescription" = Some jd
       /\ OptimizeCv.truthy rt = true /\ OptimizeCv.truthy jd = true.
Proof.
  destruct (Edge.own body "resumeText") as [rt|] eqn:H1; [|left; left; now left].
  destruct (OptimizeCv.truthy rt) eqn:Hrt;
    [|left; left; right; exists rt; split; [reflexivity | exact Hrt]].
  destruct (Edge.own body "jobDescription") as [jd|] eqn:H2; [|left; right; now left].
  destruct (OptimizeCv.truthy jd) eqn:Hjd;
    [|left; right; right; exists jd; split; [reflexivity | exact Hjd]].
  right. exists rt, jd. auto.
Qed.

Lemma lacks_not_present body rt jd :
  lacks body "resumeText" \/ lacks body "jobDescription" ->
  Edge.own body "resumeText" = Some rt ->
  Edge.own body "jobDescription" = Some jd ->
  OptimizeCv.truthy rt = true -> OptimizeCv.truthy jd = true -> False.
Proof.
  intros [[H|(v & H & Hv)]|[H|(v & H & Hv)]] H1 H2 H3 H4; congruence.
Qed.

Variable req : Edge.Request.

Local Abbreviation json_type :=
  (exists ct, Edge.contentType req = Some ct
              /\ Js.includes ct "application/json" = true).

(** The request gets as far as a parsed body. *)
Local Abbreviation reads body :=
  (Edge.method req <> "OPTIONS" /\ json_type
   /\ exists text, Edge.body_text req = Resolved text
                   /\ Js.trim text <> ""
                   /\ JSON_parse text = Some body).

(** The request gets as far as the inner [try], whose [catch] gets [x]. *)
Local Abbreviation caught x :=
  (Edge.method req <> "OPTIONS" /\ json_type
   /\ (Edge.body_text req = Rejected x
       \/ exists text, Edge.body_text req = Resolved text
                       /\ Js.trim text <> ""
                       /\ JSON_parse text = None
                       /\ x = JSON_parse_error text)).

Local Abbreviation blank :=
  (Edge.method req <> "OPTIONS" /\ json_type
   /\ exists text, Edge.body_text req = Resolved text /\ Js.trim text = "").

Local Abbreviation outcome :=
  (Edge.check_request JSON_parse JSON_parse_error geminiKey req).

Lemma blank_test text :
  (negb (Js.truthy_string text) || Nat.eqb (String.length (Js.trim text)) 0)%bool
  = match Js.trim text with EmptyString => true | _ => false end.
Proof.
  destruct text as [|c text]; [reflexivity|].
  cbn [Js.truthy_string negb orb]. now destruct (Js.trim (String c text)).
Qed.

Lemma check_request_options :
  Edge.method req = "OPTIONS" ->
  outcome = Edge.Respond (Edge.mkResponse 200 Edge.NoBody).
Proof. intros H. unfold Edge.check_request. now rewrite H. Qed.

Lemma check_request_type :
  Edge.method req <> "OPTIONS" -> ~ json_type ->
  outcome = Edge.Respond (Edge.mkResponse 400
              (Edge.ErrorBody "Content-Type must be application/json" None)).
Proof.
  intros Hm Hct. unfold Edge.check_request.
  apply String.eqb_neq in Hm. rewrite Hm.
  destruct (Edge.contentType req) as [ct|] eqn:E; [|reflexivity].
  destruct (Js.includes ct "application/json") eqn:Hi;
    [|now rewrite Bool.andb_false_r].
  elim Hct. now exists ct.
Qed.

Lemma check_request_body :
  Edge.method req <> "OPTIONS" -> json_type ->
  outcome
  = match Edge.body_text req with
    | Resolved text =>
        match Js.trim text with
        | EmptyString =>
            Edge.Respond (Edge.mkResponse 400
              (Edge.ErrorBody "Request body is empty. Please provide resumeText and jobDescription." None))
        | _ =>
            match JSON_parse text with
            | Some body => Edge.check_fields geminiKey body
            | None =>
                Edge.Respond (Edge.mkResponse 400
                  (Edge.ErrorBody Edge.invalid_json
                     (Some (Edge.details_of (JSON_parse_error text)))))
            end
        end
    | Rejected parseError =>
        Edge.Respond (Edge.mkResponse 400
          (Edge.ErrorBody Edge.invalid_json (Some (Edge.details_of parseError))))
    end.
Proof.
  intros Hm (ct & Hct & Hi). unfold Edge.check_request.
  apply String.eqb_neq in Hm. rewrite Hm, Hct, Hi.
  replace (Js.truthy_string ct) with true
    by (destruct ct; [discriminate Hi | reflexivity]).
  cbn [andb]. destruct (Edge.body_text req) as [text|x]; [|reflexivity].
  rewrite blank_test. now destruct (Js.trim text).
Qed.

Lemma check_request_reads body :
  reads body -> outcome = Edge.check_fields geminiKey body.
Proof.
  intros (Hm & Hct & text & Ht & Hne & Hp).
  rewrite check_request_body by assumption. rewrite Ht, Hp.
  destruct (Js.trim text); [now elim Hne | reflexivity].
Qed.

Lemma check_request_blank :
  blank ->
  outcome = Edge.Respond (Edge.mkResponse 400
              (Edge.ErrorBody "Request body is empty. Please provide resumeText and jobDescription." None)).
Proof.
  intros (Hm & Hct & text & Ht & He).
  rewrite check_request_body by assumption. now rewrite Ht, He.
Qed.

Lemma check_request_caught x :
  caught x ->
  outcome = Edge.Respond (Edge.mkResponse 400
              (Edge.ErrorBody Edge.invalid_json (Some (Edge.details_of x)))).
Proof.
  intros (Hm & Hct & [Hx|(text & Ht & Hne & Hp & ->)]);
    rewrite check_request_body by assumption.
  - now rewrite Hx.
  - rewrite Ht, Hp. destruct (Js.trim text); [now elim Hne | reflexivity].
Qed.

(** The request is in exactly one of these situations. *)
Lemma request_cases :
  Edge.method req = "OPTIONS"
  \/ (Edge.method req <> "OPTIONS" /\ ~ json_type)
  \/ blank
  \/ (exists x, caught x)
  \/ (exists body, reads body).
Proof.
  destruct (String.eqb (Edge.method req) "OPTIONS") eqn:Hm;
    [left; now apply String.eqb_eq|].
  apply String.eqb_neq in Hm. right.
  assert (Hct : json_type \/ ~ json_type).
  { destruct (Edge.contentType req) as [ct|].
    - destruct (Js.includes ct "application/json") eqn:Hi.
      + left. now exists ct.
      + right. intros (ct' & H & Hi'). injection H as <-. congruence.
    - right. intros (ct' & H & _). discriminate H. }
  destruct Hct as [Hct|Hct]; [right | left; auto].
  destruct (Edge.body_text req) as [text|x] eqn:Ht.
  - destruct (Js.trim text) eqn:He.
    + left. repeat split; auto. now exists text.
    + right. destruct (JSON_parse text) as [body|] eqn:Hp.
      * right. exists body. repeat split; auto. exists text.
        split; [reflexivity|]. split; [congruence | exact Hp].
      * left. exists (JSON_parse_error text). repeat split; auto. right.
        exists text. split; [reflexivity|]. split; [congruence|]. auto.
  - right. left. exists x. repeat split; auto.
Qed.

Lemma details_of_Error e m :
  is_Error e = true -> err_message e = Some m ->
  Edge.details_of (ThrownObject e) = m.
Proof. intros H1 H2. cbn. now rewrite H1, H2. Qed.

Lemma details_of_other x :
  (forall e, x = ThrownObject e -> is_Error e = false) ->
  Edge.details_of x = String_of x.
Proof.
  intros H. destruct x as [| |s|e]; try reflexivity.
  cbn [Edge.details_of]. now rewrite (H e eq_refl).
Qed.

End RequestFacts.

(** X22.  What the checks on the request come to, for every request.  In
    order: OPTIONS is answered 200 with no body; a content type that is
    missing or does not contain application/json, 400; a body that is empty
    or white space only, 400; a body that cannot be read, or that
    [JSON.parse] refuses, 400 with the message of the [Error] caught (the
    string form of anything else) as details; a body that parses to [null]
    makes the destructuring throw a [TypeError], which the outer handler
    turns into its answer; a body without a truthy [resumeText] and
    [jobDescription], 400; a missing or empty key, 500; and only what is
    left goes on to the model, with the three members of the body.
    Conversely the checks throw only for a body that parses to [null], go
    on only for a request that passed them all, and each answer comes from
    the situation listed for its status. *)
Theorem check_request_outcomes
  (JSON_parse : string -> option OptimizeCv.Json)
  (JSON_parse_error : string -> JsThrown)
  (geminiKey : option string) (req : Edge.Request) :
  let outcome := Edge.check_request JSON_parse JSON_parse_error geminiKey req in
  let respond (status : Z) (error : string) (details : option string) :=
    outcome = Edge.Respond (Edge.mkResponse status (Edge.ErrorBody error details)) in
  let json_type :=
    exists ct, Edge.contentType req = Some ct
               /\ Js.includes ct "application/json" = true in
  let reads (body : OptimizeCv.Json) :=
    Edge.method req <> "OPTIONS" /\ json_type
    /\ exists text, Edge.body_text req = Resolved text
                    /\ Js.trim text <> ""
                    /\ JSON_parse text = Some body in
  let caught (x : JsThrown) :=
    Edge.method req <> "OPTIONS" /\ json_type
    /\ (Edge.body_text req = Rejected x
        \/ exists text, Edge.body_text req = Resolved text
                        /\ Js.trim text <> ""
                        /\ JSON_parse text = None
                        /\ x = JSON_parse_error text) in
  let blank :=
    Edge.method req <> "OPTIONS" /\ json_type
    /\ exists text, Edge.body_text req = Resolved text /\ Js.trim text = "" in
  let lacks (body : OptimizeCv.Json) (key : string) :=
    Edge.own body key = None
    \/ exists v, Edge.own body key = Some v /\ OptimizeCv.truthy v = false in
  let has (body : OptimizeCv.Json) (key : string) (v : OptimizeCv.Json) :=
    Edge.own body key = Some v /\ OptimizeCv.truthy v = true in
  let keyed := exists key, geminiKey = Some key /\ key <> "" in
  (* what every request gets *)
  (Edge.method req = "OPTIONS" ->
   outcome = Edge.Respond (Edge.mkResponse 200 Edge.NoBody))
  /\ (Edge.method req <> "OPTIONS" -> ~ json_type ->
      respond 400 "Content-Type must be application/json" None)
  /\ (blank ->
      respond 400
        "Request body is empty. Please provide resumeText and jobDescription." None)
  /\ (forall x e m,
        caught x -> x = ThrownObject e -> is_Error e = true ->
        err_message e = Some m ->
        respond 400
          "Invalid JSON in request body. Please ensure the body contains valid JSON with resumeText and jobDescription fields."
          (Some m))
  /\ (forall x,
        caught x -> (forall e, x = ThrownObject e -> is_Error e = false) ->
        respond 400
          "Invalid JSON in request body. Please ensure the body contains valid JSON with resumeText and jobDescription fields."
          (Some (String_of x)))
  /\ (reads OptimizeCv.JNull ->
      exists e, outcome = Edge.Throw (ThrownObject e)
                /\ is_Error e = true /\ err_name e = Some "TypeError")
  /\ (forall body,
        reads body -> body <> OptimizeCv.JNull ->
        lacks body "resumeText" \/ lacks body "jobDescription" ->
        respond 400 "Resume text and job description are required" None)
  /\ (forall body resumeText jobDescription,
        reads body ->
        has body "resumeText" resumeText ->
        has body "jobDescription" jobDescription ->
        (~ keyed ->
         respond 500
           "Gemini API key not configured. Please set GEMINI_API_KEY as a secret in Supabase"
           None)
        /\ (keyed ->
            outcome = Edge.Proceed resumeText jobDescription
                        (Edge.own body "jobRole")))
  (* and conversely *)
  /\ (forall x, outcome = Edge.Throw x -> reads OptimizeCv.JNull)
  /\ (forall resumeText jobDescription jobRole,
        outcome = Edge.Proceed resumeText jobDescription jobRole ->
        keyed
        /\ exists body,
             reads body
             /\ has body "resumeText" resumeText
             /\ has body "jobDescription" jobDescription
             /\ Edge.own body "jobRole" = jobRole)
  /\ (forall r,
        outcome = Edge.Respond r ->
        (Edge.status r = 200 /\ Edge.payload r = Edge.NoBody
         /\ Edge.method req = "OPTIONS")
        \/ (Edge.status r = 400
            /\ ((Edge.method req <> "OPTIONS" /\ ~ json_type)
                \/ blank
                \/ (exists x, caught x)
                \/ (exists body,
                      reads body /\ body <> OptimizeCv.JNull
                      /\ (lacks body "resumeText"
                          \/ lacks body "jobDescription"))))
        \/ (Edge.status r = 500
            /\ ~ keyed
            /\ exists body resumeText jobDescription,
                 reads body
                 /\ has body "resumeText" resumeText
                 /\ has body "jobDescription" jobDescription)).
Proof.
  intros outcome respond json_type reads caught blank lacks has keyed.
  unfold respond, outcome. clear respond outcome. cbv beta.
  assert (Hfields : forall body, reads body ->
            body = OptimizeCv.JNull
            \/ (body <> OptimizeCv.JNull
                /\ (lacks body "resumeText" \/ lacks body "jobDescription"))
            \/ (exists rt jd, has body "resumeText" rt /\ has body "jobDescription" jd)).
  { intros body _. destruct (fields_cases body) as [Hl|(rt & jd & H1 & H2 & H3 & H4)].
    - destruct body; try (right; left; split; [discriminate | exact Hl]).
      now left.
    - right. right. exists rt, jd. split; split; assumption. }
  assert (Hthrow : reads OptimizeCv.JNull ->
            Edge.check_request JSON_parse JSON_parse_error geminiKey req
            = Edge.Throw (ThrownObject
              (mkErr true (Some "TypeError")
                 (Some "Cannot destructure property 'resumeText' of 'body' as it is null.")
                 None None))).
  { intros H.
    now rewrite (check_request_reads JSON_parse JSON_parse_error geminiKey req _ H). }
  assert (Hlack : forall body, reads body -> body <> OptimizeCv.JNull ->
            lacks body "resumeText" \/ lacks body "jobDescription" ->
            Edge.check_request JSON_parse JSON_parse_error geminiKey req
            = Edge.Respond (Edge.mkResponse 400
                (Edge.ErrorBody "Resume text and job description are required" None))).
  { intros body H Hnn Hl.
    rewrite (check_request_reads JSON_parse JSON_parse_error geminiKey req _ H).
    now apply check_fields_lacking. }
  assert (Hhas : forall body rt jd, reads body ->
            has body "resumeText" rt -> has body "jobDescription" jd ->
            Edge.check_request JSON_parse JSON_parse_error geminiKey req
            = if Js.truthy_string (Js.or_string geminiKey "")
              then Edge.Proceed rt jd (Edge.own body "jobRole")
              else Edge.Respond (Edge.mkResponse 500
                     (Edge.ErrorBody "Gemini API key not configured. Please set GEMINI_API_KEY as a secret in Supabase" None))).
  { intros body rt jd H [H1 H3] [H2 H4].
    rewrite (check_request_reads JSON_parse JSON_parse_error geminiKey req _ H).
    now apply check_fields_present. }
  assert (Hcaught : forall x, caught x ->
            Edge.check_request JSON_parse JSON_parse_error geminiKey req
            = Edge.Respond (Edge.mkResponse 400
                (Edge.ErrorBody Edge.invalid_json (Some (Edge.details_of x))))).
  { intros x H. now apply check_request_caught. }
  repeat match goal with |- _ /\ _ => split end.
  - apply check_request_options.
  - apply check_request_type.
  - apply check_request_blank.
  - intros x e m H -> He Hm. rewrite <- (details_of_Error e m He Hm).
    now apply Hcaught.
  - intros x H He. rewrite <- (details_of_other x He). now apply Hcaught.
  - intros H. eexists. split; [now apply Hthrow|]. split; reflexivity.
  - exact Hlack.
  - intros body rt jd H H1 H2.
    rewrite (Hhas body rt jd H H1 H2). split; intros Hk.
    + now rewrite (not_keyed_falsy geminiKey Hk).
    + now rewrite (keyed_truthy geminiKey Hk).
  - intros x Hx.
    destruct (request_cases JSON_parse JSON_parse_error req)
      as [Hm|[[Hm Hct]|[Hb|[(y & Hy)|(body & Hbody)]]]].
    + rewrite (check_request_options _ _ geminiKey req Hm) in Hx. discriminate Hx.
    + rewrite (check_request_type _ _ geminiKey req Hm Hct) in Hx. discriminate Hx.
    + rewrite (check_request_blank _ _ geminiKey req Hb) in Hx. discriminate Hx.
    + rewrite (Hcaught y Hy) in Hx. discriminate Hx.
    + destruct (Hfields body Hbody) as [->|[[Hnn Hl]|(rt & jd & H1 & H2)]].
      * exact Hbody.
      * rewrite (Hlack body Hbody Hnn Hl) in Hx. discriminate Hx.
      * rewrite (Hhas body rt jd Hbody H1 H2) in Hx.
        destruct (Js.truthy_string _); discriminate Hx.
  - intros rt0 jd0 role Hx.
    destruct (request_cases JSON_parse JSON_parse_error req)
      as [Hm|[[Hm Hct]|[Hb|[(y & Hy)|(body & Hbody)]]]].
    + rewrite (check_request_options _ _ geminiKey req Hm) in Hx. discriminate Hx.
    + rewrite (check_request_type _ _ geminiKey req Hm Hct) in Hx. discriminate Hx.
    + rewrite (check_request_blank _ _ geminiKey req Hb) in Hx. discriminate Hx.
    + rewrite (Hcaught y Hy) in Hx. discriminate Hx.
    + destruct (Hfields body Hbody) as [->|[[Hnn Hl]|(rt & jd & H1 & H2)]].
      * rewrite (Hthrow Hbody) in Hx. discriminate Hx.
      * rewrite (Hlack body Hbody Hnn Hl) in Hx. discriminate Hx.
      * rewrite (Hhas body rt jd Hbody H1 H2) in Hx.
        destruct (keyed_dec geminiKey) as [Hk|Hk].
        -- rewrite (keyed_truthy geminiKey Hk) in Hx. injection Hx as <- <- <-.
           split; [exact Hk|]. exists body. auto.
        -- rewrite (not_keyed_falsy geminiKey Hk) in Hx. discriminate Hx.
  - intros r Hx.
    destruct (request_cases JSON_parse JSON_parse_error req)
      as [Hm|[[Hm Hct]|[Hb|[(y & Hy)|(body & Hbody)]]]].
    + rewrite (check_request_options _ _ geminiKey req Hm) in Hx.
      injection Hx as <-. left. auto.
    + rewrite (check_request_type _ _ geminiKey req Hm Hct) in Hx.
      injection Hx as <-. right. left. split; [reflexivity|]. left. auto.
    + rewrite (check_request_blank _ _ geminiKey req Hb) in Hx.
      injection Hx as <-. right. left. split; [reflexivity|]. right. left. exact Hb.
    + rewrite (Hcaught y Hy) in Hx.
      injection Hx as <-. right. left. split; [reflexivity|]. right. right. left.
      now exists y.
    + destruct (Hfields body Hbody) as [->|[[Hnn Hl]|(rt & jd & H1 & H2)]].
      * rewrite (Hthrow Hbody) in Hx. discriminate Hx.
      * rewrite (Hlack body Hbody Hnn Hl) in Hx.
        injection Hx as <-. right. left. split; [reflexivity|]. right. right. right.
        exists body. auto.
      * rewrite (Hhas body rt jd Hbody H1 H2) in Hx.
        destruct (keyed_dec geminiKey) as [Hk|Hk].
        -- rewrite (keyed_truthy geminiKey Hk) in Hx. discriminate Hx.
        -- rewrite (not_keyed_falsy geminiKey Hk) in Hx.
           injection Hx as <-. right. right. split; [reflexivity|].
           split; [exact Hk|]. exists body, rt, jd. auto.
Qed.

Lemma check_request_outcomes_witness :
  exists e,
    Edge.check_request Cases.parse_null Cases.no_parse_error None Cases.null_request
    = Edge.Throw (ThrownObject e)
    /\ is_Error e = true /\ err_name e = Some "TypeError".
Proof.
  pose proof (check_request_outcomes Cases.parse_null Cases.no_parse_error None
                Cases.null_request) as H.
  cbv zeta in H. destruct H as (_ & _ & _ & _ & _ & H & _).
  apply H. split; [discriminate|]. split.
  - exists "application/json; charset=utf-8". split; reflexivity.
  - exists "null". split; [reflexivity|]. split; [discriminate | reflexivity].
Defined.

(** A body that is the text null, a body of white space, and a complete
    request without a key. *)
Example null_body_throws :
  (exists x, Edge.check_request Cases.parse_null Cases.no_parse_error
               (Some "key") Cases.null_request = Edge.Throw x)
  /\ Edge.check_request Cases.parse_null Cases.no_parse_error (Some "key")
       (Edge.mkRequest "POST" (Some "application/json")
          (Resolved (Cases.nbsp ++ " ")))
     = Edge.Respond (Edge.mkResponse 400
         (Edge.ErrorBody
            "Request body is empty. Please provide resumeText and jobDescription."
            None))
  /\ Edge.check_request Cases.parse_null Cases.no_parse_error (Some "key")
       (Edge.mkRequest "POST" (Some "text/plain") (Resolved "null"))
     = Edge.Respond (Edge.mkResponse 400
         (Edge.ErrorBody "Content-Type must be application/json" None)).
Proof.
  split; [eexists; vm_compute; reflexivity|]. split; vm_compute; reflexivity.
Qed.


(* ------------------------------------------------------------------ *)
(** ** What the fence pattern captures *)

Section FenceMore.

Import OptimizeCv.

(** The pattern behind group 1, and from the white space before it. *)
Local Abbreviation after_group :=
  (fun (group s4 : string) =>
     spaces s4 (fun s5 => match lit fence s5 with
                          | Some _ => Some group
                          | None => None
                          end)).
Local Abbreviation from_spaces :=
  (fun s2 : string => spaces s2 (fun s3 => lazy_any s3 "" after_group)).

Lemma lit_some p : forall s s', Js.lit p s = Some s' -> s = p ++ s'.
Proof.
  induction p as [|a p IH]; intros s s' H; cbn in H.
  - now injection H as ->.
  - destruct s as [|b s]; [discriminate|].
    destruct (Ascii.eqb a b) eqn:E; [|discriminate].
    apply Ascii.eqb_eq in E as <-. cbn. f_equal. now apply IH.
Qed.

Lemma includes_split p : forall s,
  Js.includes s p = true -> exists a b, s = a ++ p ++ b.
Proof.
  induction s as [|c s IH]; cbn [Js.includes]; unfold Js.startsWith.
  - destruct (Js.lit p "") as [s'|] eqn:E; [|discriminate].
    intros _. exists "", s'. cbn [append]. now apply lit_some.
  - destruct (Js.lit p (String c s)) as [s'|] eqn:E.
    + intros _. exists "", s'. cbn [append]. now apply lit_some.
    + intros H. destruct (IH H) as (a & b & ->). now exists (String c a), b.
Qed.

(** Two ways to cut one text meet. *)
Lemma append_cuts : forall a b w s : string,
  a ++ b = w ++ s ->
  (exists a2, a = w ++ a2 /\ s = a2 ++ b)
  \/ (exists w2, w2 <> "" /\ w = a ++ w2 /\ b = w2 ++ s).
Proof.
  induction a as [|c a IH]; intros b w s E.
  - destruct w as [|d w].
    + left. now exists "".
    + right. exists (String d w). cbn [append] in *. repeat split; [discriminate | assumption].
  - destruct w as [|d w].
    + left. exists (String c a). cbn [append] in *. now split.
    + cbn [append] in E. injection E as <- E.
      destruct (IH b w s E) as [(a2 & -> & ->) | (w2 & Hw2 & -> & ->)].
      * left. now exists a2.
      * right. now exists w2.
Qed.

Lemma closes_fence s : closes (fence ++ s) = true.
Proof.
  unfold closes. rewrite trimStart_none by (apply skip_space_ascii; cbn; lia).
  unfold Js.startsWith. now rewrite lit_app.
Qed.

Lemma closes_spaces ws s : Js.all_space ws = true -> closes (ws ++ s) = closes s.
Proof. intros H. unfold closes. now rewrite trimStart_spaces. Qed.

Lemma closes_split b :
  closes b = true ->
  exists ws behind, b = ws ++ fence ++ behind /\ Js.all_space ws = true.
Proof.
  unfold closes, Js.startsWith. intros H.
  destruct (Js.lit fence (Js.trimStart b)) as [behind|] eqn:E; [|discriminate].
  apply lit_some in E. destruct (trimStart_split b) as (ws & Hb & Hws).
  exists ws, behind. split; [congruence | exact Hws].
Qed.

(** A byte that continues a character starts neither white space nor a
    fence. *)
Lemma closes_continuation c s :
  (128 <= nat_of_ascii c < 192)%nat -> closes (String c s) = false.
Proof.
  intros Hc. unfold closes.
  rewrite trimStart_none by now apply skip_space_continuation.
  unfold Js.startsWith, fence. cbn [Js.lit].
  destruct (Ascii.eqb_spec "`" c) as [<-|]; [cbn in Hc; lia | reflexivity].
Qed.

(** The pattern does not close in the middle of a white space character. *)
Lemma closes_inner w a w2 rest :
  Js.skip_space w = Some "" -> w = a ++ w2 -> a <> "" -> w2 <> "" ->
  closes (w2 ++ rest) = false.
Proof.
  intros Hw -> Ha Hw2.
  destruct a as [|a1 a]; [contradiction|]. destruct w2 as [|c w2]; [contradiction|].
  cbn [append]. apply closes_continuation.
  destruct a as [|a2 a]; cbn [append Js.skip_space] in Hw.
  - destruct (Js.space1 a1); [destruct w2; discriminate Hw|].
    destruct (Js.space2 a1 c) eqn:H2; [now apply space2_bytes in H2|].
    destruct w2 as [|c' w2]; [discriminate|].
    destruct (Js.space3 a1 c c') eqn:H3; [|discriminate].
    now apply space3_bytes in H3.
  - destruct (Js.space1 a1); [discriminate|].
    destruct (Js.space2 a1 a2); [destruct a; discriminate Hw|].
    destruct a as [|a3 a]; cbn [append] in Hw.
    + destruct (Js.space3 a1 a2 c) eqn:H3; [|discriminate].
      now apply space3_bytes in H3.
    + destruct (Js.space3 a1 a2 a3); [|discriminate].
      injection Hw as Hw. destruct a; discriminate.
Qed.

(** A closing fence somewhere in [s] is one somewhere in [trimStart s]. *)
Lemma closing_trimStart : forall s a b,
  s = a ++ b -> closes b = true ->
  exists a' b', Js.trimStart s = a' ++ b' /\ closes b' = true.
Proof.
  induction s as [s Hs | s s' Hs IH] using space_ind; intros a b E Hb.
  - exists a, b. now rewrite (trimStart_none s Hs).
  - rewrite (trimStart_some s s' Hs).
    destruct (skip_space_split s s' Hs) as (w & Ew & Hw & Hne).
    rewrite Ew in E. symmetry in E.
    destruct (append_cuts a b w s' E) as [(a2 & -> & ->) | (w2 & Hw2 & -> & ->)].
    + now apply (IH a2 b).
    + destruct a as [|a1 a].
      * cbn [append] in *. rewrite <- Ew, (closes_space s s' Hs) in Hb.
        now apply (IH "" s').
      * rewrite (closes_inner (String a1 a ++ w2) (String a1 a) w2 s') in Hb;
          [discriminate | assumption | reflexivity | discriminate | assumption].
Qed.

Lemma lazy_any_some {R} (k : string -> string -> option R) :
  forall s taken r,
    lazy_any s taken k = Some r ->
    exists a b,
      s = a ++ b /\ k (taken ++ a) b = Some r
      /\ forall a1 a2, a = a1 ++ a2 -> a2 <> "" -> k (taken ++ a1) (a2 ++ b) = None.
Proof.
  induction s as [|c s IH]; intros taken r H; cbn [lazy_any] in H.
  - destruct (k taken "") eqn:Hk; [|discriminate]. injection H as ->.
    exists "", "". rewrite (append_nil_r taken). split; [reflexivity|]. split; [exact Hk|].
    intros [|] a2 E Hne; cbn in E; [subst a2; congruence | discriminate].
  - destruct (k taken (String c s)) eqn:Hk.
    + injection H as ->. exists "", (String c s). rewrite (append_nil_r taken).
      split; [reflexivity|]. split; [exact Hk|].
      intros [|] a2 E Hne; cbn in E; [subst a2; congruence | discriminate].
    + apply IH in H as (a & b & -> & Hr & Hmin).
      exists (String c a), b. split; [reflexivity|].
      rewrite <- append_assoc in Hr. split; [exact Hr|].
      intros [|c1 a1] a2 E Hne; cbn [append] in E.
      * subst a2. rewrite (append_nil_r taken). exact Hk.
      * injection E as <- ->. specialize (Hmin a1 a2 eq_refl Hne).
        now rewrite <- append_assoc in Hmin.
Qed.

Lemma lazy_any_none {R} (k : string -> string -> option R) :
  forall s taken,
    lazy_any s taken k = None ->
    forall a b, s = a ++ b -> k (taken ++ a) b = None.
Proof.
  induction s as [|c s IH]; intros taken H a b E; cbn [lazy_any] in H.
  - destruct a; [|discriminate]. cbn in E. subst b. rewrite (append_nil_r taken).
    now destruct (k taken "").
  - destruct (k taken (String c s)) eqn:Hk; [discriminate|].
    destruct a as [|c1 a]; cbn [append] in E.
    + subst b. now rewrite (append_nil_r taken).
    + injection E as <- ->. specialize (IH _ H a b eq_refl).
      now rewrite <- append_assoc in IH.
Qed.

Lemma spaces_none {R} (k : string -> option R) :
  forall s, spaces s k = None -> k (Js.trimStart s) = None.
Proof.
  induction s as [s Hs | s s' Hs IH] using space_ind; rewrite spaces_eq, Hs.
  - now rewrite (trimStart_none s Hs).
  - rewrite (trimStart_some s s' Hs). unfold orelse.
    destruct (spaces s' k); [discriminate|]. intros _. now apply IH.
Qed.

(** No closing fence anywhere: no match from the white space on. *)
Lemma from_spaces_none s :
  from_spaces s = None -> forall a b, s = a ++ b -> closes b = false.
Proof.
  intros H a b E. destruct (closes b) eqn:Hb; [|reflexivity].
  destruct (closing_trimStart s a b E Hb) as (a' & b' & E' & Hb').
  apply spaces_none in H.
  pose proof (lazy_any_none _ _ _ H a' b' E') as Hk. cbn beta in Hk.
  rewrite spaces_then_fence, Hb' in Hk. discriminate Hk.
Qed.

(** Backing off from the white space taken first finds nothing new. *)
Lemma from_spaces_greedy : forall s g,
  from_spaces s = Some g -> lazy_any (Js.trimStart s) "" after_group = Some g.
Proof.
  induction s as [s Hs | s s' Hs IH] using space_ind; intros g H;
    rewrite spaces_eq, Hs in H.
  - now rewrite (trimStart_none s Hs).
  - rewrite (trimStart_some s s' Hs). unfold orelse in H.
    destruct (spaces s' (fun s3 => lazy_any s3 "" after_group)) as [g'|] eqn:Hs'.
    + injection H as ->. now apply IH.
    + exfalso. apply lazy_any_some in H as (a & b & E & Hk & _). cbn beta in Hk.
      rewrite spaces_then_fence in Hk.
      destruct (closes b) eqn:Hb; [|discriminate].
      destruct (closing_trimStart s a b E Hb) as (a' & b' & E' & Hb').
      rewrite (trimStart_some s s' Hs) in E'.
      destruct (trimStart_split s') as (ws & Ews & _).
      rewrite E', append_assoc in Ews.
      pose proof (from_spaces_none s' Hs' (ws ++ a') b' Ews). congruence.
Qed.

(** What a match from the white space on tells about the group. *)
Lemma from_spaces_some s g :
  from_spaces s = Some g ->
  exists ws1 b,
    s = ws1 ++ g ++ b /\ Js.all_space ws1 = true /\ closes b = true
    /\ Js.includes g fence = false /\ Js.trim g = g.
Proof.
  intros H. apply from_spaces_greedy in H.
  apply lazy_any_some in H as (a & b & E & Hk & Hmin). cbn beta in Hk.
  rewrite spaces_then_fence in Hk. cbn [append] in Hk.
  destruct (closes b) eqn:Hb; [|discriminate]. injection Hk as ->.
  assert (Hearly : forall a1 a2, g = a1 ++ a2 -> a2 <> "" -> closes (a2 ++ b) = false).
  { intros a1 a2 Eg Hne. specialize (Hmin a1 a2 Eg Hne). cbn beta in Hmin.
    rewrite spaces_then_fence in Hmin. now destruct (closes (a2 ++ b)). }
  destruct (trimStart_split s) as (ws1 & Es & Hws1).
  exists ws1, b. split; [congruence|]. split; [exact Hws1|]. split; [exact Hb|].
  split.
  - destruct (Js.includes g fence) eqn:Hinc; [|reflexivity]. exfalso.
    apply includes_split in Hinc as (a1 & a2 & Eg).
    assert (Hc : closes ((fence ++ a2) ++ b) = false).
    { apply (Hearly a1); [exact Eg | discriminate]. }
    rewrite <- append_assoc, closes_fence in Hc. discriminate Hc.
  - unfold Js.trim. rewrite (trimStart_prefix g b).
    + apply trimEnd_fixed. intros a1 a2 Eg Hne.
      destruct (Js.all_space a2) eqn:Hall; [|reflexivity]. exfalso.
      pose proof (Hearly a1 a2 Eg Hne) as Hcl.
      rewrite (closes_spaces a2 b Hall) in Hcl. congruence.
    + rewrite <- E. apply trimStart_fixed.
Qed.

Lemma match_here_some s g :
  match_here s = Some g ->
  exists tag ws1 b,
    s = fence ++ tag ++ ws1 ++ g ++ b
    /\ (tag = "" \/ tag = "json")
    /\ Js.all_space ws1 = true /\ closes b = true
    /\ Js.includes g fence = false /\ Js.trim g = g.
Proof.
  unfold match_here.
  destruct (lit fence s) as [s1|] eqn:Hl; [|discriminate].
  apply lit_some in Hl. subst s. unfold optional.
  destruct (lit "json" s1) as [s2|] eqn:Hj.
  - apply lit_some in Hj. unfold orelse.
    destruct (from_spaces s2) as [g'|] eqn:H2.
    + intros E. injection E as ->.
      destruct (from_spaces_some s2 g H2) as (ws1 & b & -> & H).
      exists "json", ws1, b. subst s1. split; [reflexivity|]. split; [now right | exact H].
    + intros H1. destruct (from_spaces_some s1 g H1) as (ws1 & b & -> & H).
      exists "", ws1, b. split; [reflexivity|]. split; [now left | exact H].
  - intros H1. destruct (from_spaces_some s1 g H1) as (ws1 & b & -> & H).
    exists "", ws1, b. split; [reflexivity|]. split; [now left | exact H].
Qed.

Lemma match_here_closing b tail :
  match_here (fence ++ b ++ fence ++ tail) <> None.
Proof.
  unfold match_here, lit. rewrite lit_app. unfold optional.
  assert (Hplain : from_spaces (b ++ fence ++ tail) <> None).
  { intros H. pose proof (from_spaces_none _ H b (fence ++ tail) eq_refl) as Hc.
    rewrite closes_fence in Hc. discriminate Hc. }
  destruct (lit "json" (b ++ fence ++ tail)); [|exact Hplain].
  unfold orelse. now destruct (spaces s _).
Qed.

Lemma fence_match_some : forall s g,
  fence_match s = Some g -> exists before s', s = before ++ s' /\ match_here s' = Some g.
Proof.
  induction s as [|c s IH]; intros g H; cbn [fence_match] in H.
  - destruct (match_here "") eqn:E; [|discriminate].
    injection H as ->. now exists "", "".
  - destruct (match_here (String c s)) eqn:E.
    + injection H as ->. now exists "", (String c s).
    + destruct (IH g H) as (before & s' & -> & Hs').
      now exists (String c before), s'.
Qed.

Lemma fence_match_later : forall before s,
  fence_match s <> None -> fence_match (before ++ s) <> None.
Proof.
  induction before as [|c before IH]; intros s H; [exact H|].
  cbn [append fence_match].
  destruct (match_here (String c (before ++ s))); [discriminate | now apply IH].
Qed.

Lemma fence_match_here s : match_here s <> None -> fence_match s <> None.
Proof.
  destruct s; cbn [fence_match]; destruct (match_here _); congruence.
Qed.

Lemma fence_match_fenced s g :
  fence_match s = Some g ->
  Fences.fenced s g /\ Js.includes g fence = false /\ Js.trim g = g.
Proof.
  intros H. apply fence_match_some in H as (before & s' & -> & H).
  apply match_here_some in H as (tag & ws1 & b & -> & Htag & Hws1 & Hb & Hg).
  split; [|exact Hg].
  apply closes_split in Hb as (ws2 & behind & -> & Hws2).
  exists before, tag, ws1, ws2, behind. auto.
Qed.

End FenceMore.

(** X23.  Whenever the fence pattern matches, the content reads: a fence,
    [json] or nothing, white space, the captured group, white space, a
    fence; and the group handed to [JSON.parse] holds no fence and has no
    white space at either end.  Extracting again from the group leaves it
    as it is. *)
Theorem fence_match_group (optimizedContent group : string) :
  OptimizeCv.fence_match optimizedContent = Some group ->
  Fences.fenced optimizedContent group
  /\ Js.includes group OptimizeCv.fence = false
  /\ Js.trim group = group
  /\ OptimizeCv.jsonString group = group.
Proof.
  intros H. apply fence_match_fenced in H as (Hf & Hinc & Htrim).
  split; [exact Hf|]. split; [exact Hinc|]. split; [exact Htrim|].
  unfold OptimizeCv.jsonString. now rewrite fence_match_none.
Qed.

Lemma fence_match_group_witness :
  OptimizeCv.jsonString Cases.fenced_reply = "{ }"
  /\ Fences.fenced Cases.fenced_reply "{ }".
Proof.
  split; [reflexivity|].
  apply (fence_match_group Cases.fenced_reply "{ }"). reflexivity.
Defined.

(** White space around the group is any white space of [\s], the no-break
    space included. *)
Example fence_no_break_space :
  OptimizeCv.jsonString ("```json" ++ Cases.nbsp ++ "{8}" ++ Cases.nbsp ++ "```")
  = "{8}".
Proof. vm_compute. reflexivity. Qed.

(** X24.  The pattern matches, and only a part of the content is handed to
    [JSON.parse], exactly when the content holds two fences one behind the
    other; in every other case, a single fence included, the whole content
    is parsed. *)
Theorem fence_match_iff_two_fences (optimizedContent : string) :
  (OptimizeCv.fence_match optimizedContent <> None
   <-> Fences.two_fences optimizedContent)
  /\ (~ Fences.two_fences optimizedContent ->
      OptimizeCv.jsonString optimizedContent = optimizedContent).
Proof.
  assert (Hiff : OptimizeCv.fence_match optimizedContent <> None
                 <-> Fences.two_fences optimizedContent).
  { split.
    - destruct (OptimizeCv.fence_match optimizedContent) as [g|] eqn:H; [|congruence].
      intros _. apply fence_match_fenced in H as ((before & tag & ws1 & ws2 & behind & -> & _) & _).
      exists before, (tag ++ ws1 ++ g ++ ws2), behind.
      now rewrite <- !append_assoc.
    - intros (a & b & c & ->). apply fence_match_later, fence_match_here,
        match_here_closing. }
  split; [exact Hiff|].
  intros Hno. unfold OptimizeCv.jsonString.
  destruct (OptimizeCv.fence_match optimizedContent) eqn:H; [|reflexivity].
  exfalso. apply Hno, Hiff. congruence.
Qed.
